(** * Archive job engine of the Keybase client: embedding and properties

    The first part embeds the code the properties are about:
    - [MapUtil]: shared/util/map.tsx ([mapGetEnsureValue],
      [mapFilterByKey]);
    - [Chat]: go/chat archive registry and archiver
      ([ChatArchiveRegistry], [ChatArchiver]);
    - [SimpleFS]: go/kbfs/simplefs archive manager ([archiveManager], the
      stage workers, the resumable copier, the zipper).
    The second part states and proves the properties. *)

From Stdlib Require Import ZArith List Lia String Ascii Bool.
From Stdlib Require Import Sorting Permutation OrderedTypeEx.
From Stdlib.Strings Require Byte.
From stdpp Require Import gmap strings list fin_maps.

Local Open Scope Z_scope.

(* ===================================================================== *)
(** * Part I: the embedding                                               *)
(* ===================================================================== *)

(** ** Go machine integers and bytes *)

#[global] Instance byte_eq_dec : EqDecision Byte.byte := Strings.Byte.byte_eq_dec.

(** [bytes.Equal] *)
Definition bytes_Equal (a b : list Byte.byte) : bool := bool_decide (a = b).

(** A Go [int64]: a [Z] wrapped to the signed 64-bit range. *)
Definition wrap64 (z : Z) : Z := (z + 2 ^ 63) mod 2 ^ 64 - 2 ^ 63.

Definition int64_add (a b : Z) : Z := wrap64 (a + b).

(** ** A state and error monad for the stateful Go code

    A method that mutates its receiver and may return an error is a
    function from the state before to a result and the state after. As in
    Go, the mutations made before an error is returned are kept. *)

Inductive result (E A : Type) : Type :=
| Success (a : A)
| Failure (e : E).
Arguments Success {E A} a.
Arguments Failure {E A} e.

Definition M (S E A : Type) : Type := S -> result E A * S.

Definition ret {S E A : Type} (a : A) : M S E A := fun s => (Success a, s).

Definition bind {S E A B : Type} (c : M S E A) (k : A -> M S E B) : M S E B :=
  fun s => match c s with
           | (Success a, s') => k a s'
           | (Failure e, s') => (Failure e, s')
           end.

Definition fail {S E A : Type} (e : E) : M S E A := fun s => (Failure e, s).
Definition get {S E : Type} : M S E S := fun s => (Success s, s).
Definition modify {S E : Type} (f : S -> S) : M S E unit := fun s => (Success tt, f s).

(** Run [c] and hand its error to the caller as a value ([err := f()]). *)
Definition try {S E A : Type} (c : M S E A) : M S E (result E A) :=
  fun s => let '(r, s') := c s in (Success r, s').

(** Run [c] on a component of the state. *)
Definition lift {S T E A : Type} (proj : S -> T) (upd : T -> S -> S) (c : M T E A) : M S E A :=
  fun s => let '(r, t') := c (proj s) in (r, upd t' s).

Notation "x <- c1 ;; c2" := (bind c1 (fun x => c2))
  (at level 100, c1 at next level, right associativity).
Notation "c1 ;; c2" := (bind c1 (fun _ => c2))
  (at level 100, right associativity).

(** ** The Go runtime and library the code relies on *)

(** [for k, v := range m]: every entry once, in an order the language
    leaves open. *)
Class GoRange : Type := {
  range : forall {V : Type}, gmap string V -> list (string * V);
  range_perm : forall (V : Type) (m : gmap string V), range m ≡ₚ map_to_list m
}.

(** One order of ranging, to run examples: that of [map_to_list]. *)
#[export] Instance canonical_GoRange : GoRange := {|
  range := fun V m => map_to_list m;
  range_perm := fun V m => Permutation_refl _
|}.

(** The order [less] must have for [sort.Sort] to sort: a strict weak
    order. *)
Record StrictWeakOrder {A : Type} (less : A -> A -> bool) : Prop := {
  swo_irrefl : forall x, less x x = false;
  swo_trans : forall x y z, less x y = true -> less y z = true -> less x z = true;
  swo_incomp : forall x y z, less x y = false -> less y z = false -> less x z = false
}.

(** [sort.Sort]: rearranges the slice so that no element is less than an
    earlier one. The algorithm is the library's; the code relies on this
    contract only. *)
Class GoSort : Type := {
  sort_Sort : forall {A : Type}, (A -> A -> bool) -> list A -> list A;
  sort_Sort_perm : forall (A : Type) (less : A -> A -> bool) (l : list A),
      sort_Sort less l ≡ₚ l;
  sort_Sort_sorted : forall (A : Type) (less : A -> A -> bool) (l : list A),
      StrictWeakOrder less ->
      StronglySorted (fun x y => less y x = false) (sort_Sort less l)
}.

(** One sorting algorithm that meets the contract, to run examples. *)
Fixpoint insert_by {A : Type} (less : A -> A -> bool) (x : A) (l : list A) : list A :=
  match l with
  | [] => [x]
  | y :: l' => if less x y then x :: y :: l' else y :: insert_by less x l'
  end.

Fixpoint insertion_sort {A : Type} (less : A -> A -> bool) (l : list A) : list A :=
  match l with
  | [] => []
  | x :: l' => insert_by less x (insertion_sort less l')
  end.

(** ** The local file system ([os] package)

    A flat name space from paths to nodes. Opening, creating and removing
    behave as POSIX says for the flags the code passes, within three limits
    that the properties state as premises where they matter. A path is
    looked up as it is written, so the calls are faithful for clean paths
    ([clean]). A parent directory is not required to exist: [dirs_above]
    says that the directories above a new file are there. A symbolic link
    is not followed. No call fails for a reason outside the name space
    (permissions, full disk). *)

Module OS.

Inductive node : Type :=
| Dir (mtime : Z)
| Symlink (target : string)
| File (perm : Z) (mtime : Z) (data : list Byte.byte).

Inductive errno : Type := EEXIST | ENOENT | EISDIR | ENOTDIR | ELOOP.

(** [os.O_*] as on Linux. *)
Definition O_RDONLY : Z := 0.
Definition O_WRONLY : Z := 1.
Definition O_CREATE : Z := 64.
Definition O_EXCL : Z := 128.
Definition O_TRUNC : Z := 512.
Definition O_APPEND : Z := 1024.

Definition has_flag (flag bit : Z) : bool := negb (Z.land flag bit =? 0).

(** [os.OpenFile(name, flag, perm)]: the effect of the open on the name
    space. Symbolic links are not followed. *)
Definition OpenFile (name : string) (flag perm : Z) : M (gmap string node) errno unit :=
  fun fs =>
    match fs !! name with
    | Some n =>
        if has_flag flag O_CREATE && has_flag flag O_EXCL then (Failure EEXIST, fs)
        else
          match n with
          | File p t d =>
              if has_flag flag O_TRUNC then (Success tt, <[name := File p t []]> fs)
              else (Success tt, fs)
          | Dir _ => (Failure EISDIR, fs)
          | Symlink _ => (Failure ELOOP, fs)
          end
    | None =>
        if has_flag flag O_CREATE then (Success tt, <[name := File perm 0 []]> fs)
        else (Failure ENOENT, fs)
    end.


(** [File.Write] on a file opened with [O_APPEND], or written from
    its start after [O_TRUNC]: the bytes go to the end. *)
Definition Write (name : string) (b : list Byte.byte) : M (gmap string node) errno unit :=
  fun fs =>
    match fs !! name with
    | Some (File p t d) => (Success tt, <[name := File p t (d ++ b)]> fs)
    | Some (Dir _) => (Failure EISDIR, fs)
    | Some (Symlink _) => (Failure ELOOP, fs)
    | None => (Failure ENOENT, fs)
    end.

(** [os.Open(name)] followed by reading to the end. *)
Definition ReadFile (name : string) : M (gmap string node) errno (list Byte.byte) :=
  fun fs =>
    match fs !! name with
    | Some (File p t d) => (Success d, fs)
    | Some (Dir _) => (Failure EISDIR, fs)
    | Some (Symlink _) => (Failure ELOOP, fs)
    | None => (Failure ENOENT, fs)
    end.

(** [os.Lstat(name)] *)
Definition Lstat (name : string) : M (gmap string node) errno node :=
  fun fs =>
    match fs !! name with
    | Some n => (Success n, fs)
    | None => (Failure ENOENT, fs)
    end.

(** [FileInfo.IsDir()] *)
Definition IsDir (n : node) : bool :=
  match n with Dir _ => true | _ => false end.

(** [FileInfo.Size()] *)
Definition Size (n : node) : Z :=
  match n with
  | File _ _ d => Z.of_nat (length d)
  | Symlink target => Z.of_nat (String.length target)
  | Dir _ => 4096
  end.

(** The directories above [p]: its proper prefixes that end before a
    separator. *)
Fixpoint ancestors_from (acc p : string) : list string :=
  match p with
  | EmptyString => []
  | String c rest =>
      (if Ascii.eqb c "/" && negb (String.eqb acc "") then [acc] else [])
        ++ ancestors_from (acc ++ String c "") rest
  end.

Definition ancestors (p : string) : list string := ancestors_from "" p.

(** [os.Mkdir(path, perm)] when [path] is not there; nothing when it is a
    directory. *)
Definition mkdir_if_missing (path : string) : M (gmap string node) errno unit :=
  fun fs =>
    match fs !! path with
    | Some (Dir _) => (Success tt, fs)
    | Some _ => (Failure ENOTDIR, fs)
    | None => (Success tt, <[path := Dir 0]> fs)
    end.

(** [os.MkdirAll(path, perm)] *)
Definition MkdirAll (path : string) (perm : Z) : M (gmap string node) errno unit :=
  (fix go (l : list string) : M (gmap string node) errno unit :=
     match l with
     | [] => ret tt
     | d :: l' => mkdir_if_missing d ;; go l'
     end) (ancestors path ++ [path]).

(** [filepath.Dir(path)] for a clean path. *)
Definition filepath_Dir (path : string) : string :=
  match List.last (ancestors path) ""%string with
  | EmptyString => if String.prefix "/" path then "/"%string else "."%string
  | d => d
  end.

(** [os.Chtimes(name, atime, mtime)] *)
Definition Chtimes (name : string) (mtime : Z) : M (gmap string node) errno unit :=
  fun fs =>
    match fs !! name with
    | Some (File p _ d) => (Success tt, <[name := File p mtime d]> fs)
    | Some (Dir _) => (Success tt, <[name := Dir mtime]> fs)
    | Some (Symlink _) => (Failure ELOOP, fs)
    | None => (Failure ENOENT, fs)
    end.

(** [os.Symlink(oldname, newname)] *)
Definition MkSymlink (oldname newname : string) : M (gmap string node) errno unit :=
  fun fs =>
    match fs !! newname with
    | Some _ => (Failure EEXIST, fs)
    | None => (Success tt, <[newname := Symlink oldname]> fs)
    end.

(** [p] is [dir] or lies below it. *)
Definition under (dir p : string) : bool :=
  String.eqb dir p || String.prefix (dir ++ "/") p.

(** [os.RemoveAll(path)]: the path and everything below it. *)
Definition RemoveAll (path : string) : M (gmap string node) errno unit :=
  fun fs => (Success tt, filter (fun kv => under path kv.1 = false) fs).

(** [filepath.Join(a, b)] for clean, non-empty elements. *)
Definition Join (a b : string) : string := (a ++ "/" ++ b)%string.

(** The elements of a path: what lies between its separators. *)
Fixpoint elements_from (acc p : string) : list string :=
  match p with
  | EmptyString => [acc]
  | String c rest =>
      if Ascii.eqb c "/" then acc :: elements_from "" rest
      else elements_from (acc ++ String c "") rest
  end.

Definition elements (p : string) : list string := elements_from "" p.

(** The paths the name space is faithful for: [filepath.Clean(p) == p]
    for a path that names something below the root or below the working
    directory, so that it has an element, and no element is empty, "." or
    "..". The empty path, "/" and a path that ends in a separator are not
    among them. *)
Definition clean (p : string) : bool :=
  let ok := fun e => negb (String.eqb e "") && negb (String.eqb e ".")
                     && negb (String.eqb e "..") in
  match elements p with
  | EmptyString :: e :: es => forallb ok (e :: es)
  | es => forallb ok es
  end.

(** A clean path that does not start at the root: what [Join] appends. *)
Definition clean_rel (p : string) : bool := clean p && negb (String.prefix "/" p).

(** Every directory above [p] is there, as a directory: what the creation
    of [p] needs. *)
Definition dirs_above (p : string) (fs : gmap string node) : bool :=
  forallb (fun d => match fs !! d with Some (Dir _) => true | _ => false end) (ancestors p).


End OS.

(** ** shared/util/map.tsx *)

Module MapUtil.

(** Values of TypeScript type [any], as far as the map utilities can
    tell them apart: [undefined] and everything else. *)
Inductive jsval : Type :=
| JSUndefined
| JSNull
| JSBool (b : bool)
| JSNum (n : Z)
| JSStr (s : string).

#[global] Instance jsval_eq_dec : EqDecision jsval.
Proof. solve_decision. Defined.

(** [x === undefined] *)
Definition is_undefined (v : jsval) : bool :=
  match v with JSUndefined => true | _ => false end.

Section Map.
Context {K : Type} `{Countable K}.

(** [Map.prototype.get]: [undefined] when the key has no entry. *)
Definition Map_get (map : gmap K jsval) (key : K) : jsval :=
  default JSUndefined (map !! key).

(** [Map.prototype.set]: mutates the map; the mutated map is returned
    as the new store. *)
Definition Map_set (map : gmap K jsval) (key : K) (v : jsval) : gmap K jsval :=
  <[key := v]> map.

(** [Map.prototype.has] *)
Definition Map_has (map : gmap K jsval) (key : K) : bool :=
  bool_decide (is_Some (map !! key)).

(** [mapGetEnsureValue(map, key, def)]: the returned value and the map
    after the call. *)
Definition mapGetEnsureValue (map : gmap K jsval) (key : K) (def : jsval)
  : jsval * gmap K jsval :=
  let existing := Map_get map key in
  if is_undefined existing then (def, Map_set map key def)
  else (existing, map).
End Map.

(** [mapFilterByKey(map, keys)]: a JavaScript [Map] iterates in insertion
    order, so the map is its list of entries, each key once; the result is
    the new map built from the entries kept, in their order. *)
Definition mapFilterByKey {V : Type} (entries : list (string * V)) (keys : gset string)
  : list (string * V) :=
  List.filter (fun kv => bool_decide (kv.1 ∈ keys)) entries.

(** [Map.prototype.get] on the list of entries. *)
Definition entries_get {V : Type} (entries : list (string * V)) (key : string) : option V :=
  snd <$> List.find (fun kv => String.eqb kv.1 key) entries.

End MapUtil.

(** ** go/chat: the archive registry and the archiver *)

Module Chat.

(** [chat1.ArchiveChatJobStatus] *)
Inductive ArchiveChatJobStatus : Type :=
| RUNNING | PAUSED | BACKGROUND_PAUSED | ERROR | COMPLETE.

#[global] Instance status_eq_dec : EqDecision ArchiveChatJobStatus.
Proof. solve_decision. Defined.

(** [chat1.Pagination], the fields the archiver reads. *)
Record Pagination : Type := mkPagination {
  Num : Z;       (* int *)
  Last : bool
}.

(** [chat1.ArchiveChatJobRequest], the fields the code reads. *)
Record ArchiveChatJobRequest : Type := mkRequest {
  JobID : string;
  OutputPath : string;
  Compress : bool
}.

Record ArchiveChatConvCheckpoint : Type := mkCheckpoint {
  cp_Pagination : Pagination;
  cp_Offset : Z
}.

(** [chat1.ArchiveChatJob] *)
Record ArchiveChatJob : Type := mkJob {
  Request : ArchiveChatJobRequest;
  StartedAt : Z;          (* gregor1.Time, an int64 of milliseconds *)
  Status : ArchiveChatJobStatus;
  Err : string;
  MessagesTotal : Z;
  MessagesComplete : Z;
  Checkpoints : gmap string ArchiveChatConvCheckpoint
}.

Definition set_Status (st : ArchiveChatJobStatus) (j : ArchiveChatJob) : ArchiveChatJob :=
  {| Request := Request j; StartedAt := StartedAt j; Status := st; Err := Err j;
     MessagesTotal := MessagesTotal j; MessagesComplete := MessagesComplete j;
     Checkpoints := Checkpoints j |}.

(** [types.CancelArchiveFn]: a closure an executor hands to the
    registry. Calling it stops the executor, waits for it to drain and
    returns the executor's job record, here [cancel_returns]. A Go
    function value may be nil: the map holds [option CancelArchiveFn]. *)
Record CancelArchiveFn : Type := mkCancel {
  cancel_returns : ArchiveChatJob
}.

(** What the registry does to the world outside its own fields. *)
Inductive Effect : Type :=
| CancelCalled (jobID : string) (cancel : CancelArchiveFn)
| GoArchiveChat (req : ArchiveChatJobRequest)   (* go ...ArchiveChat(ctx, req) *)
| OsRemoveAll (path : string).

Inductive error : Type :=
| ArchiveJobNotFoundError (jobID : string)
| ErrNotStarted                                    (* "not started" *)
| ErrDb                                            (* an error of the encrypted db *)
| ErrCannotPause (found : ArchiveChatJobStatus)    (* "Cannot pause a non-running job. ..." *)
| ErrCancelNil                                     (* "cancel unexpectedly nil" *)
| ErrCannotResume (found : ArchiveChatJobStatus)   (* "Cannot resume a non-paused job. ..." *)
| ErrOs (e : OS.errno).

(** [err.(ArchiveJobNotFoundError)] *)
Definition is_NotFound (e : error) : bool :=
  match e with ArchiveJobNotFoundError _ => true | _ => false end.

(** [encrypteddb.EncryptedDB] under the registry's key: what it holds,
    and whether its calls fail. *)
Record EncryptedDB : Type := mkEdb {
  edb_fails : bool;
  edb_stored : option (gmap string ArchiveChatJob)
}.

(** [ChatArchiveRegistry], the fields guarded by its mutex, and the
    effects it has had so far. *)
Record ChatArchiveRegistry : Type := mkRegistry {
  started : bool;
  inited : bool;
  dirty : bool;
  runningJobs : gmap string (option CancelArchiveFn);
  edb : EncryptedDB;
  jobHistory : gmap string ArchiveChatJob;
  effects : list Effect
}.

Definition RM (A : Type) : Type := M ChatArchiveRegistry error A.

Definition set_inited (b : bool) (r : ChatArchiveRegistry) : ChatArchiveRegistry :=
  {| started := started r; inited := b; dirty := dirty r; runningJobs := runningJobs r;
     edb := edb r; jobHistory := jobHistory r; effects := effects r |}.
Definition set_dirty (b : bool) (r : ChatArchiveRegistry) : ChatArchiveRegistry :=
  {| started := started r; inited := inited r; dirty := b; runningJobs := runningJobs r;
     edb := edb r; jobHistory := jobHistory r; effects := effects r |}.
Definition set_runningJobs (m : gmap string (option CancelArchiveFn))
    (r : ChatArchiveRegistry) : ChatArchiveRegistry :=
  {| started := started r; inited := inited r; dirty := dirty r; runningJobs := m;
     edb := edb r; jobHistory := jobHistory r; effects := effects r |}.
Definition set_edb (d : EncryptedDB) (r : ChatArchiveRegistry) : ChatArchiveRegistry :=
  {| started := started r; inited := inited r; dirty := dirty r; runningJobs := runningJobs r;
     edb := d; jobHistory := jobHistory r; effects := effects r |}.
Definition set_jobHistory (h : gmap string ArchiveChatJob)
    (r : ChatArchiveRegistry) : ChatArchiveRegistry :=
  {| started := started r; inited := inited r; dirty := dirty r; runningJobs := runningJobs r;
     edb := edb r; jobHistory := h; effects := effects r |}.
Definition emit (e : Effect) : RM unit :=
  modify (fun r =>
    {| started := started r; inited := inited r; dirty := dirty r;
       runningJobs := runningJobs r; edb := edb r; jobHistory := jobHistory r;
       effects := effects r ++ [e] |}).

(** [NewChatArchiveRegistry] *)
Definition NewChatArchiveRegistry (db : EncryptedDB) : ChatArchiveRegistry :=
  {| started := false; inited := false; dirty := false; runningJobs := ∅;
     edb := db; jobHistory := ∅; effects := [] |}.

(** [Start], without the loops it spawns. *)
Definition Start (r : ChatArchiveRegistry) : ChatArchiveRegistry :=
  if started r then r
  else {| started := true; inited := inited r; dirty := dirty r;
          runningJobs := runningJobs r; edb := edb r; jobHistory := jobHistory r;
          effects := effects r |}.

(** [initLocked] *)
Definition initLocked : RM unit :=
  r <- get ;;
  if negb (started r) then fail ErrNotStarted
  else if inited r then ret tt
  else if edb_fails (edb r) then fail ErrDb
  else
    modify (fun r =>
      set_inited true
        (match edb_stored (edb r) with
         | Some h => set_jobHistory h r
         | None => set_jobHistory ∅ r
         end)).

(** [flushLocked] *)
Definition flushLocked : RM unit :=
  r <- get ;;
  if dirty r then
    if edb_fails (edb r) then fail ErrDb
    else modify (fun r =>
           set_dirty false
             (set_edb {| edb_fails := false; edb_stored := Some (jobHistory r) |} r))
  else ret tt.

(** [ByJobStartedAt.Less], on the two elements it indexes. *)
Definition ByJobStartedAt_Less (x y : ArchiveChatJob) : bool :=
  if StartedAt x =? StartedAt y
  then String.ltb (JobID (Request x)) (JobID (Request y))
  else StartedAt x <? StartedAt y.

Section Registry.
Context {rg : GoRange} {srt : GoSort}.

(** [List] *)
Definition List : RM (list ArchiveChatJob) :=
  initLocked ;;
  r <- get ;;
  let jobs := map snd (range (jobHistory r)) in
  ret (sort_Sort ByJobStartedAt_Less jobs).

(** [bgPauseAllJobsLocked] *)
Definition bgPauseAllJobsLocked : RM unit :=
  r <- get ;;
  (fix loop (l : list (string * option CancelArchiveFn)) : RM unit :=
     match l with
     | [] => ret tt
     | (jobID, cancel) :: l' =>
         match cancel with
         | Some c =>
             emit (CancelCalled jobID c) ;;
             modify (fun r =>
               set_jobHistory
                 (<[jobID := set_Status BACKGROUND_PAUSED (cancel_returns c)]> (jobHistory r)) r) ;;
             loop l'
         | None => fail ErrCancelNil   (* calling a nil function panics *)
         end
     end) (range (runningJobs r)) ;;
  modify (set_runningJobs ∅) ;;
  modify (set_dirty true) ;;
  _ <- try flushLocked ;;
  ret tt.
End Registry.

(** [Get] *)
Definition Get (jobID : string) : RM ArchiveChatJob :=
  initLocked ;;
  r <- get ;;
  match jobHistory r !! jobID with
  | None => fail (ArchiveJobNotFoundError jobID)
  | Some job => ret job
  end.

(** [Delete] *)
Definition Delete (jobID : string) (deleteOutputPath : bool) : RM unit :=
  initLocked ;;
  r <- get ;;
  match runningJobs r !! jobID with
  | Some (Some c) =>
      (* Ignore the job output since we're deleting it anyway *)
      emit (CancelCalled jobID c) ;;
      modify (fun r => set_runningJobs (delete jobID (runningJobs r)) r)
  | Some None => fail ErrCancelNil   (* calling a nil function panics *)
  | None => ret tt
  end ;;
  r <- get ;;
  match jobHistory r !! jobID with
  | None => fail (ArchiveJobNotFoundError jobID)
  | Some job =>
      modify (fun r => set_dirty true (set_jobHistory (delete jobID (jobHistory r)) r)) ;;
      if deleteOutputPath then emit (OsRemoveAll (OutputPath (Request job))) else ret tt
  end.

(** [Set] ([Set] is reserved in Rocq). *)
Definition Set_ (cancel : option CancelArchiveFn) (job : ArchiveChatJob) : RM unit :=
  initLocked ;;
  let jobID := JobID (Request job) in
  match Status job with
  | COMPLETE | ERROR =>
      modify (fun r => set_runningJobs (delete jobID (runningJobs r)) r)
  | RUNNING =>
      match cancel with
      | Some c => modify (fun r => set_runningJobs (<[jobID := Some c]> (runningJobs r)) r)
      | None => ret tt
      end
  | _ => ret tt
  end ;;
  modify (fun r => set_dirty true (set_jobHistory (<[jobID := job]> (jobHistory r)) r)).

(** [Pause] *)
Definition Pause (jobID : string) : RM unit :=
  initLocked ;;
  r <- get ;;
  match jobHistory r !! jobID with
  | None => fail (ArchiveJobNotFoundError jobID)
  | Some job =>
      if negb (bool_decide (Status job = RUNNING))
      then fail (ErrCannotPause (Status job))
      else
        match runningJobs r !! jobID with
        | None => fail (ArchiveJobNotFoundError jobID)
        | Some None => fail ErrCancelNil
        | Some (Some cancel) =>
            modify (fun r => set_runningJobs (delete jobID (runningJobs r)) r) ;;
            emit (CancelCalled jobID cancel) ;;
            let job := set_Status PAUSED (cancel_returns cancel) in
            modify (fun r => set_dirty true (set_jobHistory (<[jobID := job]> (jobHistory r)) r))
        end
  end.

(** [Resume] *)
Definition Resume (jobID : string) : RM unit :=
  initLocked ;;
  r <- get ;;
  match jobHistory r !! jobID with
  | None => fail (ArchiveJobNotFoundError jobID)
  | Some job =>
      match Status job with
      | ERROR | PAUSED | BACKGROUND_PAUSED =>
          (* Resume the job in the background, the job will register
             itself as running *)
          emit (GoArchiveChat (Request job))
      | _ => fail (ErrCannotResume (Status job))
      end
  end.

(** [OnDbNuke] *)
Definition OnDbNuke : RM unit :=
  r <- get ;;
  if negb (started r) then ret tt
  else modify (set_inited false).

Definition set_started (b : bool) (r : ChatArchiveRegistry) : ChatArchiveRegistry :=
  {| started := b; inited := inited r; dirty := dirty r; runningJobs := runningJobs r;
     edb := edb r; jobHistory := jobHistory r; effects := effects r |}.

Definition set_Err (msg : string) (j : ArchiveChatJob) : ArchiveChatJob :=
  {| Request := Request j; StartedAt := StartedAt j; Status := Status j; Err := msg;
     MessagesTotal := MessagesTotal j; MessagesComplete := MessagesComplete j;
     Checkpoints := Checkpoints j |}.

(** What ends the wait at the head of [resumeAllBgJobs]: the stop
    channel is closed, the context is done, or the delay has elapsed. *)
Inductive Wake : Type := StopClosed | ContextDone | DelayElapsed.

(** The errors of [resumeAllBgJobs]: [ctx.Err()], or an error of the
    registry. *)
Inductive resume_error : Type :=
| ctx_Err
| registry_error (e : error).

Section Lifecycle.
Context {rg : GoRange}.

(** [Stop], up to the wait for the loops it has started. *)
Definition Stop : RM unit :=
  r <- get ;;
  if started r then
    modify (set_started false) ;;
    bgPauseAllJobsLocked
  else ret tt.

(** [resumeAllBgJobs]: every job found BACKGROUND_PAUSED is handed to
    a new executor. *)
Definition resumeAllBgJobs (wake : Wake) : M ChatArchiveRegistry resume_error unit :=
  match wake with
  | StopClosed => ret tt
  | ContextDone => fail ctx_Err
  | DelayElapsed =>
      fun r =>
        match initLocked r with
        | (Failure e, r') => (Failure (registry_error e), r')
        | (Success _, r') =>
            let launched :=
              List.filter (fun kv => bool_decide (Status kv.2 = BACKGROUND_PAUSED))
                (range (jobHistory r')) in
            (Success tt,
             {| started := started r'; inited := inited r'; dirty := dirty r';
                runningJobs := runningJobs r'; edb := edb r'; jobHistory := jobHistory r';
                effects := effects r' ++ map (fun kv => GoArchiveChat (Request kv.2)) launched |})
        end
  end.
End Lifecycle.

(** The closure [pause] of [ArchiveChat]. Called, it stops the executor
    and returns [jobInfo] as the executor has left it: the record it
    registered, with the progress [checkpointConv] has written into it. *)
Definition pause_closure (jobInfo : ArchiveChatJob) (total complete : Z)
    (checkpoints : gmap string ArchiveChatConvCheckpoint) : CancelArchiveFn :=
  {| cancel_returns :=
       {| Request := Request jobInfo; StartedAt := StartedAt jobInfo;
          Status := Status jobInfo; Err := Err jobInfo;
          MessagesTotal := total; MessagesComplete := complete;
          Checkpoints := checkpoints |} |}.

(** The record [ArchiveChat] works on: the one the registry has for the
    job, or a new one. [found] is the outcome of [ArchiveRegistry.Get] and
    [now] is [time.Now()]. *)
Definition ArchiveChat_jobInfo (now : Z) (arg : ArchiveChatJobRequest)
    (found : result error ArchiveChatJob) : result error ArchiveChatJob :=
  match found with
  | Success jobInfo => Success (set_Err "" (set_Status RUNNING jobInfo))
  | Failure e =>
      if is_NotFound e
      then Success
             {| Request := arg; StartedAt := now; Status := RUNNING; Err := "";
                MessagesTotal := 0; MessagesComplete := 0; Checkpoints := ∅ |}
      else Failure e
  end.

(** [ArchiveChat], from the lookup of the job to its registration as
    running; [total], [complete] and [checkpoints] are the progress the
    executor will have made when its [pause] closure is called. *)
Definition ArchiveChat_register (now : Z) (arg : ArchiveChatJobRequest)
    (total complete : Z) (checkpoints : gmap string ArchiveChatConvCheckpoint)
  : RM ArchiveChatJob :=
  found <- try (Get (JobID arg)) ;;
  match ArchiveChat_jobInfo now arg found with
  | Failure e => fail e
  | Success jobInfo =>
      (* Mark ourselves as running *)
      Set_ (Some (pause_closure jobInfo total complete checkpoints)) jobInfo ;;
      ret jobInfo
  end.

(** The function [ArchiveChat] defers: [canceled] tells whether the
    registry has called [pause], [err] is the error [ArchiveChat] returns
    and [jobInfo] the executor's record. An error of [Set] is logged. *)
Definition ArchiveChat_exit (canceled : bool) (err : option string) (jobInfo : ArchiveChatJob)
  : RM unit :=
  if canceled then ret tt   (* canceled by registry, short-circuiting *)
  else
    let jobInfo :=
      match err with
      | None => set_Status COMPLETE jobInfo
      | Some msg => set_Err msg (set_Status ERROR jobInfo)
      end in
    _ <- try (Set_ None jobInfo) ;;
    ret tt.

(** The order of the listing, [(startedAt asc, jobID asc)]: [x] may
    come before [y]. *)
Definition started_then_id (x y : ArchiveChatJob) : Prop :=
  StartedAt x < StartedAt y \/
  (StartedAt x = StartedAt y /\
   String.leb (JobID (Request x)) (JobID (Request y)) = true).

(** Every record is filed under its own job ID, as [Set] files it. *)
Definition history_wf (h : gmap string ArchiveChatJob) : Prop :=
  forall k j, h !! k = Some j -> JobID (Request j) = k.

(** The registry is well formed: every record, in memory or stored, is
    filed under its own job ID, and every handle returns a record of the
    job it is registered for. *)
Definition registry_wf (r : ChatArchiveRegistry) : Prop :=
  history_wf (jobHistory r) /\
  (forall h, edb_stored (edb r) = Some h -> history_wf h) /\
  (forall jobID c, runningJobs r !! jobID = Some (Some c) ->
                   JobID (Request (cancel_returns c)) = jobID).

(** *** The archiver *)

(** [ChatArchiver], the fields guarded by its mutex. *)
Record ChatArchiver : Type := mkChatArchiver {
  pageSize : Z;
  messagesComplete : Z;   (* int64 *)
  messagesTotal : Z       (* int64 *)
}.

(** A call of [NotifyRouter.HandleChatArchiveProgress]. *)
Record ProgressNotification : Type := mkProgress {
  pn_jobID : string;
  pn_complete : Z;
  pn_total : Z
}.

(** [(c *ChatArchiver) notifyProgress]: the archiver after the call and
    the notification it sends. *)
Definition notifyProgress (c : ChatArchiver) (jobID : string) (pagination : Pagination)
  : ChatArchiver * ProgressNotification :=
  let complete := int64_add (messagesComplete c) (wrap64 (Num pagination)) in
  let complete :=
    if (messagesTotal c <? complete) || Last pagination
    then messagesTotal c   (* total messages is capped to the convs expunge *)
    else complete in
  ({| pageSize := pageSize c;
      messagesComplete := complete;
      messagesTotal := messagesTotal c |},
   {| pn_jobID := jobID; pn_complete := complete; pn_total := messagesTotal c |}).

(** The notifications of a run of page-progress calls, in order. *)
Fixpoint notifyProgress_all (c : ChatArchiver) (jobID : string) (pages : list Pagination)
  : ChatArchiver * list ProgressNotification :=
  match pages with
  | [] => (c, [])
  | p :: pages' =>
      let '(c1, n) := notifyProgress c jobID p in
      let '(c2, ns) := notifyProgress_all c1 jobID pages' in
      (c2, n :: ns)
  end.

Section Packaging.
Context {rg : GoRange} {srt : GoSort}.
(** The bytes [tar.Writer] over [gzip.Writer] produce for the entries
    walked. *)
Variable tar_gzip : list (string * OS.node) -> list Byte.byte.


End Packaging.

End Chat.

(** ** crypto/sha256

    SHA-256 as FIPS 180-4 defines it, on 32-bit words held in [Z]. *)

Module SHA256.

Definition w32 (x : Z) : Z := Z.land x 0xffffffff.
Definition add32 (x y : Z) : Z := w32 (x + y).
Definition rotr (n x : Z) : Z := Z.lor (Z.shiftr x n) (w32 (Z.shiftl x (32 - n))).
Definition Ch (x y z : Z) : Z := Z.lxor (Z.land x y) (Z.land (Z.lxor x 0xffffffff) z).
Definition Maj (x y z : Z) : Z := Z.lxor (Z.lxor (Z.land x y) (Z.land x z)) (Z.land y z).
Definition bsig0 (x : Z) : Z := Z.lxor (Z.lxor (rotr 2 x) (rotr 13 x)) (rotr 22 x).
Definition bsig1 (x : Z) : Z := Z.lxor (Z.lxor (rotr 6 x) (rotr 11 x)) (rotr 25 x).
Definition ssig0 (x : Z) : Z := Z.lxor (Z.lxor (rotr 7 x) (rotr 18 x)) (Z.shiftr x 3).
Definition ssig1 (x : Z) : Z := Z.lxor (Z.lxor (rotr 17 x) (rotr 19 x)) (Z.shiftr x 10).

(** FIPS 180-4 defines the round constants as the first 32 bits of the
    fractional parts of the cube roots of the first sixty-four primes, and
    the initial hash value the same way from the square roots of the first
    eight; they are computed here from that definition. *)
Definition is_prime (n : nat) : bool :=
  forallb (fun d => negb (Nat.eqb (Nat.modulo n d) 0)) (seq 2 (n - 2)).

Definition primes (count : nat) : list Z :=
  map Z.of_nat (firstn count (filter is_prime (seq 2 310))).

(** The largest [r] below [2 ^ bits] with [r ^ 3 <= n]. *)
Fixpoint cube_root (bits : nat) (n r : Z) : Z :=
  match bits with
  | O => r
  | S b =>
      let r' := r + 2 ^ Z.of_nat b in
      cube_root b n (if r' * r' * r' <=? n then r' else r)
  end.

Definition K : list Z :=
  Eval vm_compute in map (fun p => w32 (cube_root 36 (p * 2 ^ 96) 0)) (primes 64).

Definition H0 : list Z :=
  Eval vm_compute in map (fun p => w32 (Z.sqrt (p * 2 ^ 64))) (primes 8).

(** The message followed by 0x80, zeros, and its bit length in 8 bytes. *)
Definition pad (msg : list Z) : list Z :=
  let len := Z.of_nat (length msg) in
  let zeros := Z.to_nat ((55 - len) mod 64) in
  let bits := len * 8 in
  msg ++ [0x80] ++ repeat 0 zeros
      ++ map (fun i => Z.land (Z.shiftr bits (8 * i)) 0xff) [7; 6; 5; 4; 3; 2; 1; 0].

(** Big-endian 32-bit words of a block. *)
Fixpoint words (b : list Z) : list Z :=
  match b with
  | b0 :: b1 :: b2 :: b3 :: b' =>
      Z.lor (Z.shiftl b0 24) (Z.lor (Z.shiftl b1 16) (Z.lor (Z.shiftl b2 8) b3)) :: words b'
  | _ => []
  end.

(** The message schedule, latest word first. *)
Fixpoint schedule (n : nat) (w : list Z) : list Z :=
  match n with
  | O => w
  | S n' =>
      let x := add32 (add32 (ssig1 (nth 1 w 0)) (nth 6 w 0))
                     (add32 (ssig0 (nth 14 w 0)) (nth 15 w 0)) in
      schedule n' (x :: w)
  end.

Definition round (s : list Z) (kw : Z * Z) : list Z :=
  match s with
  | [a; b; c; d; e; f; g; h] =>
      let t1 := add32 (add32 (add32 h (bsig1 e)) (add32 (Ch e f g) (fst kw))) (snd kw) in
      let t2 := add32 (bsig0 a) (Maj a b c) in
      [add32 t1 t2; a; b; c; add32 d t1; e; f; g]
  | _ => s
  end.

Definition compress (hs : list Z) (block : list Z) : list Z :=
  let w := rev (schedule 48 (rev (words block))) in
  let s := fold_left round (combine K w) hs in
  map (fun p => add32 (fst p) (snd p)) (combine hs s).

Fixpoint blocks (n : nat) (hs : list Z) (m : list Z) : list Z :=
  match n with
  | O => hs
  | S n' => blocks n' (compress hs (firstn 64 m)) (skipn 64 m)
  end.

Definition word_bytes (x : Z) : list Z :=
  map (fun i => Z.land (Z.shiftr x (8 * i)) 0xff) [3; 2; 1; 0].

Definition to_byte (z : Z) : Byte.byte :=
  match Strings.Byte.of_N (Z.to_N z) with Some b => b | None => Byte.x00 end.

(** [sha256.Sum256], as a slice. *)
Definition Sum (msg : list Byte.byte) : list Byte.byte :=
  let m := pad (map (fun b => Z.of_N (Strings.Byte.to_N b)) msg) in
  let hs := blocks (length m / 64) H0 m in
  map to_byte (flat_map word_bytes hs).

End SHA256.

(** ** go/kbfs/simplefs: the archive manager *)

Module SimpleFS.

(** Modelled from the spec: the phase enumeration
    [keybase1.SimpleFSArchiveJobPhase], whose declaration is not part of
    the sources at hand. The spec's data model lists the phases Queued,
    Indexing, Indexed, Copying, Copied, Packaging, Done, Paused,
    BackgroundPaused and Error; the manager's code names the first seven
    (Packaging as [Zipping]) and no other. [Queued] is the zero value. *)
Inductive SimpleFSArchiveJobPhase : Type :=
| Queued | Indexing | Indexed | Copying | Copied | Zipping | Done
| Paused | BackgroundPaused | Error.

#[global] Instance phase_eq_dec : EqDecision SimpleFSArchiveJobPhase.
Proof. solve_decision. Defined.

(** [keybase1.SimpleFSFileArchiveState] *)
Inductive SimpleFSFileArchiveState : Type := ToDo | InProgress | Complete | Skipped.

(** [keybase1.DirentType] *)
Inductive DirentType : Type := DirentType_FILE | DirentType_DIR | DirentType_SYM | DirentType_EXEC.

(** [keybase1.SimpleFSArchiveJobDesc], the fields the manager reads; the
    archived KBFS tree [KbfsPathWithRevision] names is passed to the
    workers as the tree itself. *)
Record SimpleFSArchiveJobDesc : Type := mkDesc {
  JobID : string;
  StagingPath : string;
  TargetName : string;
  ZipFilePath : string;
  OverwriteZip : bool
}.

(** [keybase1.SimpleFSArchiveFile] *)
Record SimpleFSArchiveFile : Type := mkArchiveFile {
  State : SimpleFSFileArchiveState;
  DirentType_ : DirentType;
  Sha256SumHex : string
}.

(** [keybase1.SimpleFSArchiveJobState] *)
Record SimpleFSArchiveJobState : Type := mkJobState {
  Desc : SimpleFSArchiveJobDesc;
  Manifest : gmap string SimpleFSArchiveFile;
  Phase : SimpleFSArchiveJobPhase;
  BytesTotal : Z;
  BytesCopied : Z;
  BytesZipped : Z
}.

(** The zero value [m.state.Jobs[jobID]] yields for a missing job. *)
Definition zero_job : SimpleFSArchiveJobState :=
  {| Desc := {| JobID := ""; StagingPath := ""; TargetName := ""; ZipFilePath := "";
                OverwriteZip := false |};
     Manifest := ∅; Phase := Queued; BytesTotal := 0; BytesCopied := 0; BytesZipped := 0 |}.

Definition set_Phase (p : SimpleFSArchiveJobPhase) (j : SimpleFSArchiveJobState) :=
  {| Desc := Desc j; Manifest := Manifest j; Phase := p; BytesTotal := BytesTotal j;
     BytesCopied := BytesCopied j; BytesZipped := BytesZipped j |}.
Definition set_Manifest (mf : gmap string SimpleFSArchiveFile) (j : SimpleFSArchiveJobState) :=
  {| Desc := Desc j; Manifest := mf; Phase := Phase j; BytesTotal := BytesTotal j;
     BytesCopied := BytesCopied j; BytesZipped := BytesZipped j |}.
Definition set_BytesTotal (n : Z) (j : SimpleFSArchiveJobState) :=
  {| Desc := Desc j; Manifest := Manifest j; Phase := Phase j; BytesTotal := n;
     BytesCopied := BytesCopied j; BytesZipped := BytesZipped j |}.
Definition set_BytesCopied (n : Z) (j : SimpleFSArchiveJobState) :=
  {| Desc := Desc j; Manifest := Manifest j; Phase := Phase j; BytesTotal := BytesTotal j;
     BytesCopied := n; BytesZipped := BytesZipped j |}.
Definition set_BytesZipped (n : Z) (j : SimpleFSArchiveJobState) :=
  {| Desc := Desc j; Manifest := Manifest j; Phase := Phase j; BytesTotal := BytesTotal j;
     BytesCopied := BytesCopied j; BytesZipped := n |}.

Inductive error : Type :=
| context_Canceled                          (* ctx.Err() *)
| errors_New (msg : string)
| os_error (e : OS.errno)
| kbfs_error (what : string)                (* an error of the archived source tree *)
| Errorf (site : string) (cause : error)    (* fmt.Errorf("site ... error: %v", cause) *)
| panic (msg : string)
| out_of_fuel.                              (* no run reaches it: see [ctxAwareCopy] *)

(** The error is the bound on the iterations of a loop of the model, or
    wraps it. *)
Fixpoint fuel_error (e : error) : bool :=
  match e with
  | out_of_fuel => true
  | Errorf _ cause => fuel_error cause
  | _ => false
  end.

(** [time.Time] and [time.Duration], in nanoseconds. *)
Definition time_Second : Z := 1000000000.
Definition time_Minute : Z := 60 * time_Second.
Definition time_Add (t d : Z) : Z := t + d.
Definition time_Before (t u : Z) : bool := t <? u.

(** [errorState] *)
Record errorState : Type := mkErrorState {
  err : error;
  nextRetry : Z
}.

(** A [context.CancelFunc], named by the context it cancels. *)
Definition CancelFunc : Type := nat.

(** [archiveManager]: the fields guarded by [mu]; a signal channel of
    capacity 1 is the flag "a token is waiting"; [stateFile] is the state
    file as last written, [canceled] the cancel functions called so far. *)
Record archiveManager : Type := mkManager {
  Jobs : gmap string SimpleFSArchiveJobState;     (* m.state.Jobs *)
  LastUpdated : Z;                                (* m.state.LastUpdated *)
  jobCtxCancellers : gmap string CancelFunc;
  errors : gmap string errorState;
  indexingWorkerSignal : bool;
  copyingWorkerSignal : bool;
  zippingWorkerSignal : bool;
  stateFile : option (gmap string SimpleFSArchiveJobState);
  canceled : list CancelFunc
}.

Definition MM (A : Type) : Type := M archiveManager error A.

Definition set_Jobs (js : gmap string SimpleFSArchiveJobState) (m : archiveManager) :=
  {| Jobs := js; LastUpdated := LastUpdated m; jobCtxCancellers := jobCtxCancellers m;
     errors := errors m; indexingWorkerSignal := indexingWorkerSignal m;
     copyingWorkerSignal := copyingWorkerSignal m; zippingWorkerSignal := zippingWorkerSignal m;
     stateFile := stateFile m; canceled := canceled m |}.
Definition set_LastUpdated (t : Z) (m : archiveManager) :=
  {| Jobs := Jobs m; LastUpdated := t; jobCtxCancellers := jobCtxCancellers m;
     errors := errors m; indexingWorkerSignal := indexingWorkerSignal m;
     copyingWorkerSignal := copyingWorkerSignal m; zippingWorkerSignal := zippingWorkerSignal m;
     stateFile := stateFile m; canceled := canceled m |}.
Definition set_jobCtxCancellers (cs : gmap string CancelFunc) (m : archiveManager) :=
  {| Jobs := Jobs m; LastUpdated := LastUpdated m; jobCtxCancellers := cs;
     errors := errors m; indexingWorkerSignal := indexingWorkerSignal m;
     copyingWorkerSignal := copyingWorkerSignal m; zippingWorkerSignal := zippingWorkerSignal m;
     stateFile := stateFile m; canceled := canceled m |}.
Definition set_errors (es : gmap string errorState) (m : archiveManager) :=
  {| Jobs := Jobs m; LastUpdated := LastUpdated m; jobCtxCancellers := jobCtxCancellers m;
     errors := es; indexingWorkerSignal := indexingWorkerSignal m;
     copyingWorkerSignal := copyingWorkerSignal m; zippingWorkerSignal := zippingWorkerSignal m;
     stateFile := stateFile m; canceled := canceled m |}.
Definition set_stateFile (f : option (gmap string SimpleFSArchiveJobState)) (m : archiveManager) :=
  {| Jobs := Jobs m; LastUpdated := LastUpdated m; jobCtxCancellers := jobCtxCancellers m;
     errors := errors m; indexingWorkerSignal := indexingWorkerSignal m;
     copyingWorkerSignal := copyingWorkerSignal m; zippingWorkerSignal := zippingWorkerSignal m;
     stateFile := f; canceled := canceled m |}.
Definition add_canceled (c : CancelFunc) (m : archiveManager) :=
  {| Jobs := Jobs m; LastUpdated := LastUpdated m; jobCtxCancellers := jobCtxCancellers m;
     errors := errors m; indexingWorkerSignal := indexingWorkerSignal m;
     copyingWorkerSignal := copyingWorkerSignal m; zippingWorkerSignal := zippingWorkerSignal m;
     stateFile := stateFile m; canceled := canceled m ++ [c] |}.

(** The three signal channels. *)
Inductive signalChan : Type := indexingSignal | copyingSignal | zippingSignal.

Definition set_signal (ch : signalChan) (b : bool) (m : archiveManager) :=
  {| Jobs := Jobs m; LastUpdated := LastUpdated m; jobCtxCancellers := jobCtxCancellers m;
     errors := errors m;
     indexingWorkerSignal := match ch with indexingSignal => b | _ => indexingWorkerSignal m end;
     copyingWorkerSignal := match ch with copyingSignal => b | _ => copyingWorkerSignal m end;
     zippingWorkerSignal := match ch with zippingSignal => b | _ => zippingWorkerSignal m end;
     stateFile := stateFile m; canceled := canceled m |}.

Definition get_signal (ch : signalChan) (m : archiveManager) : bool :=
  match ch with
  | indexingSignal => indexingWorkerSignal m
  | copyingSignal => copyingWorkerSignal m
  | zippingSignal => zippingWorkerSignal m
  end.

(** [m.signal(ch)]: a send that does not block; a token already waiting
    absorbs it. *)
Definition signal (ch : signalChan) : MM unit := modify (set_signal ch true).

(** [<-ch], when a token is waiting. *)
Definition receive (ch : signalChan) : MM unit := modify (set_signal ch false).

(** [flushStateFileLocked(ctx)]; [ctx_done] tells whether [ctx] is
    cancelled. *)
Definition flushStateFileLocked (ctx_done : bool) : MM unit :=
  if ctx_done then fail context_Canceled
  else modify (fun m => set_stateFile (Some (Jobs m)) m).

Definition flushStateFile (ctx_done : bool) : MM unit := flushStateFileLocked ctx_done.

(** [startJob]; [now] is [time.Now()]. *)
Definition startJob (ctx_done : bool) (now : Z) (job : SimpleFSArchiveJobDesc) : MM unit :=
  m <- get ;;
  match Jobs m !! JobID job with
  | Some _ => fail (errors_New "job ID already exists")
  | None =>
      modify (fun m =>
        set_Jobs (<[JobID job := {| Desc := job; Manifest := ∅; Phase := Queued;
                                    BytesTotal := 0; BytesCopied := 0; BytesZipped := 0 |}]>
                    (Jobs m)) m) ;;
      modify (set_LastUpdated now) ;;
      signal indexingSignal ;;
      flushStateFileLocked ctx_done
  end.

(** [cancelOrDismissJob]: the manager after the call and the staging path
    it removes. *)
Definition cancelOrDismissJob (jobID : string) : MM string :=
  m <- get ;;
  match jobCtxCancellers m !! jobID with
  | Some cancel =>
      modify (add_canceled cancel) ;;
      modify (fun m => set_jobCtxCancellers (delete jobID (jobCtxCancellers m)) m)
  | None => ret tt
  end ;;
  m <- get ;;
  match Jobs m !! jobID with
  | None => fail (errors_New "job not found")
  | Some job =>
      modify (fun m => set_Jobs (delete jobID (Jobs m)) m) ;;
      ret (StagingPath (Desc job))    (* os.RemoveAll(job.Desc.StagingPath) *)
  end.

(** [changeJobPhaseLocked] *)
Definition changeJobPhaseLocked (jobID : string) (newPhase : SimpleFSArchiveJobPhase) : MM unit :=
  m <- get ;;
  match Jobs m !! jobID with
  | None => ret tt   (* job not found. it might have been canceled *)
  | Some copy => modify (fun m => set_Jobs (<[jobID := set_Phase newPhase copy]> (Jobs m)) m)
  end.

Definition changeJobPhase (jobID : string) (newPhase : SimpleFSArchiveJobPhase) : MM unit :=
  changeJobPhaseLocked jobID newPhase.

(** [archiveErrorRetryDuration] *)
Definition archiveErrorRetryDuration : Z := time_Minute.

(** [setJobError]; [now] is [time.Now()]. *)
Definition setJobError (now : Z) (jobID : string) (e : error) : MM unit :=
  let nextRetry := time_Add now archiveErrorRetryDuration in
  modify (fun m => set_errors (<[jobID := {| err := e; nextRetry := nextRetry |}]> (errors m)) m).

(** [resetInterruptedPhaseLocked] *)
Definition resetInterruptedPhaseLocked (jobID : string) : MM bool :=
  m <- get ;;
  match Phase (default zero_job (Jobs m !! jobID)) with
  | Indexing => changeJobPhaseLocked jobID Queued ;; ret true
  | Copying => changeJobPhaseLocked jobID Indexed ;; ret true
  | Zipping => changeJobPhaseLocked jobID Copied ;; ret true
  | _ => ret false
  end.

(** A [for] loop over a slice whose body is [body]. *)
Fixpoint for_each {S E A : Type} (l : list A) (body : A -> M S E unit) : M S E unit :=
  match l with
  | [] => ret tt
  | x :: l' => body x ;; for_each l' body
  end.

Section Ranging.
Context {rg : GoRange}.

(** [startWorkerTask]; [cancel] cancels the job context the call makes. *)
Definition startWorkerTask (cancel : CancelFunc)
    (eligiblePhase newPhase : SimpleFSArchiveJobPhase) : MM (option string) :=
  m <- get ;;
  match List.find (fun kv => bool_decide (Phase kv.2 = eligiblePhase)) (range (Jobs m)) with
  | Some (jobID, _) =>
      changeJobPhaseLocked jobID newPhase ;;
      modify (fun m => set_jobCtxCancellers (<[jobID := cancel]> (jobCtxCancellers m)) m) ;;
      ret (Some jobID)
  | None => ret None
  end.

(** One tick of [errorRetryWorker]; [now] is [time.Now()]. The slice of
    job IDs is made with the length of the map and then appended to, so it
    starts with that many empty strings. *)
Definition errorRetryWorker_tick (now : Z) : MM unit :=
  m <- get ;;
  let jobIDs := repeat ""%string (size (Jobs m)) ++ map fst (range (Jobs m)) in
  for_each jobIDs (fun jobID =>
    m <- get ;;
    match errors m !! jobID with
    | None => ret tt
    | Some errState =>
        if time_Before now (nextRetry errState) then ret tt
        else
          changed <- resetInterruptedPhaseLocked jobID ;;
          if negb changed then ret tt   (* an error state but an unexpected job phase *)
          else
            modify (fun m => set_errors (delete jobID (errors m)) m) ;;
            signal indexingSignal ;;
            signal copyingSignal ;;
            signal zippingSignal
    end).

(** [resetInterruptedPhasesLocked] *)
Definition resetInterruptedPhasesLocked : MM unit :=
  m <- get ;;
  for_each (map fst (range (Jobs m))) (fun jobID =>
    _ <- resetInterruptedPhaseLocked jobID ;; ret tt).

(** [start], without the goroutines it spawns. *)
Definition start : MM unit :=
  signal indexingSignal ;; signal copyingSignal ;; signal zippingSignal.

(** [newArchiveManager]; [loaded] is what [loadArchiveStateFromJsonGz]
    returns: the jobs of the state file, or nothing on an error, and then
    an empty state file is written. When that write fails no manager is
    made; the manager returned otherwise is modelled. *)
Definition newArchiveManager (loaded : option (gmap string SimpleFSArchiveJobState))
  : archiveManager :=
  let m0 := {| Jobs := ∅; LastUpdated := 0; jobCtxCancellers := ∅; errors := ∅;
               indexingWorkerSignal := false; copyingWorkerSignal := false;
               zippingWorkerSignal := false; stateFile := loaded; canceled := [] |} in
  let m1 :=
    match loaded with
    | Some jobs => snd (resetInterruptedPhasesLocked (set_Jobs jobs m0))
    | None => set_stateFile (Some ∅) m0
    end in
  snd (start m1).
End Ranging.

(** A directory entry of [SimpleFSReadList]. *)
Record Dirent : Type := mkDirent {
  Name : string;
  dirent_type : DirentType;
  dirent_size : Z
}.

(** [doIndexing]; [listResult] is the outcome of listing the archived
    tree recursively (the calls [SimpleFSMakeOpid] to [SimpleFSReadList]). *)
Definition doIndexing (listResult : result error (list Dirent)) (jobID : string) : MM unit :=
  match listResult with
  | Failure e => fail e
  | Success entries =>
      let manifest :=
        fold_left (fun mf e =>
                     <[Name e := {| State := ToDo; DirentType_ := dirent_type e;
                                    Sha256SumHex := "" |}]> mf) entries ∅ in
      let bytesTotal :=
        fold_left (fun acc e =>
                     match dirent_type e with
                     | DirentType_FILE | DirentType_EXEC => int64_add acc (wrap64 (dirent_size e))
                     | _ => acc
                     end) entries 0 in
      m <- get ;;
      match Jobs m !! jobID with
      | None => ret tt   (* job not found. it might have been canceled *)
      | Some jobCopy =>
          modify (fun m =>
            set_Jobs (<[jobID := set_BytesTotal bytesTotal (set_Manifest manifest jobCopy)]>
                        (Jobs m)) m)
      end
  end.

(** *** The resumable copier *)

(** What the copying code runs in: the local file system, the job
    context, and the state [St] its progress callback updates. The job
    context is cancelled after [ctx] more polls ([None]: never). *)
Record World (St : Type) : Type := mkWorld {
  os : gmap string OS.node;
  ctx : option nat;
  user : St
}.
Arguments mkWorld {St} os ctx user.
Arguments os {St} w.
Arguments ctx {St} w.
Arguments user {St} w.

Definition set_os {St : Type} (fs : gmap string OS.node) (w : World St) : World St :=
  {| os := fs; ctx := ctx w; user := user w |}.
Definition set_user {St : Type} (u : St) (w : World St) : World St :=
  {| os := os w; ctx := ctx w; user := u |}.

(** [select { case <-ctx.Done(): ...; default: }] *)
Definition ctx_Done {St : Type} : M (World St) error bool :=
  fun w =>
    match ctx w with
    | None => (Success false, w)
    | Some O => (Success true, w)
    | Some (S k) => (Success false, {| os := os w; ctx := Some k; user := user w |})
    end.

(** A call into the [os] package. *)
Definition os_call {St A : Type} (c : M (gmap string OS.node) OS.errno A) : M (World St) error A :=
  fun w =>
    match c (os w) with
    | (Success a, fs) => (Success a, set_os fs w)
    | (Failure e, fs) => (Failure (os_error e), set_os fs w)
    end.

(** A locked region of the manager, or a progress callback. *)
Definition on_user {St : Type} (f : St -> St) : M (World St) error unit :=
  modify (fun w => set_user (f (user w)) w).

(** [return fmt.Errorf("site ... error: %v", err)] around a call. *)
Definition wrap_err {S A : Type} (site : string) (c : M S error A) : M S error A :=
  fun s =>
    match c s with
    | (Failure e, s') => (Failure (Errorf site e), s')
    | r => r
    end.

(** [io.Reader]. [Read r n] hands out at most [n] bytes, fewer only when
    the reader runs dry; [Remaining] counts the bytes left. *)
Class Reader (R : Type) : Type := {
  Read : R -> nat -> list Byte.byte * R;
  Remaining : R -> nat
}.

(** An open file of the archived source tree ([billy.File]): its bytes do
    not change, and reading them does not fail. *)
Record srcFile : Type := mkSrcFile {
  sf_data : list Byte.byte;
  sf_off : nat
}.

#[global] Instance srcFile_Reader : Reader srcFile := {|
  Read := fun r n =>
    let b := firstn n (skipn (sf_off r) (sf_data r)) in
    (b, {| sf_data := sf_data r; sf_off := (sf_off r + length b)%nat |});
  Remaining := fun r => (length (sf_data r) - sf_off r)%nat
|}.

(** [src.Seek(offset, io.SeekStart)] *)
Definition Seek (r : srcFile) (offset : Z) : result error srcFile :=
  if offset <? 0 then Failure (kbfs_error "Cannot seek to offset")
  else Success {| sf_data := sf_data r; sf_off := Z.to_nat offset |}.

(** [bytesUpdaterFunc] *)
Definition bytesUpdaterFunc (St : Type) : Type := Z -> St -> St.

(** The copier's chunk, [64*1024] bytes. *)
Definition chunkSize : nat := 64 * 1024.

Section Copier.
(** [crypto/sha256]: the digest of the bytes written to a hash. *)
Variable sha256_Sum : list Byte.byte -> list Byte.byte.
Context {St : Type}.

Definition CM (A : Type) : Type := M (World St) error A.

(** [sha256TeeReader]: [h] holds the bytes written to the hash so far. *)
Record sha256TeeReader : Type := mkTee {
  inner : srcFile;
  h : list Byte.byte
}.

(** [(r *sha256TeeReader) Read], through [io.TeeReader(r.inner, r.h)]. *)
#[global] Instance sha256TeeReader_Reader : Reader sha256TeeReader := {|
  Read := fun r n =>
    let '(b, inner') := Read (inner r) n in
    (b, {| inner := inner'; h := h r ++ b |});
  Remaining := fun r => Remaining (inner r)
|}.

Definition getSum (r : sha256TeeReader) : list Byte.byte := sha256_Sum (h r).

Definition newSHA256TeeReader (inner : srcFile) : sha256TeeReader :=
  {| inner := inner; h := [] |}.

(** [io.CopyN(to, from, n)]: the count written, whether it ended with
    [io.EOF] (fewer than [n] bytes were there), and the reader after. *)
Definition io_CopyN {R : Type} `{Reader R} (to : list Byte.byte -> CM unit) (from : R) (n : nat)
  : CM (nat * bool * R) :=
  let '(b, from') := Read from n in
  to b ;;
  ret (length b, negb (length b =? n)%nat, from').

(** [io.Copy(hasher, from)]: everything left in the reader. *)
Definition io_Copy_all {R : Type} `{Reader R} (from : R) : list Byte.byte * R :=
  Read from (Remaining from).

(** The loop of [ctxAwareCopy], with a bound on its iterations. *)
Fixpoint ctxAwareCopy_loop {R : Type} `{Reader R} (fuel : nat)
    (to : list Byte.byte -> CM unit) (from : R) (bytesUpdater : bytesUpdaterFunc St) : CM R :=
  match fuel with
  | O => fail out_of_fuel
  | S fuel' =>
      done <- ctx_Done ;;
      if (done : bool) then fail context_Canceled
      else
        r <- io_CopyN to from chunkSize ;;
        let '(n, eof, from') := r in
        on_user (bytesUpdater (Z.of_nat n)) ;;
        if (eof : bool) then ret from'
        else ctxAwareCopy_loop fuel' to from' bytesUpdater
  end.

(** [ctxAwareCopy]: returns the reader as the copy leaves it. Every
    iteration but the last moves a whole chunk, so one iteration per byte
    left and one more always suffice. *)
Definition ctxAwareCopy {R : Type} `{Reader R}
    (to : list Byte.byte -> CM unit) (from : R) (bytesUpdater : bytesUpdaterFunc St) : CM R :=
  ctxAwareCopy_loop (S (Remaining from)) to from bytesUpdater.

(** A node of the archived source tree ([srcDirFS]); for a symbolic link,
    whether following it stays inside the tree. *)
Inductive srcNode : Type :=
| SrcDir (mtime : Z)
| SrcSymlink (target : string) (resolves : bool)
| SrcFile (exec : bool) (mtime : Z) (data : list Byte.byte).

(** [srcDirFS.Open(entryPathWithinJob)] *)
Definition srcDirFS_Open (srcDirFS : gmap string srcNode) (entry : string) : CM srcFile :=
  match srcDirFS !! entry with
  | Some (SrcFile _ _ data) => ret {| sf_data := data; sf_off := 0 |}
  | Some _ => fail (Errorf "srcDirFS.Open" (kbfs_error "not a file"))
  | None => fail (Errorf "srcDirFS.Open" (kbfs_error "file does not exist"))
  end.

Definition lift_result {A : Type} (r : result error A) : CM A :=
  match r with
  | Success a => ret a
  | Failure e => fail e
  end.

(** [copyFileFromBeginning] *)
Definition copyFileFromBeginning (srcDirFS : gmap string srcNode)
    (entryPathWithinJob localPath : string) (mode : Z)
    (bytesCopiedUpdater : bytesUpdaterFunc St) : CM (list Byte.byte) :=
  src <- srcDirFS_Open srcDirFS entryPathWithinJob ;;
  wrap_err "os.OpenFile"
    (os_call (OS.OpenFile localPath (Z.lor OS.O_WRONLY (Z.lor OS.O_CREATE OS.O_TRUNC)) mode)) ;;
  let teeReader := newSHA256TeeReader src in
  teeReader <- wrap_err "io.CopyN"
    (ctxAwareCopy (fun b => os_call (OS.Write localPath b)) teeReader bytesCopiedUpdater) ;;
  (* We didn't continue from a previously interrupted copy, so don't
     bother verifying the sha256sum and just return it. *)
  ret (getSum teeReader).

(** [copyFilePickupPrevious] *)
Definition copyFilePickupPrevious (srcDirFS : gmap string srcNode)
    (entryPathWithinJob localPath : string) (srcSeekOffset : Z) (mode : Z)
    (bytesCopiedUpdater : bytesUpdaterFunc St) : CM (list Byte.byte) :=
  src <- srcDirFS_Open srcDirFS entryPathWithinJob ;;
  src <- wrap_err "src.Seek" (lift_result (Seek src srcSeekOffset)) ;;
  (* Copy the file. *)
  src <-
    (wrap_err "os.OpenFile"
       (os_call (OS.OpenFile localPath (Z.lor OS.O_APPEND (Z.lor OS.O_WRONLY OS.O_CREATE)) mode)) ;;
     wrap_err "io.CopyN"
       (ctxAwareCopy (fun b => os_call (OS.Write localPath b)) src bytesCopiedUpdater)) ;;
  (* Calculate sha256 and check the sha256 of the copied file since we
     continued from a previously interrupted copy. *)
  src <- wrap_err "src.Seek" (lift_result (Seek src 0)) ;;
  let '(srcBytes, src) := io_Copy_all src in
  let size := Z.of_nat (length srcBytes) in
  let srcSHA256Sum := sha256_Sum srcBytes in
  dstBytes <- wrap_err "os.Open" (os_call (OS.ReadFile localPath)) ;;
  let dstSHA256Sum := sha256_Sum dstBytes in
  if negb (bytes_Equal srcSHA256Sum dstSHA256Sum) then
    (* file corruption is detected from a previous copy. Will copy from
       the beginning *)
    on_user (bytesCopiedUpdater (- size)) ;;
    copyFileFromBeginning srcDirFS entryPathWithinJob localPath mode bytesCopiedUpdater
  else ret srcSHA256Sum.

(** [copyFile] *)
Definition copyFile (srcDirFS : gmap string srcNode)
    (entryPathWithinJob localPath : string) (srcSeekOffset : Z) (mode : Z)
    (bytesCopiedUpdater : bytesUpdaterFunc St) : CM (list Byte.byte) :=
  if srcSeekOffset =? 0
  then copyFileFromBeginning srcDirFS entryPathWithinJob localPath mode bytesCopiedUpdater
  else copyFilePickupPrevious srcDirFS entryPathWithinJob localPath srcSeekOffset mode
         bytesCopiedUpdater.

End Copier.

(** The arguments the progress callback gets while [n] bytes are copied:
    the size of every chunk moved, the short (maybe empty) last one
    included. *)
Fixpoint chunk_sizes_fuel (fuel n : nat) : list Z :=
  match fuel with
  | O => []
  | S fuel' =>
      if (n <? chunkSize)%nat then [Z.of_nat n]
      else Z.of_nat chunkSize :: chunk_sizes_fuel fuel' (n - chunkSize)
  end.

Definition chunk_sizes (n : nat) : list Z := chunk_sizes_fuel (S n) n.

(** The progress callback called with each of [ds] in turn. *)
Definition apply_deltas {St : Type} (upd : bytesUpdaterFunc St) (ds : list Z) (u : St) : St :=
  fold_left (fun u d => upd d u) ds u.

(** What a run of the copy loop leaves, for a reader on the source and a
    writer that appends to a local file. *)
Inductive copy_outcome {St R : Type} (r : result error R * World St) (final : R)
    (fs : gmap string OS.node) (u : St) (w : World St) : Prop :=
| copy_canceled e w' :
    r = (Failure e, w') -> fuel_error e = false -> ctx w <> None ->
    copy_outcome r final fs u w
| copy_done c' :
    r = (Success final, {| os := fs; ctx := c'; user := u |}) ->
    (ctx w = None -> c' = None) -> copy_outcome r final fs u w.

(** The two readers the copier uses: the bytes a reader has yet to hand
    out, and the reader after it has handed out [b]. *)
Definition src_pending (r : srcFile) : list Byte.byte := skipn (sf_off r) (sf_data r).
Definition src_advance (r : srcFile) (b : list Byte.byte) : srcFile :=
  {| sf_data := sf_data r; sf_off := (sf_off r + length b)%nat |}.
Definition tee_advance (r : sha256TeeReader) (b : list Byte.byte) : sha256TeeReader :=
  {| inner := src_advance (inner r) b; h := h r ++ b |}.

(** *** The stage workers *)

(** [hex.EncodeToString] *)
Definition hex_digit (n : N) : ascii :=
  match n with
  | 0%N => "0" | 1%N => "1" | 2%N => "2" | 3%N => "3" | 4%N => "4" | 5%N => "5"
  | 6%N => "6" | 7%N => "7" | 8%N => "8" | 9%N => "9" | 10%N => "a" | 11%N => "b"
  | 12%N => "c" | 13%N => "d" | 14%N => "e" | _ => "f"
  end%char.

Fixpoint hex_EncodeToString (b : list Byte.byte) : string :=
  match b with
  | [] => ""
  | x :: b' =>
      let n := Strings.Byte.to_N x in
      String (hex_digit (n / 16)) (String (hex_digit (n mod 16)) (hex_EncodeToString b'))
  end.

(** [getWorkspaceDir] *)
Definition getWorkspaceDir (jobDesc : SimpleFSArchiveJobDesc) : string :=
  OS.Join (StagingPath jobDesc) "workspace".

Definition set_State (st : SimpleFSFileArchiveState) (f : SimpleFSArchiveFile) :=
  {| State := st; DirentType_ := DirentType_ f; Sha256SumHex := Sha256SumHex f |}.
Definition set_Sha256SumHex (hx : string) (f : SimpleFSArchiveFile) :=
  {| State := State f; DirentType_ := DirentType_ f; Sha256SumHex := hx |}.

(** The zero value of [keybase1.SimpleFSArchiveFile]. *)
Definition zero_file : SimpleFSArchiveFile :=
  {| State := ToDo; DirentType_ := DirentType_FILE; Sha256SumHex := "" |}.

(** [updateManifest] of [doCopying]: the entries of the worker's copy
    override the job's. Writing into the nil manifest of a job that is gone
    panics; a job that is there with a nil manifest is not told apart from
    one with an empty manifest. *)
Definition updateManifest (jobID : string) (manifest : gmap string SimpleFSArchiveFile)
  : MM unit :=
  m <- get ;;
  match Jobs m !! jobID with
  | Some job =>
      modify (fun m => set_Jobs (<[jobID := set_Manifest (manifest ∪ Manifest job) job]> (Jobs m)) m)
  | None =>
      match map_to_list manifest with
      | [] => modify (fun m => set_Jobs (<[jobID := zero_job]> (Jobs m)) m)
      | _ => fail (panic "assignment to entry in nil map")
      end
  end.

(** [updateBytesCopied] of [doCopying] *)
Definition updateBytesCopied (jobID : string) : bytesUpdaterFunc archiveManager :=
  fun delta m =>
    let job := default zero_job (Jobs m !! jobID) in
    set_Jobs (<[jobID := set_BytesCopied (int64_add (BytesCopied job) delta) job]> (Jobs m)) m.

(** [updateBytesZipped] of [doZipping] *)
Definition updateBytesZipped (jobID : string) : bytesUpdaterFunc archiveManager :=
  fun delta m =>
    let job := default zero_job (Jobs m !! jobID) in
    set_Jobs (<[jobID := set_BytesZipped (int64_add (BytesZipped job) delta) job]> (Jobs m)) m.

(** A locked region of the manager inside a worker. *)
Definition locked {A : Type} (c : MM A) : M (World archiveManager) error A :=
  lift user set_user c.

(** [cancelOrDismissJob] as a whole: the locked region, then the removal
    of the job's staging path, whose error is logged. *)
Definition cancelOrDismissJob_fs (jobID : string) : M (World archiveManager) error unit :=
  stagingPath <- locked (cancelOrDismissJob jobID) ;;
  _ <- try (os_call (OS.RemoveAll stagingPath)) ;;
  ret tt.

Section Workers.
Variable sha256_Sum : list Byte.byte -> list Byte.byte.
(** What [archive/zip] writes for the entries added. *)
Variable zip_encode : list (string * OS.node) -> list Byte.byte.
Context {rg : GoRange} {srt : GoSort}.

(** The loop [loopEntryPaths] of [doCopying]; [manifest] is the worker's
    copy of the manifest. *)
Fixpoint loopEntryPaths (srcDirFS : gmap string srcNode) (jobID dstBase : string)
    (entryPaths : list string) (manifest : gmap string SimpleFSArchiveFile)
  : M (World archiveManager) error unit :=
  match entryPaths with
  | [] => ret tt
  | entryPathWithinJob :: rest =>
      let entry := default zero_file (manifest !! entryPathWithinJob) in
      let entry := set_State InProgress entry in
      let manifest := <[entryPathWithinJob := entry]> manifest in
      locked (updateManifest jobID manifest) ;;
      let localPath := OS.Join dstBase entryPathWithinJob in
      match srcDirFS !! entryPathWithinJob with
      | None => fail (Errorf "srcDirFS.LStat" (kbfs_error "file does not exist"))
      | Some (SrcDir mtime) =>
          wrap_err "os.MkdirAll" (os_call (OS.MkdirAll localPath 493 (* 0755 *))) ;;
          wrap_err "os.Chtimes" (os_call (OS.Chtimes localPath mtime)) ;;
          let entry := set_State Complete entry in
          let manifest := <[entryPathWithinJob := entry]> manifest in
          locked (updateManifest jobID manifest) ;;
          loopEntryPaths srcDirFS jobID dstBase rest manifest
      | Some (SrcSymlink link resolves) =>
          wrap_err "os.MkdirAll" (os_call (OS.MkdirAll (OS.filepath_Dir localPath) 493)) ;;
          (* Call Stat, which follows symlinks, to make sure the link
             doesn't escape outside the srcDirFS. *)
          if negb resolves then
            let entry := set_State Skipped entry in
            let manifest := <[entryPathWithinJob := entry]> manifest in
            loopEntryPaths srcDirFS jobID dstBase rest manifest   (* continue loopEntryPaths *)
          else
            wrap_err "os.Symlink" (os_call (OS.MkSymlink link localPath)) ;;
            let entry := set_State Complete entry in
            let manifest := <[entryPathWithinJob := entry]> manifest in
            locked (updateManifest jobID manifest) ;;
            loopEntryPaths srcDirFS jobID dstBase rest manifest
      | Some (SrcFile exec mtime _) =>
          wrap_err "os.MkdirAll" (os_call (OS.MkdirAll (OS.filepath_Dir localPath) 493)) ;;
          let mode := if (exec : bool) then 493 (* 0755 *) else 420 (* 0644 *) in
          w <- get ;;
          let seek :=
            match os w !! localPath with
            | None => 0                  (* simple copy from the start of file *)
            | Some dstFI => OS.Size dstFI  (* continue from a previously interrupted copy *)
            end in
          sha256Sum <- copyFile sha256_Sum srcDirFS entryPathWithinJob localPath seek mode
                         (updateBytesCopied jobID) ;;
          wrap_err "os.Chtimes" (os_call (OS.Chtimes localPath mtime)) ;;
          let entry := set_Sha256SumHex (hex_EncodeToString sha256Sum) entry in
          let entry := set_State Complete entry in
          let manifest := <[entryPathWithinJob := entry]> manifest in
          locked (updateManifest jobID manifest) ;;
          loopEntryPaths srcDirFS jobID dstBase rest manifest
      end
  end.

(** [doCopying]; [src] is the outcome of resolving the archived tree the
    job names ([getFSIfExists] and [Chroot]). *)
Definition doCopying (src : result error (gmap string srcNode)) (jobID : string)
  : M (World archiveManager) error unit :=
  w <- get ;;
  let job := default zero_job (Jobs (user w) !! jobID) in
  let desc := Desc job in
  let manifest := Manifest job in
  srcDirFS <- wrap_err "getFSIfExists" (lift_result src) ;;
  let dstBase := OS.Join (getWorkspaceDir desc) (TargetName desc) in
  let entryPaths := sort_Sort String.ltb (map fst (range manifest)) in
  loopEntryPaths srcDirFS jobID dstBase entryPaths manifest.

(** What [fs.WalkDir] hands to the callback of [zipWriterAddDir] and is
    not a directory: the entries below [dirPath], in the order of their
    paths. *)
Definition walk_files (dirPath : string) (fs : gmap string OS.node) : list (string * OS.node) :=
  let below := filter (fun kv => OS.under dirPath kv.1 = true) (range fs) in
  let walked := sort_Sort (fun a b => String.ltb a.1 b.1) below in
  filter (fun kv => OS.IsDir kv.2 = false) walked.

(** [zipWriterAddDir]: the entries added. The error of the copy of a
    file's bytes is dropped, as the code drops it. *)
Definition zipWriterAddDir (dirPath : string)
    (bytesZippedUpdater : bytesUpdaterFunc archiveManager)
  : M (World archiveManager) error (list (string * OS.node)) :=
  w <- get ;;
  match os w !! dirPath with
  | Some (OS.Dir _) =>
      let added := walk_files dirPath (os w) in
      for_each added (fun kv =>
        match kv.2 with
        | OS.File _ _ data =>
            _ <- try (ctxAwareCopy (fun _ => ret tt) {| sf_data := data; sf_off := 0 |}
                        bytesZippedUpdater) ;;
            ret tt
        | _ => ret tt
        end) ;;
      ret added
  | Some _ => fail (os_error OS.ENOTDIR)
  | None => fail (os_error OS.ENOENT)
  end.

(** [doZipping] *)
Definition doZipping (jobID : string) : M (World archiveManager) error unit :=
  w <- get ;;
  let jobDesc := Desc (default zero_job (Jobs (user w) !! jobID)) in
  (* Reset BytesZipped. *)
  on_user (fun m =>
    let job := default zero_job (Jobs m !! jobID) in
    set_Jobs (<[jobID := set_BytesZipped 0 job]> (Jobs m)) m) ;;
  let workspaceDir := getWorkspaceDir jobDesc in
  (let mode :=
     if OverwriteZip jobDesc
     then Z.lor OS.O_WRONLY (Z.lor OS.O_CREATE OS.O_TRUNC)
     else Z.lor OS.O_WRONLY (Z.lor OS.O_CREATE OS.O_EXCL) in
   wrap_err "os.Create" (os_call (OS.OpenFile (ZipFilePath jobDesc) mode 438 (* 0666 *))) ;;
   outcome <- try (zipWriterAddDir workspaceDir (updateBytesZipped jobID)) ;;
   match outcome with
   | Success added =>
       (* the deferred zipWriter.Close() and zipFile.Close() *)
       os_call (OS.Write (ZipFilePath jobDesc) (zip_encode added))
   | Failure e =>
       (* the walk failed at its root: the deferred calls close an archive
          with no entry, and their errors are dropped *)
       _ <- try (os_call (OS.Write (ZipFilePath jobDesc) (zip_encode []))) ;;
       fail (Errorf "zipWriter.AddFS" e)
   end) ;;
  (* Remove the workspace so we release the storage space early on before
     user dismisses the job. *)
  _ <- try (os_call (OS.RemoveAll workspaceDir)) ;;
  ret tt.

(** One round of a stage worker's loop, from the token it has received to
    the flush: claim a job in [eligible], work on it, and record the
    outcome. [cancel] cancels the job context made for the round and [now]
    is the clock at a failure. *)
Definition worker_round (own : signalChan) (next : option signalChan)
    (eligible working completed : SimpleFSArchiveJobPhase)
    (work : string -> M (World archiveManager) error unit)
    (cancel : CancelFunc) (now : Z) : M (World archiveManager) error unit :=
  locked (receive own) ;;
  claimed <- locked (startWorkerTask cancel eligible working) ;;
  match claimed with
  | None => ret tt   (* continue *)
  | Some jobID =>
      (* We got a task. Put another token into the signal channel so we
         check again on the next iteration. *)
      locked (signal own) ;;
      outcome <- try (work jobID) ;;
      match outcome with
      | Success _ =>
          locked (changeJobPhase jobID completed) ;;
          match next with
          | Some ch => locked (signal ch)
          | None => ret tt
          end
      | Failure e => locked (setJobError now jobID e)
      end ;;
      _ <- try (locked (flushStateFile false)) ;;
      ret tt
  end.

(** [indexingWorker], one round. *)
Definition indexingWorker (listResult : result error (list Dirent))
  : CancelFunc -> Z -> M (World archiveManager) error unit :=
  worker_round indexingSignal (Some copyingSignal) Queued Indexing Indexed
    (fun jobID => locked (doIndexing listResult jobID)).

(** [copyingWorker], one round. *)
Definition copyingWorker (src : result error (gmap string srcNode))
  : CancelFunc -> Z -> M (World archiveManager) error unit :=
  worker_round copyingSignal (Some zippingSignal) Indexed Copying Copied (doCopying src).

(** [zippingWorker], one round. *)
Definition zippingWorker : CancelFunc -> Z -> M (World archiveManager) error unit :=
  worker_round zippingSignal None Copied Zipping Done doZipping.

(** The three stages of the pipeline, each with what its worker is
    given for the round. *)
Inductive stage : Type :=
| IndexingStage (listResult : result error (list Dirent))
| CopyingStage (src : result error (gmap string srcNode))
| ZippingStage.

Definition stage_signal (s : stage) : signalChan :=
  match s with
  | IndexingStage _ => indexingSignal
  | CopyingStage _ => copyingSignal
  | ZippingStage => zippingSignal
  end.

Definition stage_eligible (s : stage) : SimpleFSArchiveJobPhase :=
  match s with
  | IndexingStage _ => Queued
  | CopyingStage _ => Indexed
  | ZippingStage => Copied
  end.

Definition stage_working (s : stage) : SimpleFSArchiveJobPhase :=
  match s with
  | IndexingStage _ => Indexing
  | CopyingStage _ => Copying
  | ZippingStage => Zipping
  end.

Definition stage_work (s : stage) : string -> M (World archiveManager) error unit :=
  match s with
  | IndexingStage listResult => fun jobID => locked (doIndexing listResult jobID)
  | CopyingStage src => doCopying src
  | ZippingStage => doZipping
  end.

Definition stage_worker (s : stage) : CancelFunc -> Z -> M (World archiveManager) error unit :=
  match s with
  | IndexingStage listResult => indexingWorker listResult
  | CopyingStage src => copyingWorker src
  | ZippingStage => zippingWorker
  end.

End Workers.

(** The phase a stage leaves a job in when its work is done, and the
    worker it then signals. *)
Definition stage_completed (s : stage) : SimpleFSArchiveJobPhase :=
  match s with
  | IndexingStage _ => Indexed
  | CopyingStage _ => Copied
  | ZippingStage => Done
  end.

Definition stage_next (s : stage) : option signalChan :=
  match s with
  | IndexingStage _ => Some copyingSignal
  | CopyingStage _ => Some zippingSignal
  | ZippingStage => None
  end.

(** *** What the properties of the workers speak of *)

(** The sum of the arguments a progress callback was called with. *)
Definition sum_Z (ds : list Z) : Z := fold_right Z.add 0 ds.

(** The manifest entry [doIndexing] makes for a directory entry. *)
Definition indexed_file (e : Dirent) : SimpleFSArchiveFile :=
  {| State := ToDo; DirentType_ := dirent_type e; Sha256SumHex := "" |}.

(** The sizes of the entries that count for [BytesTotal]: regular and
    executable files. *)
Definition file_bytes (entries : list Dirent) : list Z :=
  flat_map (fun e => match dirent_type e with
                     | DirentType_FILE | DirentType_EXEC => [dirent_size e]
                     | _ => []
                     end) entries.




(** *** The manager as a transition system

    Every region of the code that holds the manager's mutex is one step;
    the workers and the callers of the manager interleave them in any
    order. *)
Inductive step : archiveManager -> archiveManager -> Prop :=
| step_startJob ctx_done now desc m :
    step m (snd (startJob ctx_done now desc m))
| step_cancelOrDismissJob jobID m :
    step m (snd (cancelOrDismissJob jobID m))
| step_startWorkerTask_indexing (rg : GoRange) cancel m :
    step m (snd (startWorkerTask cancel Queued Indexing m))
| step_startWorkerTask_copying (rg : GoRange) cancel m :
    step m (snd (startWorkerTask cancel Indexed Copying m))
| step_startWorkerTask_zipping (rg : GoRange) cancel m :
    step m (snd (startWorkerTask cancel Copied Zipping m))
| step_indexing_done jobID m :
    step m (snd (changeJobPhase jobID Indexed m))
| step_copying_done jobID m :
    step m (snd (changeJobPhase jobID Copied m))
| step_zipping_done jobID m :
    step m (snd (changeJobPhase jobID Done m))
| step_setJobError now jobID e m :
    step m (snd (setJobError now jobID e m))
| step_errorRetryWorker (rg : GoRange) now m :
    step m (snd (errorRetryWorker_tick now m))
| step_doIndexing listResult jobID m :
    step m (snd (doIndexing listResult jobID m))
| step_updateManifest jobID manifest m :
    step m (snd (updateManifest jobID manifest m))
| step_updateBytesCopied jobID delta m :
    step m (updateBytesCopied jobID delta m)
| step_resetBytesZipped jobID m :
    step m (set_Jobs (<[jobID := set_BytesZipped 0 (default zero_job (Jobs m !! jobID))]> (Jobs m)) m)
| step_updateBytesZipped jobID delta m :
    step m (updateBytesZipped jobID delta m)
| step_signal ch m :
    step m (snd (signal ch m))
| step_receive ch m :
    step m (snd (receive ch m))
| step_flushStateFile ctx_done m :
    step m (snd (flushStateFile ctx_done m)).

(** The states the manager can be in: those the steps lead to from a
    manager [newArchiveManager] has made. *)
Inductive reachable : archiveManager -> Prop :=
| reachable_new (rg : GoRange) loaded : reachable (newArchiveManager loaded)
| reachable_step m m' : reachable m -> step m m' -> reachable m'.

(** The phases in which a worker is working on the job. *)
Definition working_phase (p : SimpleFSArchiveJobPhase) : bool :=
  match p with
  | Indexing | Copying | Zipping => true
  | _ => false
  end.

(** The phase from which a job in a working phase is picked up again:
    Indexing to Queued, Copying to Indexed, Zipping to Copied. *)
Definition reverted_phase (p : SimpleFSArchiveJobPhase) : SimpleFSArchiveJobPhase :=
  match p with
  | Indexing => Queued
  | Copying => Indexed
  | Zipping => Copied
  | p => p
  end.

(** What the body of the retry worker's loop does for one job ID, as a
    function of the manager. *)
Definition retry_one (now : Z) (jobID : string) (m : archiveManager) : archiveManager :=
  match errors m !! jobID with
  | None => m
  | Some errState =>
      if time_Before now (nextRetry errState) then m
      else
        match Jobs m !! jobID with
        | Some job =>
            if working_phase (Phase job) then
              set_signal zippingSignal true (set_signal copyingSignal true
                (set_signal indexingSignal true
                   (set_errors (delete jobID (errors m))
                      (set_Jobs (<[jobID := set_Phase (reverted_phase (Phase job)) job]>
                                   (Jobs m)) m))))
            else m
        | None => m
        end
  end.

(** The job's retry is done: its phase is reverted, its error record is
    gone, and the three signals are raised. *)
Definition retried (jobID : string) (job : SimpleFSArchiveJobState) (m : archiveManager) : Prop :=
  Jobs m !! jobID = Some (set_Phase (reverted_phase (Phase job)) job) /\
  errors m !! jobID = None /\
  indexingWorkerSignal m = true /\ copyingWorkerSignal m = true /\
  zippingWorkerSignal m = true.

(** The job's retry is pending: the job and its error record are as they
    were. *)
Definition pending_retry (jobID : string) (job : SimpleFSArchiveJobState) (es : errorState)
    (m : archiveManager) : Prop :=
  Jobs m !! jobID = Some job /\ errors m !! jobID = Some es.

(** Every job in a working phase has a cancel function registered. *)
Definition working_has_canceller (m : archiveManager) : Prop :=
  forall jobID job,
    Jobs m !! jobID = Some job -> working_phase (Phase job) = true ->
    is_Some (jobCtxCancellers m !! jobID).

(** No job at [jobID] is left in a working phase. *)
Definition not_working (jobID : string) (m : archiveManager) : Prop :=
  forall job, Jobs m !! jobID = Some job -> working_phase (Phase job) = false.

(** [c] keeps the property [I] of the state the progress callbacks and
    the locked regions act on. *)
Definition preserves {St A : Type} (I : St -> Prop) (c : M (World St) error A) : Prop :=
  forall w, I (user w) -> I (user (snd (c w))).

(** The job is in phase [ph]. *)
Definition in_phase (jobID : string) (ph : SimpleFSArchiveJobPhase) (m : archiveManager) : Prop :=
  Phase <$> (Jobs m !! jobID) = Some ph.


(** [c] keeps the property [P] of the local file system. *)
Definition preserves_fs {St A : Type} (P : gmap string OS.node -> Prop)
    (c : M (World St) error A) : Prop :=
  forall w, P (os w) -> P (os (snd (c w))).

(** The manifest of the job records [v] for the entry. *)
Definition recorded (jobID entry : string) (v : SimpleFSArchiveFile) (m : archiveManager)
  : Prop :=
  exists job, Jobs m !! jobID = Some job /\ Manifest job !! entry = Some v.


End SimpleFS.

(** ** Concrete data for the examples *)

Module Examples.
Import Chat.

Definition job (id : string) (at_ : Z) (st : ArchiveChatJobStatus) : ArchiveChatJob :=
  {| Request := {| JobID := id; OutputPath := ("/out/" ++ id)%string; Compress := false |};
     StartedAt := at_; Status := st; Err := ""; MessagesTotal := 10;
     MessagesComplete := 4; Checkpoints := ∅ |}.

(** What the executor of job "run" returns when cancelled. *)
Definition run_cancel : CancelArchiveFn :=
  {| cancel_returns :=
       {| Request := {| JobID := "run"; OutputPath := "/out/run"; Compress := false |};
          StartedAt := 5; Status := RUNNING; Err := ""; MessagesTotal := 10;
          MessagesComplete := 7; Checkpoints := ∅ |} |}.

(** A started registry: "done" is complete, "run" is running with its
    handle, "orphan" is recorded as running but has no handle (as after a
    restart), "held" is paused. *)
Definition registry : ChatArchiveRegistry :=
  {| started := true; inited := true; dirty := false;
     runningJobs := {[ "run"%string := Some run_cancel ]};
     edb := {| edb_fails := false; edb_stored := None |};
     jobHistory :=
       <[ "run"%string := job "run" 5 RUNNING ]>
       (<[ "done"%string := job "done" 5 COMPLETE ]>
       (<[ "orphan"%string := job "orphan" 9 RUNNING ]>
       (<[ "held"%string := job "held" 1 PAUSED ]> ∅)));
     effects := [] |}.

(** An archived tree with one file, "hello world". *)
Definition src_tree : gmap string SimpleFS.srcNode :=
  {[ "a.txt"%string := SimpleFS.SrcFile false 7 (list_byte_of_string "hello world") ]}.

(** A world where an earlier copy left [d] at the destination, and a
    progress callback that logs its arguments. *)
Definition copy_world (d : string) : SimpleFS.World (list Z) :=
  {| SimpleFS.os := {[ "/stage/workspace/t/a.txt"%string := OS.File 420 0 (list_byte_of_string d) ]};
     SimpleFS.ctx := None;
     SimpleFS.user := [] |}.

Definition log_delta : SimpleFS.bytesUpdaterFunc (list Z) := fun delta l => l ++ [delta].


(** A manager freshly made, with one job queued. *)
Definition desc5 : SimpleFS.SimpleFSArchiveJobDesc :=
  {| SimpleFS.JobID := "j5"; SimpleFS.StagingPath := "/stage"; SimpleFS.TargetName := "t";
     SimpleFS.ZipFilePath := "/out/j5.zip"; SimpleFS.OverwriteZip := false |}.

Definition manager0 : SimpleFS.archiveManager :=
  snd (SimpleFS.startJob false 100 desc5 (SimpleFS.newArchiveManager None)).

Definition world_of (m : SimpleFS.archiveManager) (fs : gmap string OS.node)
  : SimpleFS.World SimpleFS.archiveManager :=
  {| SimpleFS.os := fs; SimpleFS.ctx := None; SimpleFS.user := m |}.

Definition io_error : SimpleFS.error := SimpleFS.kbfs_error "input/output error".

(** The manager after an indexing round that failed at clock 1000, and
    after one that succeeded. *)
Definition manager_failed : SimpleFS.archiveManager :=
  SimpleFS.user (snd (SimpleFS.indexingWorker (Failure io_error) 1%nat 1000 (world_of manager0 ∅))).

Definition listing : list SimpleFS.Dirent :=
  [ {| SimpleFS.Name := "a.txt"; SimpleFS.dirent_type := SimpleFS.DirentType_FILE;
       SimpleFS.dirent_size := 11 |} ].

Definition manager_indexed : SimpleFS.archiveManager :=
  SimpleFS.user (snd (SimpleFS.indexingWorker (Success listing) 1%nat 1000 (world_of manager0 ∅))).

(** The indexed job about to be copied, with what an interrupted copy
    left of "a.txt" in its workspace. *)
Definition copying_world (d : string) : SimpleFS.World SimpleFS.archiveManager :=
  world_of manager_indexed (SimpleFS.os (copy_world d)).

(** The manager once the indexing worker has claimed the job. *)
Definition manager_claimed : SimpleFS.archiveManager :=
  snd (SimpleFS.startWorkerTask 1%nat SimpleFS.Queued SimpleFS.Indexing manager0).

(** A job copied to its workspace, with a zip file already at the target,
    and encoders that stand for [archive/zip] and [archive/tar] with
    [compress/gzip]. *)
Definition zip_encode (added : list (string * OS.node)) : list Byte.byte :=
  list_byte_of_string "PK" ++ flat_map (fun kv => list_byte_of_string kv.1) added.

Definition staged_fs : gmap string OS.node :=
  <[ "/out/j5.zip"%string := OS.File 438 0 (list_byte_of_string "old archive") ]>
  (<[ "/stage/workspace"%string := OS.Dir 0 ]>
  (<[ "/stage/workspace/t"%string := OS.Dir 0 ]>
  (<[ "/stage/workspace/t/a.txt"%string := OS.File 420 7 (list_byte_of_string "hello world") ]> ∅))).







(** A registry whose job "bg" was paused when the service went to the
    background; "held" was paused by the user. *)
Definition bg_registry : Chat.ChatArchiveRegistry :=
  {| Chat.started := true; Chat.inited := true; Chat.dirty := false;
     Chat.runningJobs := ∅;
     Chat.edb := {| Chat.edb_fails := false; Chat.edb_stored := None |};
     Chat.jobHistory :=
       <[ "bg"%string := Examples.job "bg" 5 Chat.BACKGROUND_PAUSED ]>
       (<[ "done"%string := Examples.job "done" 5 Chat.COMPLETE ]>
       (<[ "held"%string := Examples.job "held" 1 Chat.PAUSED ]> ∅));
     Chat.effects := [] |}.

(** The workspace of job "j5" before anything was copied to it, and a
    world over it whose job context is never cancelled ([None]) or is found
    cancelled once it has been asked [n] times ([Some n]). *)
Definition workspace_fs : gmap string OS.node :=
  <[ "/stage"%string := OS.Dir 0 ]>
  (<[ "/stage/workspace"%string := OS.Dir 0 ]>
  (<[ "/stage/workspace/t"%string := OS.Dir 0 ]> ∅)).

Definition workspace_world (c : option nat) : SimpleFS.World (list Z) :=
  {| SimpleFS.os := workspace_fs; SimpleFS.ctx := c; SimpleFS.user := [] |}.



End Examples.

(* ===================================================================== *)
(** * Part II: properties                                                 *)
(* ===================================================================== *)

(** ** Running the monad *)

Lemma bind_success {S E A B : Type} (c : M S E A) (k : A -> M S E B) s a s' :
  c s = (Success a, s') -> bind c k s = k a s'.
Proof. intros Hc. unfold bind. rewrite Hc. reflexivity. Qed.

Lemma bind_failure {S E A B : Type} (c : M S E A) (k : A -> M S E B) s e s' :
  c s = (Failure e, s') -> bind c k s = (Failure e, s').
Proof. intros Hc. unfold bind. rewrite Hc. reflexivity. Qed.

Lemma bind_get {S E B : Type} (k : S -> M S E B) s : bind get k s = k s s.
Proof. reflexivity. Qed.

Lemma bind_modify {S E B : Type} (f : S -> S) (k : unit -> M S E B) s :
  bind (modify f) k s = k tt (f s).
Proof. reflexivity. Qed.

Lemma bind_ret {S E A B : Type} (a : A) (k : A -> M S E B) s : bind (ret a) k s = k a s.
Proof. reflexivity. Qed.

Lemma bind_inv {S E A B : Type} (c : M S E A) (k : A -> M S E B) s r s' :
  bind c k s = (Success r, s') ->
  exists a s1, c s = (Success a, s1) /\ k a s1 = (Success r, s').
Proof.
  unfold bind. destruct (c s) as [[a | e] s1]; [eauto | discriminate].
Qed.

Section MapUtilProperties.
Import MapUtil.
Context {K : Type} `{Countable K}.

Lemma mapGetEnsureValue_absent (map : gmap K jsval) key def :
  map !! key = None ->
  mapGetEnsureValue map key def = (def, <[key := def]> map).
Proof.
  intros Hnone. unfold mapGetEnsureValue, Map_get, Map_set.
  rewrite Hnone. reflexivity.
Qed.

Lemma mapGetEnsureValue_undefined (map : gmap K jsval) key def :
  map !! key = Some JSUndefined ->
  mapGetEnsureValue map key def = (def, <[key := def]> map).
Proof.
  intros Hsome. unfold mapGetEnsureValue, Map_get, Map_set.
  rewrite Hsome. reflexivity.
Qed.

Lemma mapGetEnsureValue_present (map : gmap K jsval) key def v :
  map !! key = Some v -> v <> JSUndefined ->
  mapGetEnsureValue map key def = (v, map).
Proof.
  intros Hsome Hv. unfold mapGetEnsureValue, Map_get.
  rewrite Hsome. simpl. destruct v; try reflexivity. congruence.
Qed.

Lemma mapGetEnsureValue_ensures (map : gmap K jsval) key def :
  snd (mapGetEnsureValue map key def) !! key
  = Some (fst (mapGetEnsureValue map key def)).
Proof.
  unfold mapGetEnsureValue, Map_get, Map_set.
  destruct (map !! key) as [v|] eqn:Hk; simpl.
  - destruct (is_undefined v); simpl.
    + apply lookup_insert_eq.
    + exact Hk.
  - apply lookup_insert_eq.
Qed.
End MapUtilProperties.

(** C9 as stated, refuted: a key stored with the value [undefined] is
    present, yet the call returns the default instead of the stored value
    and overwrites the entry. *)
Lemma C9_stored_undefined_is_replaced :
  let map : gmap string MapUtil.jsval := {[ "a"%string := MapUtil.JSUndefined ]} in
  MapUtil.Map_has map "a"%string = true /\
  map !! "a"%string = Some MapUtil.JSUndefined /\
  fst (MapUtil.mapGetEnsureValue map "a"%string (MapUtil.JSNum 1)) <> MapUtil.JSUndefined /\
  snd (MapUtil.mapGetEnsureValue map "a"%string (MapUtil.JSNum 1)) <> map.
Proof.
  cbv zeta. split; [| split; [| split]].
  - vm_compute. reflexivity.
  - vm_compute. reflexivity.
  - vm_compute. discriminate.
  - intros Heq.
    assert (Hl : snd (MapUtil.mapGetEnsureValue
                        ({[ "a"%string := MapUtil.JSUndefined ]} : gmap string MapUtil.jsval)
                        "a"%string (MapUtil.JSNum 1)) !! "a"%string
                 = Some MapUtil.JSUndefined).
    { rewrite Heq. vm_compute. reflexivity. }
    vm_compute in Hl. discriminate.
Qed.

(** C9 (amended): for every map, key and default, [mapGetEnsureValue]
    returns the stored value and leaves the map unchanged when the key is
    present with a value other than [undefined]; when the key is absent, or
    present with the value [undefined], it stores the default under the key
    and returns the default; in every case the map after the call maps the
    key to the returned value. *)
Theorem C9_mapGetEnsureValue_spec :
  forall (K : Type) (EqK : EqDecision K) (CK : Countable K)
         (map : gmap K MapUtil.jsval) (key : K) (def : MapUtil.jsval),
    (forall v, map !! key = Some v -> v <> MapUtil.JSUndefined ->
               MapUtil.mapGetEnsureValue map key def = (v, map)) /\
    (map !! key = None \/ map !! key = Some MapUtil.JSUndefined ->
     MapUtil.mapGetEnsureValue map key def = (def, <[key := def]> map)) /\
    snd (MapUtil.mapGetEnsureValue map key def) !! key
    = Some (fst (MapUtil.mapGetEnsureValue map key def)).
Proof.
  intros K EqK CK map key def. split; [| split].
  - intros v Hv Hne. apply mapGetEnsureValue_present; assumption.
  - intros [Hn | Hu].
    + apply mapGetEnsureValue_absent; assumption.
    + apply mapGetEnsureValue_undefined; assumption.
  - apply mapGetEnsureValue_ensures.
Qed.

Lemma C9_mapGetEnsureValue_witness :
  MapUtil.mapGetEnsureValue ({[ "a"%string := MapUtil.JSNum 7 ]} : gmap string MapUtil.jsval)
    "a"%string (MapUtil.JSNum 1)
  = (MapUtil.JSNum 7, {[ "a"%string := MapUtil.JSNum 7 ]}) /\
  MapUtil.mapGetEnsureValue (∅ : gmap string MapUtil.jsval) "a"%string (MapUtil.JSNum 1)
  = (MapUtil.JSNum 1, <[ "a"%string := MapUtil.JSNum 1 ]> ∅).
Proof.
  split.
  - apply (proj1 (C9_mapGetEnsureValue_spec string _ _
                    {[ "a"%string := MapUtil.JSNum 7 ]} "a"%string (MapUtil.JSNum 1))
             (MapUtil.JSNum 7)).
    + vm_compute. reflexivity.
    + discriminate.
  - apply (proj1 (proj2 (C9_mapGetEnsureValue_spec string _ _ ∅ "a"%string (MapUtil.JSNum 1)))).
    left. reflexivity.
Defined.

Section NotifyProgress.
Import Chat.

Lemma notifyProgress_step (c : ChatArchiver) jobID p :
  let sum := int64_add (messagesComplete c) (wrap64 (Num p)) in
  let '(c', n) := notifyProgress c jobID p in
  pn_jobID n = jobID /\
  pn_total n = messagesTotal c /\
  messagesTotal c' = messagesTotal c /\
  pn_complete n = messagesComplete c' /\
  pn_complete n = (if (messagesTotal c <? sum) || Last p then messagesTotal c else sum) /\
  pn_complete n <= pn_total n.
Proof.
  unfold notifyProgress; cbn.
  repeat split; try reflexivity.
  destruct (Z.ltb_spec (messagesTotal c)
              (int64_add (messagesComplete c) (wrap64 (Num p)))) as [Hlt | Hge]; cbn.
  - lia.
  - destruct (Last p); lia.
Qed.

Lemma notifyProgress_all_cons (c : ChatArchiver) jobID p pages :
  notifyProgress_all c jobID (p :: pages)
  = (fst (notifyProgress_all (fst (notifyProgress c jobID p)) jobID pages),
     snd (notifyProgress c jobID p)
       :: snd (notifyProgress_all (fst (notifyProgress c jobID p)) jobID pages)).
Proof.
  change (notifyProgress_all c jobID (p :: pages))
    with (let '(c1, n) := notifyProgress c jobID p in
          let '(c2, ns) := notifyProgress_all c1 jobID pages in (c2, n :: ns)).
  destruct (notifyProgress c jobID p) as [c1 n]; cbn [fst snd].
  destruct (notifyProgress_all c1 jobID pages) as [c2 ns]; reflexivity.
Qed.

Lemma notifyProgress_all_bounded (c : ChatArchiver) jobID pages :
  Forall (fun n => pn_complete n <= pn_total n)
         (snd (notifyProgress_all c jobID pages)).
Proof.
  revert c. induction pages as [| p pages IH]; intros c.
  - constructor.
  - rewrite notifyProgress_all_cons. cbn [snd]. constructor.
    + pose proof (notifyProgress_step c jobID p) as Hstep. cbv zeta in Hstep.
      destruct (notifyProgress c jobID p) as [c1 n]. cbn [snd]. tauto.
    + apply IH.
Qed.
End NotifyProgress.

(** C10: for every sequence of page-progress notifications, starting from
    any archiver state, every reported messages-complete count is at most
    the reported messages-total; each call adds the page's [Num] to the
    running count, replaces the count by the total when it exceeds the
    total or when the page's [Last] flag is set, and reports that value. *)
Theorem C10_notifyProgress_never_over_reports :
  forall (c : Chat.ChatArchiver) (jobID : string) (pages : list Chat.Pagination),
    Forall (fun n => Chat.pn_complete n <= Chat.pn_total n)
           (snd (Chat.notifyProgress_all c jobID pages)) /\
    (forall p,
        let sum := int64_add (Chat.messagesComplete c) (wrap64 (Chat.Num p)) in
        let r := Chat.notifyProgress c jobID p in
        Chat.pn_total (snd r) = Chat.messagesTotal c /\
        Chat.pn_complete (snd r) = Chat.messagesComplete (fst r) /\
        Chat.pn_complete (snd r)
        = (if (Chat.messagesTotal c <? sum) || Chat.Last p
           then Chat.messagesTotal c else sum)).
Proof.
  intros c jobID pages. split.
  - apply notifyProgress_all_bounded.
  - intros p. pose proof (notifyProgress_step c jobID p) as Hstep. cbv zeta in *.
    destruct (Chat.notifyProgress c jobID p) as [c1 n] eqn:Hn. cbn [fst snd].
    tauto.
Qed.

(** ** The runtime contracts have instances *)

Section InsertionSort.
Context {A : Type} (less : A -> A -> bool).

Lemma insert_by_perm x l : insert_by less x l ≡ₚ x :: l.
Proof.
  induction l as [| y l IH]; cbn.
  - reflexivity.
  - destruct (less x y).
    + reflexivity.
    + rewrite IH. apply perm_swap.
Qed.

Lemma insertion_sort_perm l : insertion_sort less l ≡ₚ l.
Proof.
  induction l as [| x l IH]; cbn.
  - reflexivity.
  - rewrite insert_by_perm. constructor. exact IH.
Qed.

Hypothesis Hswo : StrictWeakOrder less.

Lemma less_asym x y : less x y = true -> less y x = false.
Proof.
  intros Hxy. destruct (less y x) eqn:Hyx; [| reflexivity].
  pose proof (swo_trans less Hswo x y x Hxy Hyx) as Hxx.
  rewrite (swo_irrefl less Hswo) in Hxx. discriminate.
Qed.

Lemma insert_by_sorted x l :
  StronglySorted (fun a b => less b a = false) l ->
  StronglySorted (fun a b => less b a = false) (insert_by less x l).
Proof.
  induction l as [| y l IH]; intros Hs; cbn.
  - constructor; constructor.
  - apply StronglySorted_inv in Hs as [Hl Hy].
    destruct (less x y) eqn:Hxy.
    + constructor.
      * constructor; assumption.
      * constructor.
        -- apply less_asym. exact Hxy.
        -- eapply Forall_impl; [exact Hy |]. cbn. intros z Hzy.
           apply (swo_incomp less Hswo z y x); [exact Hzy |].
           apply less_asym. exact Hxy.
    + constructor.
      * apply IH. exact Hl.
      * rewrite insert_by_perm. constructor; assumption.
Qed.

Lemma insertion_sort_sorted l :
  StronglySorted (fun a b => less b a = false) (insertion_sort less l).
Proof.
  induction l as [| x l IH]; cbn.
  - constructor.
  - apply insert_by_sorted. exact IH.
Qed.
End InsertionSort.

#[export] Instance insertion_GoSort : GoSort := {|
  sort_Sort := @insertion_sort;
  sort_Sort_perm := @insertion_sort_perm;
  sort_Sort_sorted := fun A less l H => @insertion_sort_sorted A less H l
|}.

(** ** Sorted lists are unique *)

Lemma StronglySorted_impl {A : Type} (R Q : A -> A -> Prop) (l : list A) :
  (forall x y, x ∈ l -> y ∈ l -> R x y -> Q x y) ->
  StronglySorted R l -> StronglySorted Q l.
Proof.
  intros Himp Hs. induction Hs as [| a l Hs IH Hall].
  - constructor.
  - constructor.
    + apply IH. intros x y Hx Hy. apply Himp; right; assumption.
    + rewrite Forall_forall in *. intros y Hy.
      apply Himp; [left | right; exact Hy | apply Hall; exact Hy].
Qed.

Lemma sorted_perm_unique {A : Type} (R : A -> A -> Prop) (l1 l2 : list A) :
  (forall x y, x ∈ l1 -> y ∈ l1 -> R x y -> R y x -> x = y) ->
  StronglySorted R l1 -> StronglySorted R l2 -> l1 ≡ₚ l2 -> l1 = l2.
Proof.
  revert l2. induction l1 as [| a l1 IH]; intros l2 Hanti Hs1 Hs2 Hperm.
  - apply Permutation_nil in Hperm. congruence.
  - destruct l2 as [| b l2].
    { symmetry in Hperm. apply Permutation_nil in Hperm. discriminate. }
    apply StronglySorted_inv in Hs1 as [Hs1 Ha].
    apply StronglySorted_inv in Hs2 as [Hs2 Hb].
    rewrite Forall_forall in Ha, Hb.
    assert (Hab : a = b).
    { assert (Hbin : b ∈ a :: l1) by (rewrite Hperm; left).
      assert (Hain : a ∈ b :: l2) by (rewrite <- Hperm; left).
      apply elem_of_cons in Hbin as [Heq | Hbin]; [congruence |].
      apply elem_of_cons in Hain as [Heq | Hain]; [congruence |].
      apply Hanti; [left | right; exact Hbin | apply Ha; exact Hbin | apply Hb; exact Hain]. }
    subst b. f_equal.
    apply IH; try assumption.
    + intros x y Hx Hy. apply Hanti; right; assumption.
    + eapply Permutation_cons_inv. exact Hperm.
Qed.

(** ** Byte-wise order of Go strings *)

Lemma string_ltb_irrefl s : String.ltb s s = false.
Proof.
  unfold String.ltb. destruct (String.compare s s) eqn:Hc; try reflexivity.
  pose proof (String.compare_antisym s s) as Ha. rewrite Hc in Ha. discriminate.
Qed.

Lemma string_ltb_lt s1 s2 : String.ltb s1 s2 = true <-> String_as_OT.lt s1 s2.
Proof.
  rewrite <- String_as_OT.cmp_lt. unfold String.ltb, String_as_OT.cmp.
  destruct (String.compare s1 s2); split; congruence.
Qed.

Lemma string_ltb_trans s1 s2 s3 :
  String.ltb s1 s2 = true -> String.ltb s2 s3 = true -> String.ltb s1 s3 = true.
Proof.
  rewrite !string_ltb_lt. apply String_as_OT.lt_trans.
Qed.

Lemma string_ltb_total s1 s2 :
  String.ltb s1 s2 = true \/ s1 = s2 \/ String.ltb s2 s1 = true.
Proof.
  unfold String.ltb. rewrite (String.compare_antisym s2 s1).
  destruct (String.compare s1 s2) eqn:Hc; cbn; auto.
  right; left. apply String.compare_eq_iff. exact Hc.
Qed.

Lemma string_ltb_incomp s1 s2 s3 :
  String.ltb s1 s2 = false -> String.ltb s2 s3 = false -> String.ltb s1 s3 = false.
Proof.
  intros H12 H23. destruct (String.ltb s1 s3) eqn:H13; [| reflexivity].
  destruct (string_ltb_total s2 s1) as [H21 | [Heq | H]].
  - rewrite (string_ltb_trans s2 s1 s3 H21 H13) in H23. discriminate.
  - subst s2. congruence.
  - congruence.
Qed.

Lemma string_ltb_false_leb s1 s2 : String.ltb s2 s1 = false -> String.leb s1 s2 = true.
Proof.
  unfold String.ltb, String.leb. rewrite (String.compare_antisym s1 s2).
  destruct (String.compare s2 s1); cbn; congruence.
Qed.

(** ** The chat archive registry *)

Section RegistryProperties.
Import Chat.

Lemma initLocked_inited (r : ChatArchiveRegistry) :
  started r = true -> inited r = true -> initLocked r = (Success tt, r).
Proof.
  intros Hs Hi. unfold initLocked, bind, get. rewrite Hs, Hi. reflexivity.
Qed.

Lemma Less_swo : StrictWeakOrder ByJobStartedAt_Less.
Proof.
  split; unfold ByJobStartedAt_Less.
  - intros x. rewrite Z.eqb_refl. apply string_ltb_irrefl.
  - intros x y z.
    destruct (Z.eqb_spec (StartedAt x) (StartedAt y)) as [Exy | Nxy];
      destruct (Z.eqb_spec (StartedAt y) (StartedAt z)) as [Eyz | Nyz];
      destruct (Z.eqb_spec (StartedAt x) (StartedAt z)) as [Exz | Nxz];
      rewrite ?Z.ltb_lt; try lia.
    apply string_ltb_trans.
  - intros x y z.
    destruct (Z.eqb_spec (StartedAt x) (StartedAt y)) as [Exy | Nxy];
      destruct (Z.eqb_spec (StartedAt y) (StartedAt z)) as [Eyz | Nyz];
      destruct (Z.eqb_spec (StartedAt x) (StartedAt z)) as [Exz | Nxz];
      rewrite ?Z.ltb_ge; try lia.
    apply string_ltb_incomp.
Qed.

Lemma not_Less_started_then_id x y :
  ByJobStartedAt_Less y x = false -> started_then_id x y.
Proof.
  unfold ByJobStartedAt_Less, started_then_id.
  destruct (Z.eqb_spec (StartedAt y) (StartedAt x)) as [E | N].
  - intros Hlt. right. split; [lia |]. apply string_ltb_false_leb. exact Hlt.
  - rewrite Z.ltb_ge. intros Hle. left. lia.
Qed.

Lemma Less_incomparable_same_key x y :
  ByJobStartedAt_Less y x = false -> ByJobStartedAt_Less x y = false ->
  StartedAt x = StartedAt y /\ JobID (Request x) = JobID (Request y).
Proof.
  unfold ByJobStartedAt_Less.
  rewrite (Z.eqb_sym (StartedAt y) (StartedAt x)).
  destruct (Z.eqb_spec (StartedAt x) (StartedAt y)) as [E | N].
  - intros H1 H2. split; [exact E |].
    destruct (string_ltb_total (JobID (Request x)) (JobID (Request y)))
      as [H | [H | H]]; congruence.
  - rewrite !Z.ltb_ge. lia.
Qed.

Lemma elem_of_values (h : gmap string ArchiveChatJob) (j : ArchiveChatJob) :
  j ∈ map snd (map_to_list h) -> exists k, h !! k = Some j.
Proof.
  intros Hin. apply list_elem_of_In, in_map_iff in Hin as [[k j'] [Heq Hin]].
  cbn in Heq. subst j'. exists k.
  apply elem_of_map_to_list. apply list_elem_of_In. exact Hin.
Qed.

Lemma List_after_init {rg : GoRange} {srt : GoSort} (r r0 : ChatArchiveRegistry) :
  initLocked r = (Success tt, r0) ->
  List r = (Success (sort_Sort ByJobStartedAt_Less (map snd (range (jobHistory r0)))), r0).
Proof.
  intros Hinit. unfold List, bind at 1. rewrite Hinit. reflexivity.
Qed.

Lemma List_values_perm {rg : GoRange} {srt : GoSort} (h : gmap string ArchiveChatJob) :
  sort_Sort ByJobStartedAt_Less (map snd (range h)) ≡ₚ map snd (map_to_list h).
Proof.
  rewrite sort_Sort_perm. apply Permutation_map. apply range_perm.
Qed.
End RegistryProperties.

(** C4: with the registry initialised, [Pause] returns the not-found
    error when the job has no record, and when it has a record in status
    RUNNING but no cancel-handle in [runningJobs]; it returns another
    error when the record's status is not RUNNING; and when the record is
    RUNNING and a handle is registered, it calls the handle, files the job
    the handle returns with status PAUSED, and takes the handle out of the
    map. *)
Theorem C4_Pause_spec :
  forall (r r0 : Chat.ChatArchiveRegistry) (jobID : string),
    Chat.initLocked r = (Success tt, r0) ->
    (Chat.jobHistory r0 !! jobID = None ->
     Chat.Pause jobID r = (Failure (Chat.ArchiveJobNotFoundError jobID), r0)) /\
    (forall job,
        Chat.jobHistory r0 !! jobID = Some job -> Chat.Status job = Chat.RUNNING ->
        Chat.runningJobs r0 !! jobID = None ->
        Chat.Pause jobID r = (Failure (Chat.ArchiveJobNotFoundError jobID), r0)) /\
    (forall job,
        Chat.jobHistory r0 !! jobID = Some job -> Chat.Status job <> Chat.RUNNING ->
        exists e, Chat.Pause jobID r = (Failure e, r0) /\ Chat.is_NotFound e = false) /\
    (forall job cancel,
        Chat.jobHistory r0 !! jobID = Some job -> Chat.Status job = Chat.RUNNING ->
        Chat.runningJobs r0 !! jobID = Some (Some cancel) ->
        exists r',
          Chat.Pause jobID r = (Success tt, r') /\
          Chat.effects r' = Chat.effects r0 ++ [Chat.CancelCalled jobID cancel] /\
          Chat.jobHistory r'
          = <[jobID := Chat.set_Status Chat.PAUSED (Chat.cancel_returns cancel)]>
              (Chat.jobHistory r0) /\
          Chat.runningJobs r' = delete jobID (Chat.runningJobs r0) /\
          Chat.dirty r' = true).
Proof.
  intros r r0 jobID Hinit.
  unfold Chat.Pause. rewrite (bind_success _ _ _ _ _ Hinit), bind_get.
  split; [| split; [| split]].
  - intros Hnone. rewrite Hnone. reflexivity.
  - intros job Hjob Hst Hrunning. rewrite Hjob, Hst, Hrunning. reflexivity.
  - intros job Hjob Hst. rewrite Hjob.
    exists (Chat.ErrCannotPause (Chat.Status job)). split; [| reflexivity].
    rewrite bool_decide_eq_false_2 by exact Hst. reflexivity.
  - intros job cancel Hjob Hst Hrunning. rewrite Hjob, Hst, Hrunning.
    eexists. split; [reflexivity |]. cbn. repeat split; reflexivity.
Qed.

Lemma C4_Pause_witness :
  Chat.Pause "ghost" Examples.registry
  = (Failure (Chat.ArchiveJobNotFoundError "ghost"), Examples.registry) /\
  Chat.Pause "orphan" Examples.registry
  = (Failure (Chat.ArchiveJobNotFoundError "orphan"), Examples.registry) /\
  (exists e, Chat.Pause "done" Examples.registry = (Failure e, Examples.registry) /\
             Chat.is_NotFound e = false) /\
  (exists r', Chat.Pause "run" Examples.registry = (Success tt, r') /\
              Chat.effects r' = [Chat.CancelCalled "run" Examples.run_cancel] /\
              Chat.Status <$> (Chat.jobHistory r' !! "run"%string) = Some Chat.PAUSED /\
              Chat.runningJobs r' !! "run"%string = None).
Proof.
  split; [| split; [| split]].
  - apply (C4_Pause_spec Examples.registry Examples.registry "ghost" eq_refl).
    vm_compute. reflexivity.
  - apply (proj1 (proj2 (C4_Pause_spec Examples.registry Examples.registry "orphan" eq_refl))
             (Examples.job "orphan" 9 Chat.RUNNING)); vm_compute; reflexivity.
  - apply (proj1 (proj2 (proj2 (C4_Pause_spec Examples.registry Examples.registry "done" eq_refl)))
             (Examples.job "done" 5 Chat.COMPLETE)); [vm_compute; reflexivity | discriminate].
  - destruct (proj2 (proj2 (proj2 (C4_Pause_spec Examples.registry Examples.registry "run" eq_refl)))
                (Examples.job "run" 5 Chat.RUNNING) Examples.run_cancel)
      as (r' & Hp & He & Hh & Hr & _); try (vm_compute; reflexivity).
    exists r'. split; [exact Hp |]. split; [exact He |]. split.
    + rewrite Hh, lookup_insert_eq. reflexivity.
    + rewrite Hr. apply lookup_delete_eq.
Defined.

Lemma initLocked_effects (r r0 : Chat.ChatArchiveRegistry) :
  Chat.initLocked r = (Success tt, r0) -> Chat.effects r0 = Chat.effects r.
Proof.
  unfold Chat.initLocked. rewrite bind_get.
  destruct (Chat.started r), (Chat.inited r), (Chat.edb_fails (Chat.edb r)); cbn;
    intros Heq; inversion Heq; subst; try reflexivity.
  all: destruct (Chat.edb_stored (Chat.edb r)); reflexivity.
Qed.

(** C5 as stated, refuted: resuming the complete job "done" returns an
    error. *)
Lemma C5_Resume_complete_is_an_error :
  Chat.Status <$> (Chat.jobHistory Examples.registry !! "done"%string) = Some Chat.COMPLETE /\
  Chat.Resume "done" Examples.registry
  = (Failure (Chat.ErrCannotResume Chat.COMPLETE), Examples.registry) /\
  fst (Chat.Resume "done" Examples.registry) <> Success tt.
Proof.
  split; [vm_compute; reflexivity |]. split; [vm_compute; reflexivity |].
  vm_compute. discriminate.
Qed.

(** C5 (amended): resuming a job whose status is COMPLETE starts no
    executor and leaves the registry, the job's record included, as it was
    after initialisation, and it returns the error "Cannot resume a
    non-paused job" instead of a success. *)
Theorem C5_Resume_complete_rejected :
  forall (r r0 : Chat.ChatArchiveRegistry) (jobID : string) (job : Chat.ArchiveChatJob),
    Chat.initLocked r = (Success tt, r0) ->
    Chat.jobHistory r0 !! jobID = Some job ->
    Chat.Status job = Chat.COMPLETE ->
    Chat.Resume jobID r = (Failure (Chat.ErrCannotResume Chat.COMPLETE), r0) /\
    Chat.effects r0 = Chat.effects r /\
    (Chat.inited r = true -> r0 = r).
Proof.
  intros r r0 jobID job Hinit Hjob Hst. split; [| split].
  - unfold Chat.Resume. rewrite (bind_success _ _ _ _ _ Hinit), bind_get.
    rewrite Hjob, Hst. reflexivity.
  - apply initLocked_effects. exact Hinit.
  - intros Hi. unfold Chat.initLocked in Hinit. rewrite bind_get in Hinit.
    rewrite Hi in Hinit. destruct (Chat.started r); cbv in Hinit; congruence.
Qed.

Lemma C5_Resume_complete_witness :
  Chat.Resume "done" Examples.registry
  = (Failure (Chat.ErrCannotResume Chat.COMPLETE), Examples.registry).
Proof.
  apply (C5_Resume_complete_rejected Examples.registry Examples.registry "done"
           (Examples.job "done" 5 Chat.COMPLETE)).
  - vm_compute. reflexivity.
  - vm_compute. reflexivity.
  - reflexivity.
Defined.

(** C6: with the registry initialised, [List] returns the jobs of the
    history, each once, in ascending order of [StartedAt] and, among equal
    start times, of job ID; and when every record is filed under its own job
    ID the listing is the same whatever order the map is ranged in and
    whatever sorting algorithm meets the contract of [sort.Sort]. *)
Theorem C6_List_sorted_deterministic :
  forall (rg : GoRange) (srt : GoSort) (r r0 : Chat.ChatArchiveRegistry),
    Chat.initLocked r = (Success tt, r0) ->
    exists jobs,
      @Chat.List rg srt r = (Success jobs, r0) /\
      jobs ≡ₚ map snd (map_to_list (Chat.jobHistory r0)) /\
      StronglySorted Chat.started_then_id jobs /\
      (Chat.history_wf (Chat.jobHistory r0) ->
       forall (rg' : GoRange) (srt' : GoSort),
         @Chat.List rg' srt' r = (Success jobs, r0)).
Proof.
  intros rg srt r r0 Hinit.
  exists (sort_Sort Chat.ByJobStartedAt_Less (map snd (range (Chat.jobHistory r0)))).
  split; [apply List_after_init; exact Hinit |].
  split; [apply List_values_perm |].
  split.
  - eapply StronglySorted_impl; [| apply sort_Sort_sorted; apply Less_swo].
    intros x y _ _. apply not_Less_started_then_id.
  - intros Hwf rg' srt'. rewrite (List_after_init r r0 Hinit). f_equal. f_equal.
    apply (sorted_perm_unique (fun x y => Chat.ByJobStartedAt_Less y x = false)).
    + intros x y Hx Hy Hxy Hyx.
      destruct (Less_incomparable_same_key x y Hxy Hyx) as [_ Hid].
      rewrite List_values_perm in Hx, Hy.
      apply elem_of_values in Hx as [kx Hkx]. apply elem_of_values in Hy as [ky Hky].
      pose proof (Hwf _ _ Hkx) as Ex. pose proof (Hwf _ _ Hky) as Ey.
      assert (kx = ky) by congruence. subst ky. congruence.
    + apply sort_Sort_sorted, Less_swo.
    + apply sort_Sort_sorted, Less_swo.
    + rewrite !List_values_perm. reflexivity.
Qed.

Lemma Examples_registry_wf : Chat.history_wf (Chat.jobHistory Examples.registry).
Proof.
  intros k j. unfold Examples.registry; cbn [Chat.jobHistory].
  rewrite !lookup_insert_Some, lookup_empty.
  intros [[<- <-] | [_ [[<- <-] | [_ [[<- <-] | [_ [[<- <-] | [_ Hf]]]]]]]];
    [reflexivity .. | discriminate].
Qed.

Lemma C6_List_witness :
  exists jobs,
    Chat.List Examples.registry = (Success jobs, Examples.registry) /\
    StronglySorted Chat.started_then_id jobs /\
    forall (rg' : GoRange) (srt' : GoSort),
      @Chat.List rg' srt' Examples.registry = (Success jobs, Examples.registry).
Proof.
  destruct (C6_List_sorted_deterministic canonical_GoRange insertion_GoSort
              Examples.registry Examples.registry eq_refl)
    as (jobs & HL & _ & Hs & Hdet).
  exists jobs. split; [exact HL |]. split; [exact Hs |].
  apply Hdet. apply Examples_registry_wf.
Defined.

Example List_example :
  fst (Chat.List Examples.registry)
  = Success [Examples.job "held" 1 Chat.PAUSED; Examples.job "done" 5 Chat.COMPLETE;
             Examples.job "run" 5 Chat.RUNNING; Examples.job "orphan" 9 Chat.RUNNING].
Proof. vm_compute. reflexivity. Qed.

(** ** The resumable copier *)

Section CopierProperties.
Import SimpleFS.
Context {St : Type}.
Variable sha : list Byte.byte -> list Byte.byte.

Lemma chunkSize_pos : (0 < chunkSize)%nat.
Proof. unfold chunkSize. lia. Qed.

#[local] Opaque chunkSize.


Lemma os_call_Write (w : World St) path p t d b :
  os w !! path = Some (OS.File p t d) ->
  os_call (OS.Write path b) w
  = (Success tt, set_os (<[path := OS.File p t (d ++ b)]> (os w)) w).
Proof. intros Hf. unfold os_call, OS.Write. rewrite Hf. reflexivity. Qed.

Lemma os_call_ReadFile (w : World St) path p t d :
  os w !! path = Some (OS.File p t d) ->
  os_call (OS.ReadFile path) w = (Success d, w).
Proof.
  intros Hf. unfold os_call, OS.ReadFile. rewrite Hf. destruct w; reflexivity.
Qed.

Lemma wrap_err_success {S A : Type} site (c : M S error A) s a s' :
  c s = (Success a, s') -> wrap_err site c s = (Success a, s').
Proof. intros Hc. unfold wrap_err. rewrite Hc. reflexivity. Qed.

Lemma wrap_err_failure {S A : Type} site (c : M S error A) s e s' :
  c s = (Failure e, s') -> wrap_err site c s = (Failure (Errorf site e), s').
Proof. intros Hc. unfold wrap_err. rewrite Hc. reflexivity. Qed.

(** Reading a chunk: the bytes, and whether the reader ran dry. *)
Lemma firstn_chunk_full (rest : list Byte.byte) :
  (chunkSize <= length rest)%nat -> length (firstn chunkSize rest) = chunkSize.
Proof. intros Hle. rewrite length_firstn. lia. Qed.

Lemma firstn_chunk_short (rest : list Byte.byte) :
  (length rest < chunkSize)%nat -> firstn chunkSize rest = rest.
Proof. intros Hlt. apply firstn_all2. lia. Qed.

Lemma ctx_Done_cases (w : World St) :
  (ctx_Done w = (Success true, w) /\ ctx w <> None) \/
  (exists c0, ctx_Done w = (Success false, {| os := os w; ctx := c0; user := user w |}) /\
              (ctx w = None -> c0 = None)).
Proof.
  unfold ctx_Done. destruct w as [fs [[| k] |] u]; cbn.
  - left. split; [reflexivity | discriminate].
  - right. exists (Some k). split; [reflexivity | discriminate].
  - right. exists None. split; [reflexivity | reflexivity].
Qed.

Lemma chunk_sizes_fuel_full fuel n :
  (chunkSize <= n)%nat ->
  chunk_sizes_fuel (S fuel) n = Z.of_nat chunkSize :: chunk_sizes_fuel fuel (n - chunkSize).
Proof.
  intros Hle. cbn [chunk_sizes_fuel].
  destruct (Nat.ltb_spec n chunkSize); [lia | reflexivity].
Qed.

Lemma chunk_sizes_fuel_short fuel n :
  (n < chunkSize)%nat -> chunk_sizes_fuel (S fuel) n = [Z.of_nat n].
Proof.
  intros Hlt. cbn [chunk_sizes_fuel].
  destruct (Nat.ltb_spec n chunkSize); [reflexivity | lia].
Qed.

Lemma drop_length_take {A : Type} (l : list A) n : drop (length (take n l)) l = drop n l.
Proof.
  rewrite length_take. destruct (Nat.le_ge_cases n (length l)) as [Hle | Hge].
  - rewrite Nat.min_l by exact Hle. reflexivity.
  - rewrite Nat.min_r by exact Hge. rewrite !drop_ge by lia. reflexivity.
Qed.

Section CopyLoop.
(** A reader described by the bytes it has yet to hand out and by how
    handing out bytes changes it. *)
Context {R : Type} {HR : Reader R}.
Variable pending : R -> list Byte.byte.
Variable advance : R -> list Byte.byte -> R.
Hypothesis Read_spec :
  forall r n, Read r n = (firstn n (pending r), advance r (firstn n (pending r))).
Hypothesis pending_advance :
  forall r n, pending (advance r (firstn n (pending r))) = skipn n (pending r).
Hypothesis Remaining_spec : forall r, Remaining r = length (pending r).
Hypothesis advance_app : forall r b1 b2, advance (advance r b1) b2 = advance r (b1 ++ b2).

Lemma ctxAwareCopy_loop_spec path upd fuel :
  forall (r : R) (w : World St) p t d,
    os w !! path = Some (OS.File p t d) ->
    (Remaining r < fuel)%nat ->
    copy_outcome
      (ctxAwareCopy_loop fuel (fun b => os_call (OS.Write path b)) r upd w)
      (advance r (pending r))
      (<[path := OS.File p t (d ++ pending r)]> (os w))
      (apply_deltas upd (chunk_sizes_fuel fuel (length (pending r))) (user w))
      w.
Proof.
  induction fuel as [| fuel IH]; intros r w p t d Hf Hfuel; [lia |].
  cbn [ctxAwareCopy_loop].
  destruct (ctx_Done_cases w) as [[Hd Hne] | (c0 & Hd & Hc0)].
  { eapply copy_canceled;
      [rewrite (bind_success _ _ _ _ _ Hd); reflexivity | reflexivity | exact Hne]. }
  rewrite (bind_success _ _ _ _ _ Hd). cbv beta iota.
  set (w0 := {| os := os w; ctx := c0; user := user w |}).
  set (rest := pending r).
  assert (Hrem : Remaining r = length rest) by apply Remaining_spec.
  unfold io_CopyN. rewrite Read_spec. fold rest.
  assert (Hw0 : os w0 !! path = Some (OS.File p t d)) by exact Hf.
  erewrite (bind_success _ _ w0);
    [| rewrite (bind_success _ _ _ _ _ (os_call_Write w0 path p t d _ Hw0)); reflexivity].
  cbv beta iota. unfold on_user. rewrite bind_modify.
  destruct (Nat.lt_ge_cases (length rest) chunkSize) as [Hshort | Hfull].
  - (* the last chunk *)
    rewrite (firstn_chunk_short rest Hshort).
    replace (length rest =? chunkSize)%nat with false
      by (symmetry; apply Nat.eqb_neq; lia).
    cbn [negb]. rewrite (chunk_sizes_fuel_short fuel _ Hshort).
    eapply copy_done; [reflexivity | exact Hc0].
  - (* a whole chunk, and on with the loop *)
    rewrite (firstn_chunk_full rest Hfull), Nat.eqb_refl. cbn [negb].
    set (w2 := set_user _ _).
    set (r2 := advance r (take chunkSize rest)).
    assert (Hrest' : pending r2 = skipn chunkSize rest) by apply pending_advance.
    assert (Hf2 : os w2 !! path = Some (OS.File p t (d ++ take chunkSize rest))).
    { subst w2. cbn. apply lookup_insert_eq. }
    assert (Hfuel2 : (Remaining r2 < fuel)%nat).
    { rewrite Remaining_spec, Hrest', length_skipn. pose proof chunkSize_pos. lia. }
    pose proof (IH r2 w2 p t _ Hf2 Hfuel2) as Hout.
    rewrite Hrest' in Hout.
    destruct Hout as [e w' Hrun Hfe Hne | c' Hrun Hc'].
    + eapply copy_canceled; [exact Hrun | exact Hfe |].
      intros Hnone. apply Hne. subst w2. cbn. apply Hc0. exact Hnone.
    + eapply copy_done with (c' := c').
      * rewrite Hrun. f_equal. f_equal.
        -- subst r2. rewrite advance_app, firstn_skipn. reflexivity.
        -- f_equal.
           ++ subst w2. cbn. rewrite insert_insert_eq. f_equal. f_equal.
              rewrite <- app_assoc, firstn_skipn. reflexivity.
           ++ rewrite (chunk_sizes_fuel_full fuel _ Hfull). subst w2. cbn.
              rewrite length_skipn. reflexivity.
      * intros Hnone. apply Hc'. subst w2. cbn. apply Hc0. exact Hnone.
Qed.
End CopyLoop.

Lemma ctxAwareCopy_src path upd (r : srcFile) (w : World St) p t d :
  os w !! path = Some (OS.File p t d) ->
  copy_outcome
    (ctxAwareCopy (fun b => os_call (OS.Write path b)) r upd w)
    (src_advance r (src_pending r))
    (<[path := OS.File p t (d ++ src_pending r)]> (os w))
    (apply_deltas upd (chunk_sizes (length (src_pending r))) (user w))
    w.
Proof.
  intros Hf. unfold ctxAwareCopy, chunk_sizes.
  replace (Remaining r) with (length (src_pending r))
    by (unfold src_pending; cbn; rewrite length_skipn; reflexivity).
  apply (ctxAwareCopy_loop_spec src_pending src_advance); try assumption.
  - reflexivity.
  - intros r0 n. unfold src_pending, src_advance. cbn.
    rewrite <- drop_drop. apply drop_length_take.
  - intros r0. unfold src_pending. cbn. rewrite length_skipn. reflexivity.
  - intros r0 b1 b2. unfold src_advance. cbn. rewrite length_app. f_equal. lia.
  - unfold src_pending. cbn. rewrite length_skipn. lia.
Qed.

Lemma ctxAwareCopy_tee path upd (r : sha256TeeReader) (w : World St) p t d :
  os w !! path = Some (OS.File p t d) ->
  copy_outcome
    (ctxAwareCopy (fun b => os_call (OS.Write path b)) r upd w)
    (tee_advance r (src_pending (inner r)))
    (<[path := OS.File p t (d ++ src_pending (inner r))]> (os w))
    (apply_deltas upd (chunk_sizes (length (src_pending (inner r)))) (user w))
    w.
Proof.
  intros Hf. unfold ctxAwareCopy, chunk_sizes.
  replace (Remaining r) with (length (src_pending (inner r)))
    by (unfold src_pending; cbn; rewrite length_skipn; reflexivity).
  apply (ctxAwareCopy_loop_spec (fun r => src_pending (inner r)) tee_advance); try assumption.
  - reflexivity.
  - intros r0 n. unfold src_pending, tee_advance, src_advance. cbn.
    rewrite <- drop_drop. apply drop_length_take.
  - intros r0. unfold src_pending. cbn. rewrite length_skipn. reflexivity.
  - intros r0 b1 b2. unfold tee_advance, src_advance. cbn.
    rewrite length_app, <- app_assoc. f_equal. f_equal. lia.
  - unfold src_pending. cbn. rewrite length_skipn. lia.
Qed.

Lemma OpenFile_truncate (w : World St) path mode p t d :
  os w !! path = Some (OS.File p t d) ->
  os_call (OS.OpenFile path (Z.lor OS.O_WRONLY (Z.lor OS.O_CREATE OS.O_TRUNC)) mode) w
  = (Success tt, set_os (<[path := OS.File p t []]> (os w)) w).
Proof. intros Hf. unfold os_call, OS.OpenFile. rewrite Hf. reflexivity. Qed.

Lemma OpenFile_append (w : World St) path mode p t d :
  os w !! path = Some (OS.File p t d) ->
  os_call (OS.OpenFile path (Z.lor OS.O_APPEND (Z.lor OS.O_WRONLY OS.O_CREATE)) mode) w
  = (Success tt, w).
Proof.
  intros Hf. unfold os_call, OS.OpenFile. rewrite Hf. destruct w; reflexivity.
Qed.

Lemma srcDirFS_Open_file (srcDirFS : gmap string srcNode) entry exec mtime data (w : World St) :
  srcDirFS !! entry = Some (SrcFile exec mtime data) ->
  srcDirFS_Open srcDirFS entry w = (Success {| sf_data := data; sf_off := 0 |}, w).
Proof. intros Hs. unfold srcDirFS_Open. rewrite Hs. reflexivity. Qed.

Lemma copyFileFromBeginning_spec srcDirFS entry path mode upd exec mtime src p t d
    (w : World St) :
  srcDirFS !! entry = Some (SrcFile exec mtime src) ->
  os w !! path = Some (OS.File p t d) ->
  copy_outcome
    (copyFileFromBeginning sha srcDirFS entry path mode upd w)
    (sha src)
    (<[path := OS.File p t src]> (os w))
    (apply_deltas upd (chunk_sizes (length src)) (user w))
    w.
Proof.
  intros Hs Hf. unfold copyFileFromBeginning.
  rewrite (bind_success _ _ _ _ _ (srcDirFS_Open_file _ _ _ _ _ w Hs)).
  rewrite (bind_success _ _ _ _ _
             (wrap_err_success _ _ _ _ _ (OpenFile_truncate w path mode p t d Hf))).
  set (w1 := set_os _ w).
  assert (Hf1 : os w1 !! path = Some (OS.File p t [])) by apply lookup_insert_eq.
  pose proof (ctxAwareCopy_tee path upd
                (newSHA256TeeReader {| sf_data := src; sf_off := 0 |}) w1 p t [] Hf1) as Hout.
  unfold src_pending in Hout.
  cbn [newSHA256TeeReader inner h sf_off sf_data drop app] in Hout.
  destruct Hout as [e w' Hrun Hfe Hne | c' Hrun Hc'].
  - eapply copy_canceled;
      [rewrite (bind_failure _ _ _ _ _ (wrap_err_failure _ _ _ _ _ Hrun)); reflexivity
      | exact Hfe | exact Hne].
  - eapply copy_done with (c' := c'); [| exact Hc'].
    rewrite (bind_success _ _ _ _ _ (wrap_err_success _ _ _ _ _ Hrun)).
    unfold ret, getSum, tee_advance. cbn. rewrite insert_insert_eq. reflexivity.
Qed.

Lemma copyFilePickupPrevious_spec srcDirFS entry path mode upd exec mtime src p t d
    (w : World St) :
  srcDirFS !! entry = Some (SrcFile exec mtime src) ->
  os w !! path = Some (OS.File p t d) ->
  let resumed := d ++ skipn (length d) src in
  let appended := chunk_sizes (length (skipn (length d) src)) in
  if bytes_Equal (sha src) (sha resumed) then
    copy_outcome
      (copyFilePickupPrevious sha srcDirFS entry path (Z.of_nat (length d)) mode upd w)
      (sha src)
      (<[path := OS.File p t resumed]> (os w))
      (apply_deltas upd appended (user w))
      w
  else
    copy_outcome
      (copyFilePickupPrevious sha srcDirFS entry path (Z.of_nat (length d)) mode upd w)
      (sha src)
      (<[path := OS.File p t src]> (os w))
      (apply_deltas upd (appended ++ [- Z.of_nat (length src)] ++ chunk_sizes (length src))
         (user w))
      w.
Proof.
  intros Hs Hf resumed appended.
  unfold copyFilePickupPrevious.
  rewrite (bind_success _ _ _ _ _ (srcDirFS_Open_file _ _ _ _ _ w Hs)).
  assert (Hseek : wrap_err "src.Seek"
                    (lift_result (Seek {| sf_data := src; sf_off := 0 |} (Z.of_nat (length d)))) w
                  = (Success {| sf_data := src; sf_off := length d |}, w)).
  { unfold Seek. destruct (Z.ltb_spec (Z.of_nat (length d)) 0); [lia |].
    cbn. rewrite Nat2Z.id. reflexivity. }
  rewrite (bind_success _ _ _ _ _ Hseek).
  pose proof (ctxAwareCopy_src path upd {| sf_data := src; sf_off := length d |} w p t d Hf)
    as Hout.
  unfold src_pending, src_advance in Hout. cbn [sf_off sf_data] in Hout.
  destruct Hout as [e w' Hrun Hfe Hne | c' Hrun Hc'].
  { (* cancelled while appending *)
    assert (Hfail : forall A (k : srcFile -> CM A),
               bind (wrap_err "os.OpenFile"
                       (os_call (OS.OpenFile path
                          (Z.lor OS.O_APPEND (Z.lor OS.O_WRONLY OS.O_CREATE)) mode)) ;;
                     wrap_err "io.CopyN"
                       (ctxAwareCopy (fun b => os_call (OS.Write path b))
                          {| sf_data := src; sf_off := length d |} upd)) k w
               = (Failure (Errorf "io.CopyN" e), w')).
    { intros A k. apply bind_failure.
      rewrite (bind_success _ _ _ _ _
                 (wrap_err_success _ _ _ _ _ (OpenFile_append w path mode p t d Hf))).
      apply wrap_err_failure. exact Hrun. }
    destruct (bytes_Equal (sha src) (sha resumed));
      (eapply copy_canceled; [apply Hfail | exact Hfe | exact Hne]). }
  set (w1 := {| os := <[path := OS.File p t (d ++ drop (length d) src)]> (os w);
                ctx := c'; user := _ |}) in Hrun.
  erewrite (bind_success _ _ w);
    [| rewrite (bind_success _ _ _ _ _
                  (wrap_err_success _ _ _ _ _ (OpenFile_append w path mode p t d Hf)));
       apply wrap_err_success; exact Hrun].
  assert (Hseek0 : forall r : srcFile,
             wrap_err "src.Seek" (lift_result (Seek r 0)) w1
             = (Success {| sf_data := sf_data r; sf_off := 0 |}, w1)) by reflexivity.
  rewrite (bind_success _ _ _ _ _ (Hseek0 _)).
  unfold io_Copy_all. cbn [Read Remaining srcFile_Reader sf_data sf_off].
  rewrite Nat.sub_0_r, drop_0, firstn_all.
  assert (Hf1 : os w1 !! path = Some (OS.File p t resumed)) by apply lookup_insert_eq.
  rewrite (bind_success _ _ _ _ _
             (wrap_err_success _ _ _ _ _ (os_call_ReadFile w1 path p t resumed Hf1))).
  destruct (bytes_Equal (sha src) (sha resumed)); cbn [negb].
  - eapply copy_done with (c' := c'); [reflexivity | exact Hc'].
  - unfold on_user. rewrite bind_modify.
    set (w2 := set_user _ w1).
    assert (Hf2 : os w2 !! path = Some (OS.File p t resumed)) by exact Hf1.
    pose proof (copyFileFromBeginning_spec srcDirFS entry path mode upd exec mtime src
                  p t resumed w2 Hs Hf2) as Hout.
    destruct Hout as [e w' Hrun2 Hfe Hne | c2 Hrun2 Hc2].
    + eapply copy_canceled; [exact Hrun2 | exact Hfe |].
      intros Hnone. apply Hne. subst w2 w1. cbn. apply Hc'. exact Hnone.
    + eapply copy_done with (c' := c2).
      * rewrite Hrun2. f_equal. f_equal.
        -- subst w2 w1. cbn. apply insert_insert_eq.
        -- subst w2 w1. cbn. unfold apply_deltas. rewrite !fold_left_app. reflexivity.
      * intros Hnone. apply Hc2. subst w2 w1. cbn. apply Hc'. exact Hnone.
Qed.
End CopierProperties.

(** ** The bytes the progress callbacks count *)

Lemma wrap64_add_l a b : wrap64 (wrap64 a + b) = wrap64 (a + b).
Proof.
  unfold wrap64. f_equal.
  replace ((a + 2 ^ 63) mod 2 ^ 64 - 2 ^ 63 + b + 2 ^ 63)
    with ((a + 2 ^ 63) mod 2 ^ 64 + b) by lia.
  rewrite Zplus_mod_idemp_l. f_equal. lia.
Qed.

Lemma wrap64_add_r a b : wrap64 (a + wrap64 b) = wrap64 (a + b).
Proof. rewrite (Z.add_comm a), wrap64_add_l, (Z.add_comm b a). reflexivity. Qed.

Lemma wrap64_idem a : wrap64 (wrap64 a) = wrap64 a.
Proof. pose proof (wrap64_add_l a 0) as H. rewrite !Z.add_0_r in H. exact H. Qed.

Section BytesCounted.
Import SimpleFS.

#[local] Opaque chunkSize.

Lemma sum_Z_chunk_sizes_fuel fuel :
  forall n, (n < fuel)%nat -> sum_Z (chunk_sizes_fuel fuel n) = Z.of_nat n.
Proof.
  induction fuel as [| fuel IH]; intros n Hlt; [lia |].
  destruct (Nat.lt_ge_cases n chunkSize) as [Hshort | Hfull].
  - rewrite (chunk_sizes_fuel_short fuel n Hshort). cbn. lia.
  - rewrite (chunk_sizes_fuel_full fuel n Hfull). cbn [sum_Z fold_right].
    fold (sum_Z (chunk_sizes_fuel fuel (n - chunkSize))).
    pose proof chunkSize_pos. rewrite IH by lia. lia.
Qed.

Lemma sum_Z_chunk_sizes n : sum_Z (chunk_sizes n) = Z.of_nat n.
Proof. apply sum_Z_chunk_sizes_fuel. lia. Qed.

Lemma sum_Z_app ds1 ds2 : sum_Z (ds1 ++ ds2) = sum_Z ds1 + sum_Z ds2.
Proof.
  induction ds1 as [| d ds1 IH]; [reflexivity |].
  cbn [app sum_Z fold_right]. fold (sum_Z (ds1 ++ ds2)). fold (sum_Z ds1). rewrite IH. lia.
Qed.

(** The copy loop calls the progress callback at least once. *)
Lemma chunk_sizes_cons n : exists d ds, chunk_sizes n = d :: ds.
Proof.
  unfold chunk_sizes. destruct (Nat.lt_ge_cases n chunkSize) as [Hshort | Hfull].
  - rewrite (chunk_sizes_fuel_short n n Hshort). eauto.
  - rewrite (chunk_sizes_fuel_full n n Hfull). eauto.
Qed.

(** The callback of [doCopying] called with [d :: ds]: the job's
    [BytesCopied] has their sum added, in 64-bit arithmetic. *)
Lemma apply_deltas_updateBytesCopied jobID ds :
  forall d (m : archiveManager) job,
    Jobs m !! jobID = Some job ->
    apply_deltas (updateBytesCopied jobID) (d :: ds) m
    = set_Jobs (<[jobID := set_BytesCopied (wrap64 (BytesCopied job + sum_Z (d :: ds))) job]>
                  (Jobs m)) m.
Proof.
  unfold apply_deltas.
  induction ds as [| d' ds IH]; intros d m job Hj.
  - cbn [fold_left sum_Z fold_right]. unfold updateBytesCopied. rewrite Hj, Z.add_0_r.
    reflexivity.
  - change (fold_left (fun u d0 => updateBytesCopied jobID d0 u) (d :: d' :: ds) m)
      with (fold_left (fun u d0 => updateBytesCopied jobID d0 u) (d' :: ds)
              (updateBytesCopied jobID d m)).
    rewrite (IH d' _ (set_BytesCopied (int64_add (BytesCopied job) d) job)).
    + unfold updateBytesCopied. rewrite Hj. cbn [default from_option id Jobs set_Jobs].
      rewrite insert_insert_eq. unfold int64_add.
      cbn [BytesCopied set_BytesCopied Desc Manifest Phase BytesTotal BytesZipped].
      rewrite wrap64_add_l.
      change (sum_Z (d :: d' :: ds)) with (d + sum_Z (d' :: ds)).
      rewrite Z.add_assoc. destruct m; reflexivity.
    + unfold updateBytesCopied. rewrite Hj. cbn. apply lookup_insert_eq.
Qed.
End BytesCounted.


(** ** What the copier and the workers leave untouched *)

Section Preservation.
Import SimpleFS.
Context {St : Type}.
Variable I : St -> Prop.

Lemma preserves_ret {A : Type} (a : A) : preserves I (ret a).
Proof. intros w Hw. exact Hw. Qed.

Lemma preserves_fail {A : Type} (e : error) : preserves I (@fail _ _ A e).
Proof. intros w Hw. exact Hw. Qed.

Lemma preserves_bind {A B : Type} (c : M (World St) error A) (k : A -> M (World St) error B) :
  preserves I c -> (forall a, preserves I (k a)) -> preserves I (bind c k).
Proof.
  intros Hc Hk w Hw. unfold bind. specialize (Hc w Hw).
  destruct (c w) as [[a | e] w1]; cbn [snd] in *.
  - apply Hk. exact Hc.
  - exact Hc.
Qed.

Lemma preserves_get : preserves I get.
Proof. intros w Hw. exact Hw. Qed.

Lemma preserves_try {A : Type} (c : M (World St) error A) :
  preserves I c -> preserves I (try c).
Proof.
  intros Hc w Hw. unfold try. specialize (Hc w Hw). destruct (c w) as [r w1]. exact Hc.
Qed.

Lemma preserves_wrap_err {A : Type} site (c : M (World St) error A) :
  preserves I c -> preserves I (wrap_err site c).
Proof.
  intros Hc w Hw. unfold wrap_err. specialize (Hc w Hw).
  destruct (c w) as [[a | e] w1]; exact Hc.
Qed.

Lemma preserves_os_call {A : Type} (c : M (gmap string OS.node) OS.errno A) :
  preserves I (os_call c).
Proof.
  intros w Hw. unfold os_call. destruct (c (os w)) as [[a | e] fs]; exact Hw.
Qed.

Lemma preserves_ctx_Done : preserves I ctx_Done.
Proof. intros w Hw. unfold ctx_Done. destruct (ctx w) as [[| k] |]; exact Hw. Qed.

Lemma preserves_on_user (f : St -> St) : (forall u, I u -> I (f u)) -> preserves I (on_user f).
Proof. intros Hf w Hw. cbn. apply Hf. exact Hw. Qed.

Lemma preserves_lift_result {A : Type} (r : result error A) : preserves I (lift_result r).
Proof. destruct r; [apply preserves_ret | apply preserves_fail]. Qed.

Lemma preserves_for_each {A : Type} (l : list A) (body : A -> M (World St) error unit) :
  (forall x, preserves I (body x)) -> preserves I (for_each l body).
Proof.
  intros Hb. induction l as [| x l IH]; cbn [for_each].
  - apply preserves_ret.
  - apply preserves_bind; [apply Hb | intros _; exact IH].
Qed.

Section Copy.
Variable sha : list Byte.byte -> list Byte.byte.
Variable upd : bytesUpdaterFunc St.
Hypothesis upd_keeps : forall delta u, I u -> I (upd delta u).

Lemma preserves_ctxAwareCopy_loop {R : Type} `{Reader R} fuel :
  forall (to : list Byte.byte -> M (World St) error unit) (from : R),
    (forall b, preserves I (to b)) ->
    preserves I (ctxAwareCopy_loop fuel to from upd).
Proof.
  induction fuel as [| fuel IH]; intros to from Hto; cbn [ctxAwareCopy_loop].
  - apply preserves_fail.
  - apply preserves_bind; [apply preserves_ctx_Done |].
    intros [|]; [apply preserves_fail |].
    apply preserves_bind.
    + unfold io_CopyN. destruct (Read from chunkSize) as [b from'].
      apply preserves_bind; [apply Hto | intros _; apply preserves_ret].
    + intros [[n eof] from'].
      apply preserves_bind; [apply preserves_on_user, upd_keeps |].
      intros _. destruct eof; [apply preserves_ret | apply IH; exact Hto].
Qed.

Lemma preserves_ctxAwareCopy {R : Type} `{Reader R}
    (to : list Byte.byte -> M (World St) error unit) (from : R) :
  (forall b, preserves I (to b)) -> preserves I (ctxAwareCopy to from upd).
Proof. apply preserves_ctxAwareCopy_loop. Qed.

Lemma preserves_copyFileFromBeginning srcDirFS entry path mode :
  preserves I (copyFileFromBeginning sha srcDirFS entry path mode upd).
Proof.
  unfold copyFileFromBeginning.
  apply preserves_bind.
  { unfold srcDirFS_Open. destruct (srcDirFS !! entry) as [[| |] |];
      first [apply preserves_ret | apply preserves_fail]. }
  intros src. apply preserves_bind; [apply preserves_wrap_err, preserves_os_call |].
  intros _. apply preserves_bind.
  - apply preserves_wrap_err, preserves_ctxAwareCopy. intros b. apply preserves_os_call.
  - intros tee. apply preserves_ret.
Qed.

Lemma preserves_copyFile srcDirFS entry path seek mode :
  preserves I (copyFile sha srcDirFS entry path seek mode upd).
Proof.
  unfold copyFile. destruct (seek =? 0); [apply preserves_copyFileFromBeginning |].
  unfold copyFilePickupPrevious.
  apply preserves_bind.
  { unfold srcDirFS_Open. destruct (srcDirFS !! entry) as [[| |] |];
      first [apply preserves_ret | apply preserves_fail]. }
  intros src. apply preserves_bind; [apply preserves_wrap_err, preserves_lift_result |].
  intros src1. apply preserves_bind.
  { apply preserves_bind; [apply preserves_wrap_err, preserves_os_call |].
    intros _. apply preserves_wrap_err, preserves_ctxAwareCopy.
    intros b. apply preserves_os_call. }
  intros src2. apply preserves_bind; [apply preserves_wrap_err, preserves_lift_result |].
  intros src3. destruct (io_Copy_all src3) as [srcBytes src4].
  apply preserves_bind; [apply preserves_wrap_err, preserves_os_call |].
  intros dstBytes. destruct (negb _).
  - apply preserves_bind; [apply preserves_on_user, upd_keeps |].
    intros _. apply preserves_copyFileFromBeginning.
  - apply preserves_ret.
Qed.
End Copy.
End Preservation.

(** ** The archive manager *)

Section ManagerInvariant.
Import SimpleFS.

(** A step that registers no job in a working phase and drops no cancel
    function keeps the invariant. *)
Lemma working_has_canceller_update (m m' : archiveManager) :
  (forall jobID job',
      Jobs m' !! jobID = Some job' -> working_phase (Phase job') = true ->
      exists job, Jobs m !! jobID = Some job /\ working_phase (Phase job) = true) ->
  (forall jobID, is_Some (jobCtxCancellers m !! jobID) ->
                 is_Some (jobCtxCancellers m' !! jobID)) ->
  working_has_canceller m -> working_has_canceller m'.
Proof.
  intros Hjobs Hcs Hinv jobID job' Hj Hw.
  destruct (Hjobs jobID job' Hj Hw) as (job & Hj0 & Hw0).
  apply Hcs. eapply Hinv; eassumption.
Qed.

Lemma changeJobPhaseLocked_spec jobID newPhase m :
  changeJobPhaseLocked jobID newPhase m
  = (Success tt,
     match Jobs m !! jobID with
     | Some job => set_Jobs (<[jobID := set_Phase newPhase job]> (Jobs m)) m
     | None => m
     end).
Proof.
  unfold changeJobPhaseLocked. rewrite bind_get.
  destruct (Jobs m !! jobID); reflexivity.
Qed.

Lemma changeJobPhase_keeps jobID newPhase m :
  working_phase newPhase = false ->
  working_has_canceller m ->
  working_has_canceller (snd (changeJobPhase jobID newPhase m)).
Proof.
  intros Hnw. unfold changeJobPhase. rewrite changeJobPhaseLocked_spec. cbn [snd].
  destruct (Jobs m !! jobID) as [job0 |] eqn:Hj0; [| auto].
  apply working_has_canceller_update; [| auto].
  intros j job'. cbn. rewrite lookup_insert_Some.
  intros [[<- <-] | [Hne Hj]] Hw.
  - cbn in Hw. congruence.
  - eauto.
Qed.

Lemma startJob_keeps ctx_done now desc m :
  working_has_canceller m -> working_has_canceller (snd (startJob ctx_done now desc m)).
Proof.
  unfold startJob. rewrite bind_get.
  destruct (Jobs m !! JobID desc) as [job0 |] eqn:Hj0; [auto |].
  apply working_has_canceller_update.
  - intros j job'. unfold bind, modify, signal, flushStateFileLocked.
    destruct ctx_done; cbn; rewrite lookup_insert_Some;
      (intros [[<- <-] | [Hne Hj]] Hw; [cbn in Hw; congruence | eauto]).
  - intros j. unfold bind, modify, signal, flushStateFileLocked.
    destruct ctx_done; cbn; auto.
Qed.

Lemma cancelOrDismissJob_keeps jobID m :
  working_has_canceller m -> working_has_canceller (snd (cancelOrDismissJob jobID m)).
Proof.
  intros Hinv. unfold cancelOrDismissJob. rewrite bind_get.
  assert (Hgen : forall m1,
             Jobs m1 = Jobs m ->
             (forall j, j <> jobID -> jobCtxCancellers m1 !! j = jobCtxCancellers m !! j) ->
             working_has_canceller
               (snd ((m0 <- get ;;
                      match Jobs m0 !! jobID with
                      | Some job =>
                          modify (fun m => set_Jobs (delete jobID (Jobs m)) m) ;;
                          ret (StagingPath (Desc job))
                      | None => fail (errors_New "job not found")
                      end) m1))).
  { intros m1 HJ HC. rewrite bind_get.
    destruct (Jobs m1 !! jobID) as [job |] eqn:Hj1.
    - intros j job'. cbn. rewrite lookup_delete_Some. intros [Hne Hj] Hw.
      rewrite HC by congruence. rewrite HJ in Hj. eapply Hinv; eassumption.
    - intros j job'. cbn. intros Hj Hw.
      destruct (decide (j = jobID)) as [-> | Hne]; [congruence |].
      rewrite HC by exact Hne. rewrite HJ in Hj. eapply Hinv; eassumption. }
  destruct (jobCtxCancellers m !! jobID) as [cancel |] eqn:Hc.
  - unfold bind at 1. unfold bind at 1. cbn [modify]. apply Hgen.
    + reflexivity.
    + intros j Hne. cbn. apply lookup_delete_ne. congruence.
  - rewrite bind_ret. apply Hgen; reflexivity.
Qed.

Lemma find_range_Some {rg : GoRange} {V : Type} (P : string * V -> bool)
    (jobs : gmap string V) k v :
  List.find P (range jobs) = Some (k, v) -> jobs !! k = Some v /\ P (k, v) = true.
Proof.
  intros Hfind. apply find_some in Hfind as [Hin HP]. split; [| exact HP].
  apply elem_of_map_to_list. rewrite <- range_perm. apply list_elem_of_In. exact Hin.
Qed.

Lemma startWorkerTask_spec {rg : GoRange} cancel eligible working m :
  (startWorkerTask cancel eligible working m = (Success None, m)) \/
  (exists jobID job,
      Jobs m !! jobID = Some job /\ Phase job = eligible /\
      startWorkerTask cancel eligible working m
      = (Success (Some jobID),
         set_jobCtxCancellers (<[jobID := cancel]> (jobCtxCancellers m))
           (set_Jobs (<[jobID := set_Phase working job]> (Jobs m)) m))).
Proof.
  unfold startWorkerTask. rewrite bind_get.
  destruct (List.find _ (range (Jobs m))) as [[jobID job] |] eqn:Hfind.
  - right. exists jobID, job.
    apply find_range_Some in Hfind as [Hj HP]. cbn in HP.
    apply bool_decide_eq_true in HP.
    split; [exact Hj |]. split; [exact HP |].
    rewrite (bind_success _ _ _ _ _ (changeJobPhaseLocked_spec jobID working m)).
    rewrite Hj. reflexivity.
  - left. reflexivity.
Qed.

Lemma startWorkerTask_keeps {rg : GoRange} cancel eligible working m :
  working_has_canceller m ->
  working_has_canceller (snd (startWorkerTask cancel eligible working m)).
Proof.
  intros Hinv.
  destruct (startWorkerTask_spec cancel eligible working m)
    as [-> | (jobID & job & Hj & Hph & ->)]; [exact Hinv |].
  intros j job'. cbn. rewrite lookup_insert_Some.
  intros [[<- <-] | [Hne Hj']] Hw.
  - rewrite lookup_insert_eq. eauto.
  - rewrite lookup_insert_ne by exact Hne. eapply Hinv; eassumption.
Qed.
Lemma retry_body_spec now jobID m :
  (m0 <- get ;;
   match errors m0 !! jobID with
   | None => ret tt
   | Some errState =>
       if time_Before now (nextRetry errState) then ret tt
       else
         changed <- resetInterruptedPhaseLocked jobID ;;
         if negb changed then ret tt
         else
           modify (fun m => set_errors (delete jobID (errors m)) m) ;;
           signal indexingSignal ;;
           signal copyingSignal ;;
           signal zippingSignal
   end) m = (Success tt, retry_one now jobID m).
Proof.
  rewrite bind_get. unfold retry_one.
  destruct (errors m !! jobID) as [es |]; [| reflexivity].
  destruct (time_Before now (nextRetry es)); [reflexivity |].
  unfold resetInterruptedPhaseLocked, changeJobPhaseLocked, bind, get, ret, modify, signal.
  destruct (Jobs m !! jobID) as [job |] eqn:Hjob; cbv [default from_option id];
    [| reflexivity].
  destruct (Phase job) eqn:Hph; cbn [working_phase reverted_phase negb]; try reflexivity.
  all: rewrite Hjob; reflexivity.
Qed.

Lemma for_each_pure {S E A : Type} (body : A -> M S E unit) (f : A -> S -> S) l s :
  (forall x s, body x s = (Success tt, f x s)) ->
  for_each l body s = (Success tt, fold_left (fun s x => f x s) l s).
Proof.
  intros Hbody. revert s. induction l as [| x l IH]; intros s; cbn [for_each fold_left].
  - reflexivity.
  - rewrite (bind_success _ _ _ _ _ (Hbody x s)). apply IH.
Qed.

Lemma errorRetryWorker_tick_spec {rg : GoRange} now m :
  errorRetryWorker_tick now m
  = (Success tt,
     fold_left (fun m jobID => retry_one now jobID m)
       (repeat ""%string (size (Jobs m)) ++ map fst (range (Jobs m))) m).
Proof.
  unfold errorRetryWorker_tick. rewrite bind_get.
  apply for_each_pure. intros jobID m0. apply retry_body_spec.
Qed.

(** A job in the map is among the IDs the tick visits. *)
Lemma ranged_jobID {rg : GoRange} {V : Type} (jobs : gmap string V) jobID v :
  jobs !! jobID = Some v -> jobID ∈ map fst (range jobs).
Proof.
  intros Hj. apply list_elem_of_In, in_map_iff. exists (jobID, v). split; [reflexivity |].
  apply list_elem_of_In. rewrite range_perm. apply elem_of_map_to_list. exact Hj.
Qed.


Lemma retry_one_keeps now j m :
  working_has_canceller m -> working_has_canceller (retry_one now j m).
Proof.
  intros Hinv. unfold retry_one.
  destruct (errors m !! j) as [es |]; [| exact Hinv].
  destruct (time_Before now (nextRetry es)); [exact Hinv |].
  destruct (Jobs m !! j) as [job |] eqn:Hj; [| exact Hinv].
  destruct (working_phase (Phase job)) eqn:Hw; [| exact Hinv].
  apply working_has_canceller_update with (m := m); [| auto | exact Hinv].
  intros k job'. cbn. rewrite lookup_insert_Some.
  intros [[<- <-] | [Hne Hk]] Hw'.
  - destruct (Phase job); cbn in Hw, Hw'; congruence.
  - eauto.
Qed.

Lemma errorRetryWorker_tick_keeps {rg : GoRange} now m :
  working_has_canceller m -> working_has_canceller (snd (errorRetryWorker_tick now m)).
Proof.
  rewrite errorRetryWorker_tick_spec. cbn [snd].
  generalize (repeat ""%string (size (Jobs m)) ++ map fst (range (Jobs m))).
  intros l. revert m. induction l as [| j l IH]; intros m Hinv; cbn [fold_left].
  - exact Hinv.
  - apply IH, retry_one_keeps, Hinv.
Qed.

Lemma doIndexing_keeps listResult jobID m :
  working_has_canceller m -> working_has_canceller (snd (doIndexing listResult jobID m)).
Proof.
  intros Hinv. unfold doIndexing. destruct listResult as [entries | e]; [| exact Hinv].
  rewrite bind_get. destruct (Jobs m !! jobID) as [job |] eqn:Hj; [| exact Hinv].
  apply working_has_canceller_update with (m := m); [| auto | exact Hinv].
  intros k job'. cbn. rewrite lookup_insert_Some.
  intros [[<- <-] | [Hne Hk]] Hw'; eauto.
Qed.

Lemma updateManifest_keeps jobID manifest m :
  working_has_canceller m -> working_has_canceller (snd (updateManifest jobID manifest m)).
Proof.
  intros Hinv. unfold updateManifest. rewrite bind_get.
  destruct (Jobs m !! jobID) as [job |] eqn:Hj.
  - apply working_has_canceller_update with (m := m); [| auto | exact Hinv].
    intros k job'. cbn. rewrite lookup_insert_Some.
    intros [[<- <-] | [Hne Hk]] Hw'; eauto.
  - destruct (map_to_list manifest); [| exact Hinv].
    apply working_has_canceller_update with (m := m); [| auto | exact Hinv].
    intros k job'. cbn. rewrite lookup_insert_Some.
    intros [[<- <-] | [Hne Hk]] Hw'; [discriminate | eauto].
Qed.

(** Storing back a job read from the map, with a counter changed. *)
Lemma counter_update_keeps jobID (f : SimpleFSArchiveJobState -> SimpleFSArchiveJobState) m :
  (forall job, Phase (f job) = Phase job) ->
  working_has_canceller m ->
  working_has_canceller
    (set_Jobs (<[jobID := f (default zero_job (Jobs m !! jobID))]> (Jobs m)) m).
Proof.
  intros Hf Hinv.
  apply working_has_canceller_update with (m := m); [| auto | exact Hinv].
  intros k job'. cbn. rewrite lookup_insert_Some.
  intros [[<- <-] | [Hne Hk]] Hw'; [| eauto].
  rewrite Hf in Hw'. destruct (Jobs m !! jobID) as [job |] eqn:Hj; cbn in Hw'.
  - eauto.
  - discriminate.
Qed.

(** [resetInterruptedPhaseLocked] as a function of the manager. *)
Lemma resetInterruptedPhaseLocked_spec jobID m :
  snd (resetInterruptedPhaseLocked jobID m)
  = match Jobs m !! jobID with
    | Some job =>
        if working_phase (Phase job)
        then set_Jobs (<[jobID := set_Phase (reverted_phase (Phase job)) job]> (Jobs m)) m
        else m
    | None => m
    end.
Proof.
  unfold resetInterruptedPhaseLocked. rewrite bind_get.
  destruct (Jobs m !! jobID) as [job |] eqn:Hj; cbv [default from_option id]; [| reflexivity].
  destruct (Phase job) eqn:Hph; cbn [working_phase reverted_phase]; try reflexivity.
  all: rewrite (bind_success _ _ _ _ _ (changeJobPhaseLocked_spec jobID _ m)), Hj; reflexivity.
Qed.

Lemma reset_not_working j jobID m :
  j = jobID \/ not_working jobID m ->
  not_working jobID (snd (resetInterruptedPhaseLocked j m)).
Proof.
  intros Hcase job. rewrite resetInterruptedPhaseLocked_spec.
  destruct (Jobs m !! j) as [job0 |] eqn:Hj0.
  - destruct (working_phase (Phase job0)) eqn:Hw0.
    + cbn. rewrite lookup_insert_Some. intros [[<- <-] | [Hne Hj]].
      * destruct (Phase job0); cbn in Hw0 |- *; congruence.
      * destruct Hcase as [-> | Hnw]; [congruence | apply Hnw; exact Hj].
    + intros Hj. destruct Hcase as [-> | Hnw]; [congruence | apply Hnw; exact Hj].
  - intros Hj. destruct Hcase as [-> | Hnw]; [congruence | apply Hnw; exact Hj].
Qed.

Lemma reset_keeps_fields j m :
  jobCtxCancellers (snd (resetInterruptedPhaseLocked j m)) = jobCtxCancellers m /\
  (forall k, is_Some (Jobs (snd (resetInterruptedPhaseLocked j m)) !! k) ->
             is_Some (Jobs m !! k)).
Proof.
  rewrite resetInterruptedPhaseLocked_spec.
  destruct (Jobs m !! j) as [job0 |] eqn:Hj0; [| auto].
  destruct (working_phase (Phase job0)); [| auto].
  split; [reflexivity |]. intros k. cbn. rewrite lookup_insert_is_Some.
  intros [<- | [_ Hk]]; [eauto | exact Hk].
Qed.

Lemma reset_round_succeeds j m :
  (_ <- resetInterruptedPhaseLocked j ;; ret tt) m
  = (Success tt, snd (resetInterruptedPhaseLocked j m)).
Proof.
  unfold resetInterruptedPhaseLocked, changeJobPhaseLocked, bind, get, ret, modify.
  destruct (Jobs m !! j) as [job |] eqn:Hj; cbv [default from_option id]; [| reflexivity].
  destruct (Phase job); try reflexivity; rewrite Hj; reflexivity.
Qed.

Lemma resets_spec l m :
  for_each l (fun jobID => _ <- resetInterruptedPhaseLocked jobID ;; ret tt) m
  = (Success tt, fold_left (fun m j => snd (resetInterruptedPhaseLocked j m)) l m).
Proof. apply for_each_pure. intros j m0. apply reset_round_succeeds. Qed.

Lemma resets_not_working l :
  forall m jobID,
    jobID ∈ l \/ not_working jobID m ->
    not_working jobID (fold_left (fun m j => snd (resetInterruptedPhaseLocked j m)) l m).
Proof.
  induction l as [| j l IH]; intros m jobID Hcase; cbn [fold_left].
  - destruct Hcase as [Hin | Hnw]; [apply elem_of_nil in Hin; contradiction | exact Hnw].
  - apply IH. destruct Hcase as [Hin | Hnw].
    + apply elem_of_cons in Hin as [-> | Hin]; [| left; exact Hin].
      right. apply reset_not_working. left. reflexivity.
    + right. apply reset_not_working. right. exact Hnw.
Qed.

Lemma resets_keep_fields l :
  forall m,
    jobCtxCancellers (fold_left (fun m j => snd (resetInterruptedPhaseLocked j m)) l m)
    = jobCtxCancellers m /\
    (forall k,
        is_Some (Jobs (fold_left (fun m j => snd (resetInterruptedPhaseLocked j m)) l m) !! k) ->
        is_Some (Jobs m !! k)).
Proof.
  induction l as [| j l IH]; intros m; cbn [fold_left].
  - auto.
  - destruct (IH (snd (resetInterruptedPhaseLocked j m))) as [Hc1 Hk1].
    destruct (reset_keeps_fields j m) as [Hc Hk].
    split; [congruence | auto].
Qed.

Lemma newArchiveManager_invariant {rg : GoRange} loaded :
  working_has_canceller (newArchiveManager loaded).
Proof.
  unfold newArchiveManager. intros jobID job.
  destruct loaded as [jobs |]; cbn -[resetInterruptedPhasesLocked].
  - unfold resetInterruptedPhasesLocked. rewrite bind_get.
    set (m0 := set_Jobs jobs _). rewrite resets_spec. cbn [snd].
    intros Hj Hw. exfalso.
    pose proof (resets_keep_fields (map fst (range (Jobs m0))) m0) as [_ Hk].
    assert (Hin : jobID ∈ map fst (range (Jobs m0))).
    { destruct (Hk jobID (mk_is_Some _ _ Hj)) as [job0 Hj0]. eapply ranged_jobID. exact Hj0. }
    pose proof (resets_not_working _ m0 jobID (or_introl Hin) job Hj). congruence.
  - rewrite lookup_empty. discriminate.
Qed.

Lemma step_keeps m m' :
  step m m' -> working_has_canceller m -> working_has_canceller m'.
Proof.
  intros Hstep Hinv. destruct Hstep.
  - apply startJob_keeps, Hinv.
  - apply cancelOrDismissJob_keeps, Hinv.
  - apply startWorkerTask_keeps, Hinv.
  - apply startWorkerTask_keeps, Hinv.
  - apply startWorkerTask_keeps, Hinv.
  - apply changeJobPhase_keeps; [reflexivity | exact Hinv].
  - apply changeJobPhase_keeps; [reflexivity | exact Hinv].
  - apply changeJobPhase_keeps; [reflexivity | exact Hinv].
  - exact Hinv.
  - apply errorRetryWorker_tick_keeps, Hinv.
  - apply doIndexing_keeps, Hinv.
  - apply updateManifest_keeps, Hinv.
  - apply (counter_update_keeps jobID (fun job => set_BytesCopied _ job)); [reflexivity | exact Hinv].
  - apply (counter_update_keeps jobID (set_BytesZipped 0)); [reflexivity | exact Hinv].
  - apply (counter_update_keeps jobID (fun job => set_BytesZipped _ job)); [reflexivity | exact Hinv].
  - destruct ch; exact Hinv.
  - destruct ch; exact Hinv.
  - destruct ctx_done; exact Hinv.
Qed.

Lemma reachable_invariant m : reachable m -> working_has_canceller m.
Proof.
  induction 1 as [rg loaded | m m' Hr IH Hstep].
  - apply newArchiveManager_invariant.
  - eapply step_keeps; eassumption.
Qed.

Lemma retry_one_cancellers now j m :
  jobCtxCancellers (retry_one now j m) = jobCtxCancellers m.
Proof.
  unfold retry_one.
  destruct (errors m !! j) as [es |]; [| reflexivity].
  destruct (time_Before now (nextRetry es)); [reflexivity |].
  destruct (Jobs m !! j) as [job |]; [| reflexivity].
  destruct (working_phase (Phase job)); reflexivity.
Qed.

Lemma errorRetryWorker_tick_cancellers {rg : GoRange} now m :
  jobCtxCancellers (snd (errorRetryWorker_tick now m)) = jobCtxCancellers m.
Proof.
  rewrite errorRetryWorker_tick_spec. cbn [snd].
  generalize (repeat ""%string (size (Jobs m)) ++ map fst (range (Jobs m))).
  intros l. revert m. induction l as [| j l IH]; intros m; cbn [fold_left].
  - reflexivity.
  - rewrite IH. apply retry_one_cancellers.
Qed.

(** Only [cancelOrDismissJob] takes a cancel function out of the map. *)
Lemma step_keeps_cancellers m m' jobID :
  step m m' ->
  is_Some (jobCtxCancellers m !! jobID) ->
  is_Some (jobCtxCancellers m' !! jobID) \/ m' = snd (cancelOrDismissJob jobID m).
Proof.
  intros Hstep Hc. destruct Hstep.
  - left. unfold startJob. rewrite bind_get.
    destruct (Jobs m !! JobID desc); [exact Hc |].
    unfold bind, modify, signal, flushStateFileLocked. destruct ctx_done; exact Hc.
  - destruct (decide (jobID0 = jobID)) as [-> | Hne]; [right; reflexivity | left].
    unfold cancelOrDismissJob. rewrite bind_get.
    destruct (jobCtxCancellers m !! jobID0) as [cancel |] eqn:Hc0.
    + unfold bind at 1. unfold bind at 1. cbn [modify]. rewrite bind_get.
      match goal with |- context [Jobs ?x !! jobID0] =>
        destruct (Jobs x !! jobID0) end; cbn; rewrite lookup_delete_ne by exact Hne; exact Hc.
    + rewrite bind_ret, bind_get. destruct (Jobs m !! jobID0); exact Hc.
  - left. destruct (startWorkerTask_spec cancel Queued Indexing m)
      as [-> | (j & job & _ & _ & ->)]; [exact Hc |].
    cbn. rewrite lookup_insert_is_Some. destruct (decide (j = jobID)); auto.
  - left. destruct (startWorkerTask_spec cancel Indexed Copying m)
      as [-> | (j & job & _ & _ & ->)]; [exact Hc |].
    cbn. rewrite lookup_insert_is_Some. destruct (decide (j = jobID)); auto.
  - left. destruct (startWorkerTask_spec cancel Copied Zipping m)
      as [-> | (j & job & _ & _ & ->)]; [exact Hc |].
    cbn. rewrite lookup_insert_is_Some. destruct (decide (j = jobID)); auto.
  - left. unfold changeJobPhase. rewrite changeJobPhaseLocked_spec. cbn [snd].
    destruct (Jobs m !! jobID0); exact Hc.
  - left. unfold changeJobPhase. rewrite changeJobPhaseLocked_spec. cbn [snd].
    destruct (Jobs m !! jobID0); exact Hc.
  - left. unfold changeJobPhase. rewrite changeJobPhaseLocked_spec. cbn [snd].
    destruct (Jobs m !! jobID0); exact Hc.
  - left. exact Hc.
  - left. rewrite errorRetryWorker_tick_cancellers. exact Hc.
  - left. unfold doIndexing. destruct listResult; [| exact Hc].
    rewrite bind_get. destruct (Jobs m !! jobID0); exact Hc.
  - left. unfold updateManifest. rewrite bind_get.
    destruct (Jobs m !! jobID0); [exact Hc |]. destruct (map_to_list manifest); exact Hc.
  - left. exact Hc.
  - left. exact Hc.
  - left. exact Hc.
  - left. destruct ch; exact Hc.
  - left. destruct ch; exact Hc.
  - left. destruct ctx_done; exact Hc.
Qed.
End ManagerInvariant.

Section ChatSet.
Import Chat.

Lemma Set_handles (cancel : option CancelArchiveFn) (job : ArchiveChatJob)
    (r r0 : ChatArchiveRegistry) :
  initLocked r = (Success tt, r0) ->
  exists r',
    Set_ cancel job r = (Success tt, r') /\
    jobHistory r' = <[JobID (Request job) := job]> (jobHistory r0) /\
    runningJobs r'
    = match Status job with
      | COMPLETE | ERROR => delete (JobID (Request job)) (runningJobs r0)
      | RUNNING =>
          match cancel with
          | Some c => <[JobID (Request job) := Some c]> (runningJobs r0)
          | None => runningJobs r0
          end
      | _ => runningJobs r0
      end.
Proof.
  intros Hinit. unfold Set_. rewrite (bind_success _ _ _ _ _ Hinit).
  destruct (Status job); [destruct cancel |..]; eexists; (split; [reflexivity |]);
    split; reflexivity.
Qed.
End ChatSet.


Section RetryProperties.
Import SimpleFS.

Lemma retry_one_other now j jobID m :
  j <> jobID ->
  Jobs (retry_one now j m) !! jobID = Jobs m !! jobID /\
  errors (retry_one now j m) !! jobID = errors m !! jobID.
Proof.
  intros Hne. unfold retry_one.
  destruct (errors m !! j) as [es |]; [| auto].
  destruct (time_Before now (nextRetry es)); [auto |].
  destruct (Jobs m !! j) as [job |]; [| auto].
  destruct (working_phase (Phase job)); [| auto].
  cbn. rewrite lookup_insert_ne, lookup_delete_ne by exact Hne. auto.
Qed.

Lemma retry_one_signals now j m ch :
  get_signal ch m = true -> get_signal ch (retry_one now j m) = true.
Proof.
  intros Hs. unfold retry_one.
  destruct (errors m !! j) as [es |]; [| exact Hs].
  destruct (time_Before now (nextRetry es)); [exact Hs |].
  destruct (Jobs m !! j) as [job |]; [| exact Hs].
  destruct (working_phase (Phase job)); [| exact Hs].
  destruct ch; reflexivity.
Qed.

Lemma retried_stable now jobID job l :
  forall m, retried jobID job m ->
            retried jobID job (fold_left (fun m j => retry_one now j m) l m).
Proof.
  induction l as [| j l IH]; intros m Hr; cbn [fold_left]; [exact Hr |].
  apply IH. destruct Hr as (Hj & He & Hi & Hc & Hz).
  destruct (decide (j = jobID)) as [-> | Hne].
  - unfold retry_one. rewrite He. repeat split; assumption.
  - destruct (retry_one_other now j jobID m Hne) as [Hj' He'].
    repeat split.
    + rewrite Hj'. exact Hj.
    + rewrite He'. exact He.
    + apply (retry_one_signals now j m indexingSignal Hi).
    + apply (retry_one_signals now j m copyingSignal Hc).
    + apply (retry_one_signals now j m zippingSignal Hz).
Qed.

Lemma retry_one_due now jobID job es m :
  pending_retry jobID job es m -> nextRetry es <= now ->
  working_phase (Phase job) = true ->
  retried jobID job (retry_one now jobID m).
Proof.
  intros [Hj He] Hdue Hw. unfold retry_one, time_Before. rewrite He, Hj, Hw.
  destruct (Z.ltb_spec now (nextRetry es)); [lia |].
  repeat split; cbn.
  - apply lookup_insert_eq.
  - apply lookup_delete_eq.
Qed.

Lemma retry_one_unexpected_phase now jobID job es m :
  pending_retry jobID job es m -> working_phase (Phase job) = false ->
  retry_one now jobID m = m.
Proof.
  intros [Hj He] Hw. unfold retry_one. rewrite He, Hj, Hw.
  destruct (time_Before now (nextRetry es)); reflexivity.
Qed.

Lemma pending_retry_other now j jobID job es m :
  j <> jobID -> pending_retry jobID job es m -> pending_retry jobID job es (retry_one now j m).
Proof.
  intros Hne [Hj He]. destruct (retry_one_other now j jobID m Hne) as [Hj' He'].
  split; congruence.
Qed.

Lemma retry_visits now jobID job es l :
  nextRetry es <= now -> working_phase (Phase job) = true ->
  forall m, pending_retry jobID job es m -> jobID ∈ l ->
            retried jobID job (fold_left (fun m j => retry_one now j m) l m).
Proof.
  intros Hdue Hw. induction l as [| j l IH]; intros m Hp Hin; cbn [fold_left].
  - apply elem_of_nil in Hin. contradiction.
  - destruct (decide (j = jobID)) as [-> | Hne].
    + apply retried_stable. eapply retry_one_due; eassumption.
    + apply IH.
      * apply pending_retry_other; assumption.
      * apply elem_of_cons in Hin as [Heq | Hin]; [congruence | exact Hin].
Qed.

Lemma retry_leaves_unexpected_phase now jobID job es l :
  working_phase (Phase job) = false ->
  forall m, pending_retry jobID job es m ->
            pending_retry jobID job es (fold_left (fun m j => retry_one now j m) l m).
Proof.
  intros Hw. induction l as [| j l IH]; intros m Hp; cbn [fold_left]; [exact Hp |].
  apply IH. destruct (decide (j = jobID)) as [-> | Hne].
  - rewrite (retry_one_unexpected_phase now jobID job es m Hp Hw). exact Hp.
  - apply pending_retry_other; assumption.
Qed.
End RetryProperties.

(** C3: for every job that has an error record whose [nextRetry] is not
    after the clock, one tick of the retry worker puts a job in phase
    Indexing back to Queued, one in Copying back to Indexed and one in
    Zipping back to Copied, removes the error record and leaves a token in
    each of the three signal channels; a job in any other phase, and its
    error record, are left as they were. *)
Theorem C3_errorRetryWorker_reverts_phase :
  forall (rg : GoRange) (now : Z) (m : SimpleFS.archiveManager) (jobID : string)
         (job : SimpleFS.SimpleFSArchiveJobState) (es : SimpleFS.errorState),
    SimpleFS.Jobs m !! jobID = Some job ->
    SimpleFS.errors m !! jobID = Some es ->
    SimpleFS.nextRetry es <= now ->
    let m' := snd (SimpleFS.errorRetryWorker_tick now m) in
    fst (SimpleFS.errorRetryWorker_tick now m) = Success tt /\
    (SimpleFS.Phase job = SimpleFS.Indexing \/ SimpleFS.Phase job = SimpleFS.Copying \/
     SimpleFS.Phase job = SimpleFS.Zipping ->
     SimpleFS.Jobs m' !! jobID
     = Some (SimpleFS.set_Phase (SimpleFS.reverted_phase (SimpleFS.Phase job)) job) /\
     SimpleFS.errors m' !! jobID = None /\
     SimpleFS.indexingWorkerSignal m' = true /\
     SimpleFS.copyingWorkerSignal m' = true /\
     SimpleFS.zippingWorkerSignal m' = true) /\
    (SimpleFS.Phase job <> SimpleFS.Indexing -> SimpleFS.Phase job <> SimpleFS.Copying ->
     SimpleFS.Phase job <> SimpleFS.Zipping ->
     SimpleFS.Jobs m' !! jobID = Some job /\ SimpleFS.errors m' !! jobID = Some es).
Proof.
  intros rg now m jobID job es Hj He Hdue m'. subst m'.
  rewrite errorRetryWorker_tick_spec. cbn [fst snd].
  split; [reflexivity |]. split.
  - intros Hph.
    assert (Hw : SimpleFS.working_phase (SimpleFS.Phase job) = true)
      by (destruct Hph as [-> | [-> | ->]]; reflexivity).
    apply (retry_visits now jobID job es); try assumption.
    + split; assumption.
    + apply elem_of_app. right. eapply ranged_jobID. exact Hj.
  - intros H1 H2 H3.
    assert (Hw : SimpleFS.working_phase (SimpleFS.Phase job) = false)
      by (destruct (SimpleFS.Phase job); try reflexivity; congruence).
    apply (retry_leaves_unexpected_phase now jobID job es); [exact Hw |].
    split; assumption.
Qed.


(** ** The stage workers *)

Section WorkerProperties.
Import SimpleFS.
Variable sha : list Byte.byte -> list Byte.byte.
Variable zip_encode : list (string * OS.node) -> list Byte.byte.
Context {rg : GoRange} {srt : GoSort}.

Lemma locked_run {A : Type} (c : MM A) (w : World archiveManager) :
  locked c w = (fst (c (user w)), set_user (snd (c (user w))) w).
Proof. unfold locked, lift. destruct (c (user w)); reflexivity. Qed.

Lemma preserves_locked (I : archiveManager -> Prop) {A : Type} (c : MM A) :
  (forall m, I m -> I (snd (c m))) -> preserves I (locked c).
Proof. intros Hc w Hw. rewrite locked_run. cbn. apply Hc. exact Hw. Qed.

Section InPhase.
Variable jobID : string.
Variable ph : SimpleFSArchiveJobPhase.

Lemma in_phase_counter (f : SimpleFSArchiveJobState -> SimpleFSArchiveJobState) j m :
  (forall job, Phase (f job) = Phase job) ->
  in_phase jobID ph m ->
  in_phase jobID ph (set_Jobs (<[j := f (default zero_job (Jobs m !! j))]> (Jobs m)) m).
Proof.
  intros Hf Hin. unfold in_phase in *. cbn.
  destruct (decide (j = jobID)) as [-> | Hne].
  - rewrite lookup_insert_eq. cbn. rewrite Hf.
    destruct (Jobs m !! jobID); [exact Hin | discriminate].
  - rewrite lookup_insert_ne by exact Hne. exact Hin.
Qed.

Lemma in_phase_updateManifest j manifest m :
  in_phase jobID ph m -> in_phase jobID ph (snd (updateManifest j manifest m)).
Proof.
  intros Hin. unfold updateManifest. rewrite bind_get.
  destruct (Jobs m !! j) as [job |] eqn:Hj.
  - unfold in_phase in *. cbn.
    destruct (decide (j = jobID)) as [-> | Hne].
    + rewrite lookup_insert_eq. rewrite Hj in Hin. exact Hin.
    + rewrite lookup_insert_ne by exact Hne. exact Hin.
  - destruct (map_to_list manifest); [| exact Hin].
    unfold in_phase in *. cbn.
    destruct (decide (j = jobID)) as [-> | Hne].
    + rewrite Hj in Hin. discriminate.
    + rewrite lookup_insert_ne by exact Hne. exact Hin.
Qed.

Lemma in_phase_doIndexing listResult j m :
  in_phase jobID ph m -> in_phase jobID ph (snd (doIndexing listResult j m)).
Proof.
  intros Hin. unfold doIndexing. destruct listResult as [entries | e]; [| exact Hin].
  rewrite bind_get. destruct (Jobs m !! j) as [job |] eqn:Hj; [| exact Hin].
  unfold in_phase in *. cbn.
  destruct (decide (j = jobID)) as [-> | Hne].
  - rewrite lookup_insert_eq. rewrite Hj in Hin. exact Hin.
  - rewrite lookup_insert_ne by exact Hne. exact Hin.
Qed.

Lemma preserves_loopEntryPaths srcDirFS j dstBase entryPaths :
  forall manifest,
    preserves (in_phase jobID ph) (loopEntryPaths sha srcDirFS j dstBase entryPaths manifest).
Proof.
  induction entryPaths as [| entry rest IH]; intros manifest; cbn [loopEntryPaths].
  - apply preserves_ret.
  - apply preserves_bind.
    { apply preserves_locked. intros m. apply in_phase_updateManifest. }
    intros _. destruct (srcDirFS !! entry) as [[mtime | link resolves | exec mtime data] |].
    + apply preserves_bind; [apply preserves_wrap_err, preserves_os_call |]. intros _.
      apply preserves_bind; [apply preserves_wrap_err, preserves_os_call |]. intros _.
      apply preserves_bind.
      { apply preserves_locked. intros m. apply in_phase_updateManifest. }
      intros _. apply IH.
    + apply preserves_bind; [apply preserves_wrap_err, preserves_os_call |]. intros _.
      destruct (negb resolves); [apply IH |].
      apply preserves_bind; [apply preserves_wrap_err, preserves_os_call |]. intros _.
      apply preserves_bind.
      { apply preserves_locked. intros m. apply in_phase_updateManifest. }
      intros _. apply IH.
    + apply preserves_bind; [apply preserves_wrap_err, preserves_os_call |]. intros _.
      apply preserves_bind; [apply preserves_get |]. intros w.
      apply preserves_bind.
      { apply preserves_copyFile. intros delta m.
        apply (in_phase_counter (fun job => set_BytesCopied _ job)). reflexivity. }
      intros sum.
      apply preserves_bind; [apply preserves_wrap_err, preserves_os_call |]. intros _.
      apply preserves_bind.
      { apply preserves_locked. intros m. apply in_phase_updateManifest. }
      intros _. apply IH.
    + apply preserves_fail.
Qed.

Lemma preserves_doCopying src j : preserves (in_phase jobID ph) (doCopying sha src j).
Proof.
  unfold doCopying. apply preserves_bind; [apply preserves_get |]. intros w.
  apply preserves_bind; [apply preserves_wrap_err, preserves_lift_result |].
  intros srcDirFS. apply preserves_loopEntryPaths.
Qed.

Lemma preserves_zipWriterAddDir dirPath j :
  preserves (in_phase jobID ph) (zipWriterAddDir dirPath (updateBytesZipped j)).
Proof.
  unfold zipWriterAddDir. apply preserves_bind; [apply preserves_get |]. intros w.
  destruct (os w !! dirPath) as [[mt | tg | p t d] |]; try apply preserves_fail.
  apply preserves_bind; [| intros _; apply preserves_ret].
  apply preserves_for_each. intros [name node].
  destruct node as [mt' | tg | p t d]; cbn [snd]; try apply preserves_ret.
  apply preserves_bind; [| intros _; apply preserves_ret].
  apply preserves_try, preserves_ctxAwareCopy.
  - intros delta m. apply (in_phase_counter (fun job => set_BytesZipped _ job)). reflexivity.
  - intros b. apply preserves_ret.
Qed.

Lemma preserves_doZipping j : preserves (in_phase jobID ph) (doZipping zip_encode j).
Proof.
  unfold doZipping. apply preserves_bind; [apply preserves_get |]. intros w.
  apply preserves_bind.
  { apply preserves_on_user. intros m. apply (in_phase_counter (set_BytesZipped 0)). reflexivity. }
  intros _. apply preserves_bind.
  - apply preserves_bind; [apply preserves_wrap_err, preserves_os_call |]. intros _.
    apply preserves_bind; [apply preserves_try, preserves_zipWriterAddDir |].
    intros [added | e]; [apply preserves_os_call |].
    apply preserves_bind; [apply preserves_try, preserves_os_call |].
    intros _. apply preserves_fail.
  - intros _. apply preserves_bind; [apply preserves_try, preserves_os_call |].
    intros _. apply preserves_ret.
Qed.

Lemma preserves_stage_work s j :
  preserves (in_phase jobID ph) (stage_work sha zip_encode s j).
Proof.
  destruct s as [listResult | src |]; cbn [stage_work].
  - apply preserves_locked. intros m. apply in_phase_doIndexing.
  - apply preserves_doCopying.
  - apply preserves_doZipping.
Qed.
End InPhase.

Lemma stage_worker_round s :
  stage_worker sha zip_encode s
  = worker_round (stage_signal s)
      (match s with
       | IndexingStage _ => Some copyingSignal
       | CopyingStage _ => Some zippingSignal
       | ZippingStage => None
       end)
      (stage_eligible s) (stage_working s)
      (match s with IndexingStage _ => Indexed | CopyingStage _ => Copied | ZippingStage => Done end)
      (stage_work sha zip_encode s).
Proof. destruct s; reflexivity. Qed.

Lemma worker_failure (s : stage) cancel now (w w1 w2 : World archiveManager) jobID e :
  locked (startWorkerTask cancel (stage_eligible s) (stage_working s))
    (snd (locked (receive (stage_signal s)) w)) = (Success (Some jobID), w1) ->
  stage_work sha zip_encode s jobID (snd (locked (signal (stage_signal s)) w1))
  = (Failure e, w2) ->
  stage_worker sha zip_encode s cancel now w
  = (Success tt,
     set_user
       (set_stateFile (Some (Jobs (user w2)))
          (set_errors (<[jobID := {| err := e;
                                     nextRetry := time_Add now archiveErrorRetryDuration |}]>
                         (errors (user w2))) (user w2))) w2).
Proof.
  intros Hclaim Hwork. rewrite stage_worker_round. unfold worker_round.
  assert (H0 : locked (receive (stage_signal s)) w
               = (Success tt, snd (locked (receive (stage_signal s)) w))) by reflexivity.
  rewrite (bind_success _ _ _ _ _ H0), (bind_success _ _ _ _ _ Hclaim).
  assert (H1 : locked (signal (stage_signal s)) w1
               = (Success tt, snd (locked (signal (stage_signal s)) w1))) by reflexivity.
  rewrite (bind_success _ _ _ _ _ H1).
  erewrite (bind_success _ _ _ (Failure e) w2); [| unfold try; rewrite Hwork; reflexivity].
  reflexivity.
Qed.
End WorkerProperties.

(** C2 (amended): when the work of a stage worker (indexing, copying or
    zipping) fails on the job the worker has claimed, the round ends with
    the job still in the stage's working phase (Indexing, Copying or
    Zipping; no phase is set to mark the error) and with an error record for
    the job whose [nextRetry] is the clock at the failure plus 60 seconds. *)
Theorem C2_worker_failure_schedules_retry :
  forall (sha : list Byte.byte -> list Byte.byte)
         (zip_encode : list (string * OS.node) -> list Byte.byte)
         (rg : GoRange) (srt : GoSort) (s : SimpleFS.stage)
         (cancel : SimpleFS.CancelFunc) (now : Z)
         (w w1 w2 : SimpleFS.World SimpleFS.archiveManager) (jobID : string)
         (e : SimpleFS.error),
    SimpleFS.locked
      (SimpleFS.startWorkerTask cancel (SimpleFS.stage_eligible s) (SimpleFS.stage_working s))
      (snd (SimpleFS.locked (SimpleFS.receive (SimpleFS.stage_signal s)) w))
    = (Success (Some jobID), w1) ->
    SimpleFS.stage_work sha zip_encode s jobID
      (snd (SimpleFS.locked (SimpleFS.signal (SimpleFS.stage_signal s)) w1))
    = (Failure e, w2) ->
    exists w3,
      SimpleFS.stage_worker sha zip_encode s cancel now w = (Success tt, w3) /\
      SimpleFS.Phase <$> (SimpleFS.Jobs (SimpleFS.user w3) !! jobID)
      = Some (SimpleFS.stage_working s) /\
      SimpleFS.errors (SimpleFS.user w3) !! jobID
      = Some {| SimpleFS.err := e; SimpleFS.nextRetry := now + 60 * SimpleFS.time_Second |}.
Proof.
  intros sha zip_encode rg srt s cancel now w w1 w2 jobID e Hclaim Hwork.
  eexists. split; [apply (worker_failure sha zip_encode s cancel now w w1 w2 jobID e);
                   assumption |].
  split.
  - cbn [SimpleFS.user SimpleFS.set_user SimpleFS.Jobs SimpleFS.set_stateFile
           SimpleFS.set_errors].
    pose proof (preserves_stage_work sha zip_encode jobID (SimpleFS.stage_working s) s jobID
                  (snd (SimpleFS.locked (SimpleFS.signal (SimpleFS.stage_signal s)) w1)))
      as Hpres.
    rewrite Hwork in Hpres. apply Hpres. clear Hpres Hwork.
    rewrite !locked_run in *. cbn [snd fst] in *.
    destruct (startWorkerTask_spec cancel (SimpleFS.stage_eligible s)
                (SimpleFS.stage_working s)
                (SimpleFS.user
                   (SimpleFS.set_user
                      (snd (SimpleFS.receive (SimpleFS.stage_signal s) (SimpleFS.user w))) w)))
      as [Hnone | (j & job & Hj & Hph & Hsome)].
    + rewrite Hnone in Hclaim. discriminate.
    + rewrite Hsome in Hclaim. cbn [fst snd] in Hclaim. inversion Hclaim; subst j w1.
      unfold SimpleFS.in_phase. destruct s; cbn; rewrite lookup_insert_eq; reflexivity.
  - cbn. apply lookup_insert_eq.
Qed.

(** ** The copying of a job

    While the copier works on one entry, the files of the other entries
    and the records made of them stay as they are; so what the copy of an
    entry leaves on disk and in the manifest is still there when the
    copying of the job ends. *)

Section FsPreservation.
Import SimpleFS.
Context {St : Type}.
Variable P : gmap string OS.node -> Prop.

Lemma preserves_fs_ret {A : Type} (a : A) : preserves_fs (St := St) P (ret a).
Proof. intros w Hw. exact Hw. Qed.

Lemma preserves_fs_fail {A : Type} (e : error) : preserves_fs (St := St) P (@fail _ _ A e).
Proof. intros w Hw. exact Hw. Qed.

Lemma preserves_fs_bind {A B : Type} (c : M (World St) error A) (k : A -> M (World St) error B) :
  preserves_fs P c -> (forall a, preserves_fs P (k a)) -> preserves_fs P (bind c k).
Proof.
  intros Hc Hk w Hw. unfold bind. specialize (Hc w Hw).
  destruct (c w) as [[a | e] w1]; cbn [snd] in *.
  - apply Hk. exact Hc.
  - exact Hc.
Qed.


Lemma preserves_fs_try {A : Type} (c : M (World St) error A) :
  preserves_fs P c -> preserves_fs P (try c).
Proof.
  intros Hc w Hw. unfold try. specialize (Hc w Hw). destruct (c w) as [r w1]. exact Hc.
Qed.

Lemma preserves_fs_wrap_err {A : Type} site (c : M (World St) error A) :
  preserves_fs P c -> preserves_fs P (wrap_err site c).
Proof.
  intros Hc w Hw. unfold wrap_err. specialize (Hc w Hw).
  destruct (c w) as [[a | e] w1]; exact Hc.
Qed.

Lemma preserves_fs_os_call {A : Type} (c : M (gmap string OS.node) OS.errno A) :
  (forall fs, P fs -> P (snd (c fs))) -> preserves_fs (St := St) P (os_call c).
Proof.
  intros Hc w Hw. unfold os_call. specialize (Hc (os w) Hw).
  destruct (c (os w)) as [[a | e] fs]; exact Hc.
Qed.

Lemma preserves_fs_ctx_Done : preserves_fs (St := St) P ctx_Done.
Proof. intros w Hw. unfold ctx_Done. destruct (ctx w) as [[| k] |]; exact Hw. Qed.

Lemma preserves_fs_on_user (f : St -> St) : preserves_fs P (on_user f).
Proof. intros w Hw. exact Hw. Qed.

Lemma preserves_fs_lift_result {A : Type} (r : result error A) :
  preserves_fs (St := St) P (lift_result r).
Proof. destruct r; [apply preserves_fs_ret | apply preserves_fs_fail]. Qed.

Lemma preserves_fs_run {A : Type} (c : M (World St) error A) w r w' :
  preserves_fs P c -> c w = (r, w') -> P (os w) -> P (os w').
Proof. intros Hc Hrun Hw. specialize (Hc w Hw). rewrite Hrun in Hc. exact Hc. Qed.

Section Copy.
Variable sha : list Byte.byte -> list Byte.byte.
Variable upd : bytesUpdaterFunc St.

Lemma preserves_fs_ctxAwareCopy_loop {R : Type} `{Reader R} fuel :
  forall (to : list Byte.byte -> M (World St) error unit) (from : R),
    (forall b, preserves_fs P (to b)) ->
    preserves_fs P (ctxAwareCopy_loop fuel to from upd).
Proof.
  induction fuel as [| fuel IH]; intros to from Hto; cbn [ctxAwareCopy_loop].
  - apply preserves_fs_fail.
  - apply preserves_fs_bind; [apply preserves_fs_ctx_Done |].
    intros [|]; [apply preserves_fs_fail |].
    apply preserves_fs_bind.
    + unfold io_CopyN. destruct (Read from chunkSize) as [b from'].
      apply preserves_fs_bind; [apply Hto | intros _; apply preserves_fs_ret].
    + intros [[n eof] from'].
      apply preserves_fs_bind; [apply preserves_fs_on_user |].
      intros _. destruct eof; [apply preserves_fs_ret | apply IH; exact Hto].
Qed.

Variable path : string.
Hypothesis OpenFile_keeps : forall flag perm fs, P fs -> P (snd (OS.OpenFile path flag perm fs)).
Hypothesis Write_keeps : forall b fs, P fs -> P (snd (OS.Write path b fs)).
Hypothesis ReadFile_keeps : forall fs, P fs -> P (snd (OS.ReadFile path fs)).

Lemma preserves_fs_copyFileFromBeginning srcDirFS entry mode :
  preserves_fs P (copyFileFromBeginning sha srcDirFS entry path mode upd).
Proof.
  unfold copyFileFromBeginning.
  apply preserves_fs_bind.
  { unfold srcDirFS_Open. destruct (srcDirFS !! entry) as [[| |] |];
      first [apply preserves_fs_ret | apply preserves_fs_fail]. }
  intros src. apply preserves_fs_bind.
  { apply preserves_fs_wrap_err, preserves_fs_os_call, OpenFile_keeps. }
  intros _. apply preserves_fs_bind.
  - apply preserves_fs_wrap_err, preserves_fs_ctxAwareCopy_loop. intros b.
    apply preserves_fs_os_call, Write_keeps.
  - intros tee. apply preserves_fs_ret.
Qed.

Lemma preserves_fs_copyFile srcDirFS entry seek mode :
  preserves_fs P (copyFile sha srcDirFS entry path seek mode upd).
Proof.
  unfold copyFile. destruct (seek =? 0); [apply preserves_fs_copyFileFromBeginning |].
  unfold copyFilePickupPrevious.
  apply preserves_fs_bind.
  { unfold srcDirFS_Open. destruct (srcDirFS !! entry) as [[| |] |];
      first [apply preserves_fs_ret | apply preserves_fs_fail]. }
  intros src. apply preserves_fs_bind; [apply preserves_fs_wrap_err, preserves_fs_lift_result |].
  intros src1. apply preserves_fs_bind.
  { apply preserves_fs_bind.
    { apply preserves_fs_wrap_err, preserves_fs_os_call, OpenFile_keeps. }
    intros _. apply preserves_fs_wrap_err, preserves_fs_ctxAwareCopy_loop.
    intros b. apply preserves_fs_os_call, Write_keeps. }
  intros src2. apply preserves_fs_bind; [apply preserves_fs_wrap_err, preserves_fs_lift_result |].
  intros src3. destruct (io_Copy_all src3) as [srcBytes src4].
  apply preserves_fs_bind.
  { apply preserves_fs_wrap_err, preserves_fs_os_call, ReadFile_keeps. }
  intros dstBytes. destruct (negb _).
  - apply preserves_fs_bind; [apply preserves_fs_on_user |].
    intros _. apply preserves_fs_copyFileFromBeginning.
  - apply preserves_fs_ret.
Qed.
End Copy.
End FsPreservation.

(** The calls of the [os] package on another path, and [os.MkdirAll] on
    any path, leave the node at [q] in place. *)
Section NodeKept.
Variable q : string.
Variable n : OS.node.

Lemma OpenFile_other name flag perm fs :
  name <> q -> fs !! q = Some n -> snd (OS.OpenFile name flag perm fs) !! q = Some n.
Proof.
  intros Hne Hq. unfold OS.OpenFile.
  destruct (fs !! name) as [[mt | tg | p t d] |];
    repeat match goal with |- context [if ?b then _ else _] => destruct b end;
    cbn [snd]; rewrite ?lookup_insert_ne by exact Hne; exact Hq.
Qed.

Lemma Write_other name b fs :
  name <> q -> fs !! q = Some n -> snd (OS.Write name b fs) !! q = Some n.
Proof.
  intros Hne Hq. unfold OS.Write.
  destruct (fs !! name) as [[mt | tg | p t d] |];
    cbn [snd]; rewrite ?lookup_insert_ne by exact Hne; exact Hq.
Qed.

Lemma ReadFile_same name fs : fs !! q = Some n -> snd (OS.ReadFile name fs) !! q = Some n.
Proof.
  intros Hq. unfold OS.ReadFile.
  destruct (fs !! name) as [[mt | tg | p t d] |]; exact Hq.
Qed.

Lemma Chtimes_other name mtime fs :
  name <> q -> fs !! q = Some n -> snd (OS.Chtimes name mtime fs) !! q = Some n.
Proof.
  intros Hne Hq. unfold OS.Chtimes.
  destruct (fs !! name) as [[mt | tg | p t d] |];
    cbn [snd]; rewrite ?lookup_insert_ne by exact Hne; exact Hq.
Qed.

Lemma MkSymlink_other old name fs :
  name <> q -> fs !! q = Some n -> snd (OS.MkSymlink old name fs) !! q = Some n.
Proof.
  intros Hne Hq. unfold OS.MkSymlink.
  destruct (fs !! name); cbn [snd]; rewrite ?lookup_insert_ne by exact Hne; exact Hq.
Qed.

Lemma mkdir_if_missing_keeps path fs :
  fs !! q = Some n -> snd (OS.mkdir_if_missing path fs) !! q = Some n.
Proof.
  intros Hq. unfold OS.mkdir_if_missing.
  destruct (fs !! path) as [[mt | tg | p t d] |] eqn:Hp; cbn [snd]; try exact Hq.
  rewrite lookup_insert_ne; [exact Hq | congruence].
Qed.

Lemma MkdirAll_keeps path perm fs :
  fs !! q = Some n -> snd (OS.MkdirAll path perm fs) !! q = Some n.
Proof.
  unfold OS.MkdirAll. generalize (OS.ancestors path ++ [path]). intros l. revert fs.
  induction l as [| d l IH]; intros fs Hq; [exact Hq |].
  unfold bind. pose proof (mkdir_if_missing_keeps d fs Hq) as Hd.
  destruct (OS.mkdir_if_missing d fs) as [[[] | e] fs1]; cbn [snd] in *.
  - apply IH. exact Hd.
  - exact Hd.
Qed.
End NodeKept.

Lemma wrap_err_inv {S A : Type} site (c : M S SimpleFS.error A) s a s' :
  SimpleFS.wrap_err site c s = (Success a, s') -> c s = (Success a, s').
Proof.
  unfold SimpleFS.wrap_err. destruct (c s) as [[a0 | e] s1]; [auto | discriminate].
Qed.

Section CopyingProperties.
Import SimpleFS.
Variable sha : list Byte.byte -> list Byte.byte.
Variable srcDirFS : gmap string srcNode.
Variables jobID dstBase entry : string.

Lemma recorded_updateManifest manifest v m :
  manifest !! entry = Some v -> recorded jobID entry v m ->
  recorded jobID entry v (snd (updateManifest jobID manifest m)).
Proof.
  intros Hv (job & Hj & Hm). unfold updateManifest. rewrite bind_get, Hj. cbn.
  eexists. split; [apply lookup_insert_eq |]. cbn.
  apply lookup_union_Some_l. exact Hv.
Qed.

Lemma recorded_updateBytesCopied delta v m :
  recorded jobID entry v m -> recorded jobID entry v (updateBytesCopied jobID delta m).
Proof.
  intros (job & Hj & Hm). unfold updateBytesCopied. rewrite Hj. cbn.
  eexists. split; [apply lookup_insert_eq |]. exact Hm.
Qed.

Lemma append_inj (a x y : string) : (a ++ x)%string = (a ++ y)%string -> x = y.
Proof.
  induction a as [| ch a IH]; intros Heq.
  - exact Heq.
  - apply IH. change (String ch (a ++ x) = String ch (a ++ y)) in Heq. congruence.
Qed.

Lemma Join_inj a b c : OS.Join a b = OS.Join a c -> b = c.
Proof.
  unfold OS.Join. intros Heq. apply append_inj in Heq. apply (append_inj "/") in Heq. exact Heq.
Qed.

Lemma locked_inv {A : Type} (c : MM A) (w w' : World archiveManager) a :
  locked c w = (Success a, w') ->
  c (user w) = (Success a, user w') /\ os w' = os w /\ ctx w' = ctx w.
Proof.
  unfold locked, lift. destruct (c (user w)) as [r m']. intros Heq.
  inversion Heq; subst. auto.
Qed.

Lemma preserves_run {St A : Type} (I : St -> Prop) (c : M (World St) error A) w r w' :
  preserves I c -> c w = (r, w') -> I (user w) -> I (user w').
Proof. intros Hc Hrun Hw. specialize (Hc w Hw). rewrite Hrun in Hc. exact Hc. Qed.

Lemma preserves_fs_locked (P : gmap string OS.node -> Prop) {A : Type} (c : MM A) :
  preserves_fs P (locked c).
Proof. intros w Hw. rewrite locked_run. exact Hw. Qed.

Lemma preserves_recorded_updateManifest manifest v :
  manifest !! entry = Some v ->
  preserves (recorded jobID entry v) (locked (updateManifest jobID manifest)).
Proof. intros Hv. apply preserves_locked. intros m. apply recorded_updateManifest. exact Hv. Qed.

Lemma loop_step_other e rest manifest (w w' : World archiveManager) :
  e <> entry ->
  loopEntryPaths sha srcDirFS jobID dstBase (e :: rest) manifest w = (Success tt, w') ->
  exists manifest1 w1,
    loopEntryPaths sha srcDirFS jobID dstBase rest manifest1 w1 = (Success tt, w') /\
    manifest1 !! entry = manifest !! entry /\
    (forall n, os w !! OS.Join dstBase entry = Some n ->
               os w1 !! OS.Join dstBase entry = Some n) /\
    (forall v, manifest !! entry = Some v -> recorded jobID entry v (user w) ->
               recorded jobID entry v (user w1)).
Proof.
  intros Hne Hrun.
  assert (Hpath : OS.Join dstBase e <> OS.Join dstBase entry).
  { intros Heq. apply Hne. eapply Join_inj. exact Heq. }
  pose (P := fun n (fs : gmap string OS.node) => fs !! OS.Join dstBase entry = Some n).
  assert (Hmkdir : forall n path perm site,
             preserves_fs (St := archiveManager) (P n)
               (wrap_err site (os_call (OS.MkdirAll path perm)))).
  { intros n path perm site. apply preserves_fs_wrap_err, preserves_fs_os_call.
    intros fs. apply MkdirAll_keeps. }
  assert (Hos : forall v {A} site (c : M (gmap string OS.node) OS.errno A),
             preserves (recorded jobID entry v) (wrap_err site (os_call c))).
  { intros v A site c. apply preserves_wrap_err, preserves_os_call. }
  cbn [loopEntryPaths] in Hrun.
  apply bind_inv in Hrun as ([] & w1 & H1 & Hrun).
  assert (F1 : forall n, P n (os w) -> P n (os w1)).
  { intros n. exact (preserves_fs_run (P n) _ _ _ _ (preserves_fs_locked _ _) H1). }
  assert (U1 : forall v, manifest !! entry = Some v -> recorded jobID entry v (user w) ->
                         recorded jobID entry v (user w1)).
  { intros v Hv. refine (preserves_run (recorded jobID entry v) _ _ _ _ _ H1).
    apply preserves_recorded_updateManifest. rewrite lookup_insert_ne by exact Hne. exact Hv. }
  clear H1.
  destruct (srcDirFS !! e) as [[mtime | link resolves | exec mtime data] |]; [| | | discriminate].
  - (* a directory *)
    apply bind_inv in Hrun as ([] & w2 & H2 & Hrun).
    apply bind_inv in Hrun as ([] & w3 & H3 & Hrun).
    apply bind_inv in Hrun as ([] & w4 & H4 & Hrun).
    eexists _, w4. split; [exact Hrun |].
    split; [rewrite !lookup_insert_ne by exact Hne; reflexivity |].
    split.
    + intros n Hn. apply F1 in Hn.
      apply (preserves_fs_run (P n) _ _ _ _ (Hmkdir n _ _ _) H2) in Hn.
      refine (preserves_fs_run (P n) _ _ _ _ (preserves_fs_locked _ _) H4 _).
      refine (preserves_fs_run (P n) _ _ _ _ _ H3 Hn).
      apply preserves_fs_wrap_err, preserves_fs_os_call. intros fs.
      apply Chtimes_other. exact Hpath.
    + intros v Hv Hr. apply (U1 v Hv) in Hr.
      apply (preserves_run (recorded jobID entry v) _ _ _ _ (Hos v _ _ _) H2) in Hr.
      apply (preserves_run (recorded jobID entry v) _ _ _ _ (Hos v _ _ _) H3) in Hr.
      refine (preserves_run (recorded jobID entry v) _ _ _ _ _ H4 Hr).
      apply preserves_recorded_updateManifest.
      rewrite !lookup_insert_ne by exact Hne. exact Hv.
  - (* a symbolic link *)
    apply bind_inv in Hrun as ([] & w2 & H2 & Hrun).
    destruct resolves; cbn [negb] in Hrun.
    + apply bind_inv in Hrun as ([] & w3 & H3 & Hrun).
      apply bind_inv in Hrun as ([] & w4 & H4 & Hrun).
      eexists _, w4. split; [exact Hrun |].
      split; [rewrite !lookup_insert_ne by exact Hne; reflexivity |].
      split.
      * intros n Hn. apply F1 in Hn.
        apply (preserves_fs_run (P n) _ _ _ _ (Hmkdir n _ _ _) H2) in Hn.
        refine (preserves_fs_run (P n) _ _ _ _ (preserves_fs_locked _ _) H4 _).
        refine (preserves_fs_run (P n) _ _ _ _ _ H3 Hn).
        apply preserves_fs_wrap_err, preserves_fs_os_call. intros fs.
        apply MkSymlink_other. exact Hpath.
      * intros v Hv Hr. apply (U1 v Hv) in Hr.
        apply (preserves_run (recorded jobID entry v) _ _ _ _ (Hos v _ _ _) H2) in Hr.
        apply (preserves_run (recorded jobID entry v) _ _ _ _ (Hos v _ _ _) H3) in Hr.
        refine (preserves_run (recorded jobID entry v) _ _ _ _ _ H4 Hr).
        apply preserves_recorded_updateManifest.
        rewrite !lookup_insert_ne by exact Hne. exact Hv.
    + (* skipped *)
      eexists _, w2. split; [exact Hrun |].
      split; [rewrite !lookup_insert_ne by exact Hne; reflexivity |].
      split.
      * intros n Hn. apply F1 in Hn.
        exact (preserves_fs_run (P n) _ _ _ _ (Hmkdir n _ _ _) H2 Hn).
      * intros v Hv Hr. apply (U1 v Hv) in Hr.
        exact (preserves_run (recorded jobID entry v) _ _ _ _ (Hos v _ _ _) H2 Hr).
  - (* a file *)
    apply bind_inv in Hrun as ([] & w2 & H2 & Hrun).
    apply bind_inv in Hrun as (w2' & w2'' & Hget & Hrun).
    inversion Hget; subst w2' w2''; clear Hget.
    apply bind_inv in Hrun as (sum & w3 & H3 & Hrun).
    apply bind_inv in Hrun as ([] & w4 & H4 & Hrun).
    apply bind_inv in Hrun as ([] & w5 & H5 & Hrun).
    eexists _, w5. split; [exact Hrun |].
    split; [rewrite !lookup_insert_ne by exact Hne; reflexivity |].
    split.
    + intros n Hn. apply F1 in Hn.
      apply (preserves_fs_run (P n) _ _ _ _ (Hmkdir n _ _ _) H2) in Hn.
      refine (preserves_fs_run (P n) _ _ _ _ (preserves_fs_locked _ _) H5 _).
      refine (preserves_fs_run (P n) _ _ _ _ _ H4 _).
      { apply preserves_fs_wrap_err, preserves_fs_os_call. intros fs.
        apply Chtimes_other. exact Hpath. }
      refine (preserves_fs_run (P n) _ _ _ _ _ H3 Hn).
      apply preserves_fs_copyFile.
      * intros flag perm fs. apply OpenFile_other. exact Hpath.
      * intros b fs. apply Write_other. exact Hpath.
      * intros fs. apply ReadFile_same.
    + intros v Hv Hr. apply (U1 v Hv) in Hr.
      apply (preserves_run (recorded jobID entry v) _ _ _ _ (Hos v _ _ _) H2) in Hr.
      assert (Hr3 : recorded jobID entry v (user w3)).
      { refine (preserves_run (recorded jobID entry v) _ _ _ _ _ H3 Hr).
        apply preserves_copyFile. intros delta m. apply recorded_updateBytesCopied. }
      apply (preserves_run (recorded jobID entry v) _ _ _ _ (Hos v _ _ _) H4) in Hr3.
      refine (preserves_run (recorded jobID entry v) _ _ _ _ _ H5 Hr3).
      apply preserves_recorded_updateManifest.
      rewrite !lookup_insert_ne by exact Hne. exact Hv.
Qed.

(** Through the entries after it, the file copied for the entry and the
    record made of it stay as they are. *)
Lemma loop_keeps_entry rest :
  entry ∉ rest ->
  forall manifest (w w' : World archiveManager) n v,
    loopEntryPaths sha srcDirFS jobID dstBase rest manifest w = (Success tt, w') ->
    os w !! OS.Join dstBase entry = Some n ->
    manifest !! entry = Some v ->
    recorded jobID entry v (user w) ->
    os w' !! OS.Join dstBase entry = Some n /\ recorded jobID entry v (user w').
Proof.
  induction rest as [| e rest IH]; intros Hnotin manifest w w' n v Hrun Hn Hv Hr.
  - cbn in Hrun. inversion Hrun; subst. auto.
  - apply not_elem_of_cons in Hnotin as [Hne Hnotin].
    apply loop_step_other in Hrun as (manifest1 & w1 & Hrun & Hm & Hfs & Hu); [| congruence].
    apply (IH Hnotin manifest1 w1 w' n v Hrun).
    + apply Hfs. exact Hn.
    + rewrite Hm. exact Hv.
    + apply Hu; assumption.
Qed.

Lemma copyFile_resumed {St : Type} (upd : bytesUpdaterFunc St) localPath mode exec mtime src
    p t dst (w w' : World St) sum :
  srcDirFS !! entry = Some (SrcFile exec mtime src) ->
  os w !! localPath = Some (OS.File p t dst) ->
  (0 < length dst)%nat ->
  copyFile sha srcDirFS entry localPath (OS.Size (OS.File p t dst)) mode upd w
  = (Success sum, w') ->
  let resumed := dst ++ skipn (length dst) src in
  let appended := chunk_sizes (length (skipn (length dst) src)) in
  sum = sha src /\
  ((sha resumed = sha src /\
    os w' = <[localPath := OS.File p t resumed]> (os w) /\
    user w' = apply_deltas upd appended (user w)) \/
   (sha resumed <> sha src /\
    os w' = <[localPath := OS.File p t src]> (os w) /\
    user w' = apply_deltas upd
                (appended ++ [- Z.of_nat (length src)] ++ chunk_sizes (length src)) (user w))).
Proof.
  intros Hs Hf Hpos Hok resumed appended.
  assert (Hrun : copyFile sha srcDirFS entry localPath (OS.Size (OS.File p t dst)) mode upd w
                 = copyFilePickupPrevious sha srcDirFS entry localPath
                     (Z.of_nat (length dst)) mode upd w).
  { unfold copyFile. cbn [OS.Size].
    destruct (Z.eqb_spec (Z.of_nat (length dst)) 0); [lia | reflexivity]. }
  pose proof (copyFilePickupPrevious_spec sha srcDirFS entry localPath mode upd exec mtime
                src p t dst w Hs Hf) as Hspec.
  cbv zeta in Hspec. fold resumed appended in Hspec. rewrite <- Hrun, Hok in Hspec.
  unfold bytes_Equal in Hspec.
  destruct (bool_decide_reflect (sha src = sha resumed)) as [Heq | Hneq];
    destruct Hspec as [e w'' Hfail Hfe Hne | c' Hdone Hc']; try discriminate;
    inversion Hdone; subst sum w'; (split; [reflexivity |]).
  - left. cbn [os user]. auto.
  - right. cbn [os user]. auto.
Qed.

Lemma loop_step_entry rest manifest (w w' : World archiveManager) exec mtime src p t dst :
  srcDirFS !! entry = Some (SrcFile exec mtime src) ->
  os w !! OS.Join dstBase entry = Some (OS.File p t dst) ->
  (0 < length dst)%nat ->
  loopEntryPaths sha srcDirFS jobID dstBase (entry :: rest) manifest w = (Success tt, w') ->
  let v := {| State := Complete;
              DirentType_ := DirentType_ (default zero_file (manifest !! entry));
              Sha256SumHex := hex_EncodeToString (sha src) |} in
  exists manifest1 w1 d',
    loopEntryPaths sha srcDirFS jobID dstBase rest manifest1 w1 = (Success tt, w') /\
    manifest1 !! entry = Some v /\
    recorded jobID entry v (user w1) /\
    os w1 !! OS.Join dstBase entry = Some (OS.File p mtime d') /\
    sha d' = sha src.
Proof.
  intros Hs Hf Hpos Hrun v.
  set (localPath := OS.Join dstBase entry) in *.
  pose (P := fun n (fs : gmap string OS.node) => fs !! localPath = Some n).
  cbn [loopEntryPaths] in Hrun. fold localPath in Hrun.
  apply bind_inv in Hrun as ([] & w1 & H1 & Hrun).
  apply (preserves_fs_run (P _) _ _ _ _ (preserves_fs_locked _ _) H1) in Hf. clear H1.
  rewrite Hs in Hrun.
  apply bind_inv in Hrun as ([] & w2 & H2 & Hrun).
  assert (Hf2 : os w2 !! localPath = Some (OS.File p t dst)).
  { refine (preserves_fs_run (P _) _ _ _ _ _ H2 Hf).
    apply preserves_fs_wrap_err, preserves_fs_os_call. intros fs. apply MkdirAll_keeps. }
  clear H2.
  apply bind_inv in Hrun as (w2' & w2'' & Hget & Hrun).
  inversion Hget; subst w2' w2''; clear Hget.
  rewrite Hf2 in Hrun.
  apply bind_inv in Hrun as (sum & w3 & H3 & Hrun).
  apply (copyFile_resumed _ _ _ exec mtime src p t dst _ _ _ Hs Hf2 Hpos) in H3.
  cbv zeta in H3. destruct H3 as [-> Hcases].
  assert (exists d', os w3 !! localPath = Some (OS.File p t d') /\ sha d' = sha src)
    as (d' & Hf3 & Hd').
  { destruct Hcases as [(Heq & Hos & _) | (_ & Hos & _)]; rewrite Hos;
      eexists; (split; [apply lookup_insert_eq |]); [exact Heq | reflexivity]. }
  clear Hcases.
  apply bind_inv in Hrun as ([] & w4 & H4 & Hrun).
  assert (Hf4 : os w4 !! localPath = Some (OS.File p mtime d')).
  { apply wrap_err_inv in H4. unfold os_call, OS.Chtimes in H4. rewrite Hf3 in H4.
    inversion H4; subst w4. cbn. apply lookup_insert_eq. }
  clear H4.
  apply bind_inv in Hrun as ([] & w5 & H5 & Hrun).
  apply locked_inv in H5 as (H5 & Hos5 & _).
  eexists _, w5, d'. split; [exact Hrun |].
  split; [apply lookup_insert_eq |].
  split; [| split; [rewrite Hos5; exact Hf4 | exact Hd']].
  unfold updateManifest in H5. rewrite bind_get in H5.
  destruct (Jobs (user w4) !! jobID) as [job |] eqn:Hj.
  - cbn in H5. inversion H5 as [Hu]. exists (set_Manifest
      (<[entry := v]> (<[entry := set_State InProgress (default zero_file (manifest !! entry))]>
         manifest) ∪ Manifest job) job).
    split; [apply lookup_insert_eq |].
    cbn. apply lookup_union_Some_l. apply lookup_insert_eq.
  - destruct (map_to_list _) eqn:Hl in H5; [| discriminate].
    apply map_to_list_empty_iff in Hl. apply insert_non_empty in Hl. contradiction.
Qed.

Lemma loop_records_hash l :
  NoDup l -> entry ∈ l ->
  forall manifest (w w' : World archiveManager) exec mtime src p t dst,
    srcDirFS !! entry = Some (SrcFile exec mtime src) ->
    os w !! OS.Join dstBase entry = Some (OS.File p t dst) ->
    (0 < length dst)%nat ->
    loopEntryPaths sha srcDirFS jobID dstBase l manifest w = (Success tt, w') ->
    exists d',
      recorded jobID entry
               {| State := Complete;
                  DirentType_ := DirentType_ (default zero_file (manifest !! entry));
                  Sha256SumHex := hex_EncodeToString (sha src) |} (user w') /\
      os w' !! OS.Join dstBase entry = Some (OS.File p mtime d') /\
      sha d' = sha src.
Proof.
  induction l as [| e l IH]; intros Hnd Hin manifest w w' exec mtime src p t dst Hs Hf Hpos Hrun.
  - apply elem_of_nil in Hin. contradiction.
  - apply NoDup_cons in Hnd as [Hnotin Hnd].
    destruct (decide (e = entry)) as [-> | Hne].
    + apply (loop_step_entry _ _ _ _ exec mtime src p t dst Hs Hf Hpos) in Hrun.
      cbv zeta in Hrun. destruct Hrun as (manifest1 & w1 & d' & Hrun & Hm & Hr & Hf1 & Hd').
      destruct (loop_keeps_entry l Hnotin manifest1 w1 w' _ _ Hrun Hf1 Hm Hr) as [Hf' Hr'].
      exists d'. auto.
    + apply elem_of_cons in Hin as [-> | Hin]; [contradiction |].
      apply loop_step_other in Hrun as (manifest1 & w1 & Hrun & Hm & Hfs & _); [| exact Hne].
      rewrite <- Hm.
      apply (IH Hnd Hin manifest1 w1 w' exec mtime src p t dst Hs); [| exact Hpos | exact Hrun].
      apply Hfs. exact Hf.
Qed.

End CopyingProperties.

Section DoCopying.
Import SimpleFS.
Context {rg : GoRange} {srt : GoSort}.

Lemma doCopying_records_hash sha srcDirFS jobID job entry f0 exec mtime src p t dst
    (w w' : World archiveManager) :
  Jobs (user w) !! jobID = Some job ->
  Manifest job !! entry = Some f0 ->
  srcDirFS !! entry = Some (SrcFile exec mtime src) ->
  let localPath :=
    OS.Join (OS.Join (getWorkspaceDir (Desc job)) (TargetName (Desc job))) entry in
  os w !! localPath = Some (OS.File p t dst) ->
  (0 < length dst)%nat ->
  doCopying sha (Success srcDirFS) jobID w = (Success tt, w') ->
  exists job' d',
    Jobs (user w') !! jobID = Some job' /\
    Manifest job' !! entry
    = Some {| State := Complete; DirentType_ := DirentType_ f0;
              Sha256SumHex := hex_EncodeToString (sha src) |} /\
    os w' !! localPath = Some (OS.File p mtime d') /\
    sha d' = sha src.
Proof.
  intros Hj Hm Hs localPath Hf Hpos Hrun.
  unfold doCopying in Hrun. rewrite bind_get, Hj in Hrun. cbv [default from_option id] in Hrun.
  apply bind_inv in Hrun as (fs0 & w0 & H0 & Hrun).
  cbn in H0. inversion H0; subst fs0 w0; clear H0.
  apply loop_records_hash with (entry := entry) (exec := exec) (mtime := mtime) (src := src)
                               (p := p) (t := t) (dst := dst) in Hrun;
    [| | | exact Hs | exact Hf | exact Hpos].
  - destruct Hrun as (d' & (job' & Hj' & Hm') & Hf' & Hd').
    rewrite Hm in Hm'. exists job', d'. auto.
  - rewrite sort_Sort_perm. rewrite range_perm. apply NoDup_fst_map_to_list.
  - rewrite sort_Sort_perm. rewrite range_perm. apply list_elem_of_fmap.
    exists (entry, f0). split; [reflexivity |]. apply elem_of_map_to_list. exact Hm.
Qed.
End DoCopying.

Section ResumedBytes.
Import SimpleFS.
Variable sha : list Byte.byte -> list Byte.byte.

Lemma os_call_user {St A : Type} (c : M (gmap string OS.node) OS.errno A) (w w' : World St) r :
  os_call c w = (r, w') -> user w' = user w.
Proof.
  unfold os_call. destruct (c (os w)) as [[a | e] fs]; intros Heq; inversion Heq; reflexivity.
Qed.

Lemma updateManifest_BytesCopied jobID manifest (m m' : archiveManager) job :
  Jobs m !! jobID = Some job ->
  updateManifest jobID manifest m = (Success tt, m') ->
  exists job', Jobs m' !! jobID = Some job' /\ BytesCopied job' = BytesCopied job /\
               Desc job' = Desc job.
Proof.
  intros Hj Hrun. unfold updateManifest in Hrun. rewrite bind_get, Hj in Hrun.
  cbn in Hrun. inversion Hrun; subst m'. eexists. split; [apply lookup_insert_eq |].
  split; reflexivity.
Qed.

(** The net count of a resumed copy: the bytes appended, whether or not
    the copy was started again. *)
Lemma copyFile_resumed_counts srcDirFS entry jobID job localPath mode exec mtime src p t dst
    (w w' : World archiveManager) sum :
  srcDirFS !! entry = Some (SrcFile exec mtime src) ->
  os w !! localPath = Some (OS.File p t dst) ->
  (0 < length dst)%nat ->
  Jobs (user w) !! jobID = Some job ->
  copyFile sha srcDirFS entry localPath (OS.Size (OS.File p t dst)) mode
    (updateBytesCopied jobID) w = (Success sum, w') ->
  let counted := fun z =>
    set_Jobs (<[jobID := set_BytesCopied (wrap64 (BytesCopied job + z)) job]> (Jobs (user w)))
             (user w) in
  let rest := Z.of_nat (length src - length dst) in
  let appended := chunk_sizes (length (skipn (length dst) src)) in
  user w' = counted rest /\
  apply_deltas (updateBytesCopied jobID) (appended ++ [- Z.of_nat (length src)]) (user w)
  = counted (rest - Z.of_nat (length src)).
Proof.
  intros Hs Hf Hpos Hj Hok counted rest appended.
  pose proof (copyFile_resumed sha srcDirFS entry (updateBytesCopied jobID) localPath mode
                exec mtime src p t dst w w' sum Hs Hf Hpos Hok) as Hres.
  cbv zeta in Hres. fold appended in Hres. destruct Hres as [_ Hcases].
  destruct (chunk_sizes_cons (length (skipn (length dst) src))) as (d & ds & Hcons).
  assert (Hsum : sum_Z appended = rest).
  { subst appended rest. rewrite sum_Z_chunk_sizes, length_skipn. reflexivity. }
  fold appended in Hcons.
  assert (Hall : forall ds2,
             apply_deltas (updateBytesCopied jobID) (appended ++ ds2) (user w)
             = counted (rest + sum_Z ds2)).
  { intros ds2. rewrite Hcons, <- app_comm_cons.
    rewrite (apply_deltas_updateBytesCopied jobID _ d _ job Hj).
    rewrite app_comm_cons, <- Hcons, sum_Z_app, Hsum. reflexivity. }
  split.
  - destruct Hcases as [(_ & _ & Hu) | (_ & _ & Hu)]; rewrite Hu.
    + rewrite <- (app_nil_r appended), Hall. subst counted. cbv beta.
      do 4 f_equal. cbn [sum_Z fold_right]. lia.
    + rewrite Hall, sum_Z_app, sum_Z_chunk_sizes. subst counted. cbv beta.
      do 4 f_equal. cbn [sum_Z fold_right]. lia.
  - rewrite Hall. subst counted. cbv beta. do 4 f_equal. cbn [sum_Z fold_right]. lia.
Qed.

Lemma loop_single_entry_counts srcDirFS jobID dstBase entry manifest
    (w w' : World archiveManager) job exec mtime src p t dst :
  Jobs (user w) !! jobID = Some job ->
  srcDirFS !! entry = Some (SrcFile exec mtime src) ->
  os w !! OS.Join dstBase entry = Some (OS.File p t dst) ->
  (0 < length dst)%nat ->
  loopEntryPaths sha srcDirFS jobID dstBase [entry] manifest w = (Success tt, w') ->
  exists job',
    Jobs (user w') !! jobID = Some job' /\
    BytesCopied job' = wrap64 (BytesCopied job + Z.of_nat (length src - length dst)).
Proof.
  intros Hj Hs Hf Hpos Hrun.
  set (localPath := OS.Join dstBase entry) in *.
  pose (P := fun n (fs : gmap string OS.node) => fs !! localPath = Some n).
  cbn [loopEntryPaths] in Hrun. fold localPath in Hrun.
  apply bind_inv in Hrun as ([] & w1 & H1 & Hrun).
  apply (preserves_fs_run (P _) _ _ _ _ (preserves_fs_locked _ _) H1) in Hf.
  apply locked_inv in H1 as (H1 & _ & _).
  destruct (updateManifest_BytesCopied _ _ _ _ _ Hj H1) as (job1 & Hj1 & Hb1 & _). clear H1.
  rewrite Hs in Hrun.
  apply bind_inv in Hrun as ([] & w2 & H2 & Hrun).
  assert (Hf2 : os w2 !! localPath = Some (OS.File p t dst)).
  { refine (preserves_fs_run (P _) _ _ _ _ _ H2 Hf).
    apply preserves_fs_wrap_err, preserves_fs_os_call. intros fs. apply MkdirAll_keeps. }
  apply wrap_err_inv, os_call_user in H2. rewrite <- H2 in Hj1. clear H2.
  apply bind_inv in Hrun as (w2' & w2'' & Hget & Hrun).
  inversion Hget; subst w2' w2''; clear Hget.
  rewrite Hf2 in Hrun.
  apply bind_inv in Hrun as (sum & w3 & H3 & Hrun).
  destruct (copyFile_resumed_counts srcDirFS entry jobID job1 localPath _ exec mtime src p t dst
              w2 w3 sum Hs Hf2 Hpos Hj1 H3) as [Hu3 _].
  assert (Hj3 : Jobs (user w3) !! jobID
                = Some (set_BytesCopied
                          (wrap64 (BytesCopied job1 + Z.of_nat (length src - length dst))) job1)).
  { rewrite Hu3. cbn. apply lookup_insert_eq. }
  clear H3 Hu3.
  apply bind_inv in Hrun as ([] & w4 & H4 & Hrun).
  apply wrap_err_inv, os_call_user in H4. rewrite <- H4 in Hj3. clear H4.
  apply bind_inv in Hrun as ([] & w5 & H5 & Hrun).
  apply locked_inv in H5 as (H5 & _ & _).
  destruct (updateManifest_BytesCopied _ _ _ _ _ Hj3 H5) as (job5 & Hj5 & Hb5 & _).
  cbn in Hrun. inversion Hrun; subst w'.
  exists job5. split; [exact Hj5 |]. rewrite Hb5. cbn. rewrite Hb1. reflexivity.
Qed.
End ResumedBytes.

Section DoCopyingBytes.
Import SimpleFS.
Context {rg : GoRange} {srt : GoSort}.

Lemma doCopying_counts_resumed sha srcDirFS jobID job entry f0 exec mtime src p t dst
    (w w' : World archiveManager) :
  Jobs (user w) !! jobID = Some job ->
  Manifest job = {[ entry := f0 ]} ->
  srcDirFS !! entry = Some (SrcFile exec mtime src) ->
  let localPath :=
    OS.Join (OS.Join (getWorkspaceDir (Desc job)) (TargetName (Desc job))) entry in
  os w !! localPath = Some (OS.File p t dst) ->
  (0 < length dst)%nat ->
  doCopying sha (Success srcDirFS) jobID w = (Success tt, w') ->
  exists job',
    Jobs (user w') !! jobID = Some job' /\
    BytesCopied job' = wrap64 (BytesCopied job + Z.of_nat (length src - length dst)).
Proof.
  intros Hj Hm Hs localPath Hf Hpos Hrun.
  unfold doCopying in Hrun. rewrite bind_get, Hj in Hrun. cbv [default from_option id] in Hrun.
  apply bind_inv in Hrun as (fs0 & w0 & H0 & Hrun).
  cbn in H0. inversion H0; subst fs0 w0; clear H0.
  assert (Hl : sort_Sort String.ltb (map fst (range (Manifest job))) = [entry]).
  { apply Permutation_singleton_r. rewrite sort_Sort_perm, range_perm, Hm.
    rewrite map_to_list_singleton. reflexivity. }
  rewrite Hl in Hrun.
  exact (loop_single_entry_counts sha srcDirFS jobID _ entry _ w w' job exec mtime src p t dst
           Hj Hs Hf Hpos Hrun).
Qed.
End DoCopyingBytes.

(** C1 as stated, refuted: the bytes-done counter is decremented by the
    length of the source, which is not always the length of what is
    discarded. The destination of "a.txt" holds the 13 bytes of
    "hello world!!" and the source the 11 bytes of "hello world". Nothing is
    appended, the digests differ, the 13 bytes of the destination are
    discarded and the copy starts again from byte 0; the callback is called
    with 0, -11 and 11, and the [BytesCopied] of job "j5" goes from 0 to -11,
    not to -13, before the second copy brings it back to 0. *)
Lemma C1_decrement_is_the_source_length :
  let src := list_byte_of_string "hello world" in
  let dst := list_byte_of_string "hello world!!" in
  let resumed := dst ++ skipn (length dst) src in
  let r := SimpleFS.copyFile SHA256.Sum Examples.src_tree "a.txt" "/stage/workspace/t/a.txt"
             (OS.Size (OS.File 420 0 dst)) 420 Examples.log_delta
             (Examples.copy_world "hello world!!") in
  let w := Examples.copying_world "hello world!!" in
  let counter := fun m : SimpleFS.archiveManager =>
    SimpleFS.BytesCopied (default SimpleFS.zero_job (SimpleFS.Jobs m !! "j5"%string)) in
  Examples.src_tree !! "a.txt"%string = Some (SimpleFS.SrcFile false 7 src) /\
  SimpleFS.os (Examples.copy_world "hello world!!") !! "/stage/workspace/t/a.txt"%string
  = Some (OS.File 420 0 dst) /\
  OS.Size (OS.File 420 0 dst) = 13 /\
  bytes_Equal (SHA256.Sum src) (SHA256.Sum resumed) = false /\
  length resumed = 13%nat /\
  length src = 11%nat /\
  fst r = Success (SHA256.Sum src) /\
  SimpleFS.os (snd r) !! "/stage/workspace/t/a.txt"%string = Some (OS.File 420 0 src) /\
  SimpleFS.user (snd r) = [0; -11; 11] /\
  counter (SimpleFS.user w) = 0 /\
  counter (SimpleFS.apply_deltas (SimpleFS.updateBytesCopied "j5") [0; -11] (SimpleFS.user w))
  = -11 /\
  fst (SimpleFS.doCopying SHA256.Sum (Success Examples.src_tree) "j5" w) = Success tt /\
  counter (SimpleFS.user (snd (SimpleFS.doCopying SHA256.Sum (Success Examples.src_tree) "j5" w)))
  = 0.
Proof. vm_compute. repeat split; reflexivity. Qed.

(** C1 (amended): for a regular file of the source whose destination exists
    with [dstSize > 0] bytes, the copy is resumed at offset [dstSize]: the
    rest of the source is appended to the destination, then source and
    destination are read again in full and their SHA-256 digests compared.
    When the digests agree that digest is returned. When they differ the
    progress callback is called with minus the length of the source and the
    file is copied again from byte 0; what is discarded has the length of
    the longer of source and destination, so the decrement is the discarded
    length only when the destination was no longer than the source. Every
    successful copy returns the SHA-256 of the source, and no failure of the
    copy is the bound on the iterations of the copy loop. With the callback
    of [doCopying], a successful copy leaves the job's [BytesCopied]
    increased by the number of bytes appended, in 64-bit arithmetic, and at
    the moment the copy starts again the counter stands lower by the length
    of the source. When the copying of a job succeeds, the job's manifest
    records the entry as complete with the SHA-256 of the source in
    hexadecimal and the destination's contents have that digest; when the
    entry is the only one of the manifest, the job's [BytesCopied] has
    increased by the number of bytes appended. The destination of the entry
    is what [filepath.Join] makes of the job's staging path, its target name
    and the entry, which are taken to be clean. *)
Theorem C1_resume_copy_verifies_hash :
  forall (sha : list Byte.byte -> list Byte.byte)
         (srcDirFS : gmap string SimpleFS.srcNode) (entry : string)
         (exec : bool) (mtime : Z) (src : list Byte.byte)
         (p t : Z) (dst : list Byte.byte),
    srcDirFS !! entry = Some (SimpleFS.SrcFile exec mtime src) ->
    (0 < length dst)%nat ->
    let dstSize := OS.Size (OS.File p t dst) in
    let resumed := dst ++ skipn (length dst) src in
    let appended := SimpleFS.chunk_sizes (length (skipn (length dst) src)) in
    let rest := Z.of_nat (length src - length dst) in
    (* the copy of the file *)
    (forall (St : Type) (upd : SimpleFS.bytesUpdaterFunc St) (localPath : string) (mode : Z)
            (w : SimpleFS.World St),
        SimpleFS.os w !! localPath = Some (OS.File p t dst) ->
        let run := SimpleFS.copyFile sha srcDirFS entry localPath dstSize mode upd w in
        (forall sum w',
            run = (Success sum, w') ->
            sum = sha src /\
            ((sha resumed = sha src /\
              SimpleFS.os w' = <[localPath := OS.File p t resumed]> (SimpleFS.os w) /\
              SimpleFS.user w' = SimpleFS.apply_deltas upd appended (SimpleFS.user w)) \/
             (sha resumed <> sha src /\
              SimpleFS.os w' = <[localPath := OS.File p t src]> (SimpleFS.os w) /\
              SimpleFS.user w'
              = SimpleFS.apply_deltas upd
                  (appended ++ [- Z.of_nat (length src)] ++ SimpleFS.chunk_sizes (length src))
                  (SimpleFS.user w)))) /\
        (forall e w', run = (Failure e, w') -> SimpleFS.fuel_error e = false)) /\
    (* what is discarded, and what was appended *)
    length resumed = Nat.max (length dst) (length src) /\
    SimpleFS.sum_Z appended = rest /\
    (* the copy of the file with the callback of the copying *)
    (forall (jobID : string) (job : SimpleFS.SimpleFSArchiveJobState)
            (localPath : string) (mode : Z)
            (w w' : SimpleFS.World SimpleFS.archiveManager) (sum : list Byte.byte),
        SimpleFS.Jobs (SimpleFS.user w) !! jobID = Some job ->
        SimpleFS.os w !! localPath = Some (OS.File p t dst) ->
        SimpleFS.copyFile sha srcDirFS entry localPath dstSize mode
          (SimpleFS.updateBytesCopied jobID) w = (Success sum, w') ->
        let counted := fun z =>
          SimpleFS.set_Jobs
            (<[jobID := SimpleFS.set_BytesCopied (wrap64 (SimpleFS.BytesCopied job + z)) job]>
               (SimpleFS.Jobs (SimpleFS.user w)))
            (SimpleFS.user w) in
        SimpleFS.user w' = counted rest /\
        SimpleFS.apply_deltas (SimpleFS.updateBytesCopied jobID)
          (appended ++ [- Z.of_nat (length src)]) (SimpleFS.user w)
        = counted (rest - Z.of_nat (length src))) /\
    (* the copying of a job with the file in its manifest *)
    (forall (rg : GoRange) (srt : GoSort) (jobID : string)
            (job : SimpleFS.SimpleFSArchiveJobState) (f0 : SimpleFS.SimpleFSArchiveFile)
            (w w' : SimpleFS.World SimpleFS.archiveManager),
        SimpleFS.Jobs (SimpleFS.user w) !! jobID = Some job ->
        SimpleFS.Manifest job !! entry = Some f0 ->
        OS.clean (SimpleFS.StagingPath (SimpleFS.Desc job)) = true ->
        OS.clean_rel (SimpleFS.TargetName (SimpleFS.Desc job)) = true ->
        OS.clean_rel entry = true ->
        let localPath :=
          OS.Join (OS.Join (SimpleFS.getWorkspaceDir (SimpleFS.Desc job))
                           (SimpleFS.TargetName (SimpleFS.Desc job))) entry in
        SimpleFS.os w !! localPath = Some (OS.File p t dst) ->
        @SimpleFS.doCopying sha rg srt (Success srcDirFS) jobID w = (Success tt, w') ->
        (exists job' d',
            SimpleFS.Jobs (SimpleFS.user w') !! jobID = Some job' /\
            SimpleFS.Manifest job' !! entry
            = Some {| SimpleFS.State := SimpleFS.Complete;
                      SimpleFS.DirentType_ := SimpleFS.DirentType_ f0;
                      SimpleFS.Sha256SumHex := SimpleFS.hex_EncodeToString (sha src) |} /\
            SimpleFS.os w' !! localPath = Some (OS.File p mtime d') /\
            sha d' = sha src) /\
        (SimpleFS.Manifest job = {[ entry := f0 ]} ->
         exists job',
           SimpleFS.Jobs (SimpleFS.user w') !! jobID = Some job' /\
           SimpleFS.BytesCopied job' = wrap64 (SimpleFS.BytesCopied job + rest))).
Proof.
  intros sha srcDirFS entry exec mtime src p t dst Hs Hpos dstSize resumed appended rest.
  split; [| split; [| split; [| split]]].
  - intros St upd localPath mode w Hf run. split.
    + intros sum w' Hok.
      exact (copyFile_resumed sha srcDirFS entry upd localPath mode exec mtime src p t dst
               w w' sum Hs Hf Hpos Hok).
    + intros e w' Hfail.
      assert (Hrun : run = SimpleFS.copyFilePickupPrevious sha srcDirFS entry localPath
                             (Z.of_nat (length dst)) mode upd w).
      { subst run dstSize. unfold SimpleFS.copyFile. cbn [OS.Size].
        destruct (Z.eqb_spec (Z.of_nat (length dst)) 0); [lia | reflexivity]. }
      pose proof (copyFilePickupPrevious_spec sha srcDirFS entry localPath mode upd exec mtime
                    src p t dst w Hs Hf) as Hspec.
      cbv zeta in Hspec. rewrite <- Hrun, Hfail in Hspec.
      destruct (bytes_Equal _ _);
        destruct Hspec as [e0 w0 Hfail0 Hfe Hne | c' Hdone Hc']; try discriminate;
        inversion Hfail0; subst e0; exact Hfe.
  - subst resumed. rewrite length_app, length_skipn. lia.
  - subst appended rest. rewrite sum_Z_chunk_sizes, length_skipn. reflexivity.
  - intros jobID job localPath mode w w' sum Hj Hf Hok.
    exact (copyFile_resumed_counts sha srcDirFS entry jobID job localPath mode exec mtime
             src p t dst w w' sum Hs Hf Hpos Hj Hok).
  - intros rg srt jobID job f0 w w' Hj Hm _ _ _ localPath Hf Hrun. split.
    + exact (doCopying_records_hash sha srcDirFS jobID job entry f0 exec mtime src p t dst
               w w' Hj Hm Hs Hf Hpos Hrun).
    + intros Hone.
      exact (doCopying_counts_resumed sha srcDirFS jobID job entry f0 exec mtime src p t dst
               w w' Hj Hone Hs Hf Hpos Hrun).
Qed.

Lemma C1_resume_copy_witness :
  let src := list_byte_of_string "hello world" in
  let dst := list_byte_of_string "jello" in
  let path := "/stage/workspace/t/a.txt"%string in
  (* the corrupted prefix is found out and the file copied again *)
  (let w := Examples.copy_world "jello" in
   let w' := snd (SimpleFS.copyFile SHA256.Sum Examples.src_tree "a.txt" path 5 420
                    Examples.log_delta w) in
   (SHA256.Sum (dst ++ skipn (length dst) src) = SHA256.Sum src /\
    SimpleFS.os w' = <[path := OS.File 420 0 (dst ++ skipn (length dst) src)]> (SimpleFS.os w) /\
    SimpleFS.user w'
    = SimpleFS.apply_deltas Examples.log_delta
        (SimpleFS.chunk_sizes (length (skipn (length dst) src))) (SimpleFS.user w)) \/
   (SHA256.Sum (dst ++ skipn (length dst) src) <> SHA256.Sum src /\
    SimpleFS.os w' = <[path := OS.File 420 0 src]> (SimpleFS.os w) /\
    SimpleFS.user w'
    = SimpleFS.apply_deltas Examples.log_delta
        (SimpleFS.chunk_sizes (length (skipn (length dst) src))
           ++ [- Z.of_nat (length src)] ++ SimpleFS.chunk_sizes (length src))
        (SimpleFS.user w))) /\
  (* a cancelled copy fails, and not with the bound of the loop *)
  SimpleFS.fuel_error
    (match fst (SimpleFS.copyFile SHA256.Sum Examples.src_tree "a.txt" path 5 420
                  Examples.log_delta
                  {| SimpleFS.os := SimpleFS.os (Examples.copy_world "jello");
                     SimpleFS.ctx := Some 0%nat; SimpleFS.user := [] |}) with
     | Failure e => e
     | Success _ => SimpleFS.out_of_fuel
     end) = false /\
  (* the counter of the job *)
  (let w := Examples.copying_world "jello" in
   let w' := snd (SimpleFS.copyFile SHA256.Sum Examples.src_tree "a.txt" path 5 420
                    (SimpleFS.updateBytesCopied "j5") w) in
   let counter := fun m : SimpleFS.archiveManager =>
     SimpleFS.BytesCopied (default SimpleFS.zero_job (SimpleFS.Jobs m !! "j5"%string)) in
   counter (SimpleFS.user w) = 0 /\
   counter (SimpleFS.user w') = 6 /\
   counter (SimpleFS.apply_deltas (SimpleFS.updateBytesCopied "j5")
              (SimpleFS.chunk_sizes (length (skipn (length dst) src))
                 ++ [- Z.of_nat (length src)]) (SimpleFS.user w)) = -5) /\
  (* the copying of the job *)
  (let w' := snd (SimpleFS.doCopying SHA256.Sum (Success Examples.src_tree) "j5"
                    (Examples.copying_world "jello")) in
   (exists job' d',
      SimpleFS.Jobs (SimpleFS.user w') !! "j5"%string = Some job' /\
      SimpleFS.Manifest job' !! "a.txt"%string
      = Some {| SimpleFS.State := SimpleFS.Complete;
                SimpleFS.DirentType_ := SimpleFS.DirentType_FILE;
                SimpleFS.Sha256SumHex :=
                  SimpleFS.hex_EncodeToString
                    (SHA256.Sum (list_byte_of_string "hello world")) |} /\
      SimpleFS.os w' !! "/stage/workspace/t/a.txt"%string = Some (OS.File 420 7 d') /\
      SHA256.Sum d' = SHA256.Sum (list_byte_of_string "hello world")) /\
   (exists job',
      SimpleFS.Jobs (SimpleFS.user w') !! "j5"%string = Some job' /\
      SimpleFS.BytesCopied job' = 6)).
Proof.
  cbv zeta.
  assert (Hs : Examples.src_tree !! "a.txt"%string
               = Some (SimpleFS.SrcFile false 7 (list_byte_of_string "hello world")))
    by (vm_compute; reflexivity).
  assert (Hpos : (0 < length (list_byte_of_string "jello"))%nat) by (vm_compute; lia).
  destruct (C1_resume_copy_verifies_hash SHA256.Sum Examples.src_tree "a.txt" false 7
              (list_byte_of_string "hello world") 420 0 (list_byte_of_string "jello") Hs Hpos)
    as (Hcopy & _ & _ & Hcount & Hjob).
  pose (job0 := {| SimpleFS.Desc := Examples.desc5;
                   SimpleFS.Manifest :=
                     {[ "a.txt"%string :=
                          {| SimpleFS.State := SimpleFS.ToDo;
                             SimpleFS.DirentType_ := SimpleFS.DirentType_FILE;
                             SimpleFS.Sha256SumHex := "" |} ]};
                   SimpleFS.Phase := SimpleFS.Indexed; SimpleFS.BytesTotal := 11;
                   SimpleFS.BytesCopied := 0; SimpleFS.BytesZipped := 0 |}).
  split; [| split; [| split]].
  - refine (proj2 (proj1 (Hcopy (list Z) Examples.log_delta "/stage/workspace/t/a.txt"%string
                            420 (Examples.copy_world "jello") _) _ _ _)).
    + vm_compute. reflexivity.
    + vm_compute. reflexivity.
  - refine (proj2 (Hcopy (list Z) Examples.log_delta "/stage/workspace/t/a.txt"%string 420
                     {| SimpleFS.os := SimpleFS.os (Examples.copy_world "jello");
                        SimpleFS.ctx := Some 0%nat; SimpleFS.user := [] |} _) _ _ _).
    + vm_compute. reflexivity.
    + vm_compute. reflexivity.
  - destruct (Hcount "j5"%string job0 "/stage/workspace/t/a.txt"%string 420
                (Examples.copying_world "jello")
                (snd (SimpleFS.copyFile SHA256.Sum Examples.src_tree "a.txt"
                        "/stage/workspace/t/a.txt" 5 420 (SimpleFS.updateBytesCopied "j5")
                        (Examples.copying_world "jello")))
                (SHA256.Sum (list_byte_of_string "hello world"))) as [Hu Hdec].
    + vm_compute. reflexivity.
    + vm_compute. reflexivity.
    + vm_compute. reflexivity.
    + rewrite Hu, Hdec. vm_compute. repeat split; reflexivity.
  - destruct (Hjob canonical_GoRange insertion_GoSort "j5"%string job0
                {| SimpleFS.State := SimpleFS.ToDo;
                   SimpleFS.DirentType_ := SimpleFS.DirentType_FILE;
                   SimpleFS.Sha256SumHex := "" |}
                (Examples.copying_world "jello")
                (snd (SimpleFS.doCopying SHA256.Sum (Success Examples.src_tree) "j5"
                        (Examples.copying_world "jello")))) as [Hrec Hbytes].
    + vm_compute. reflexivity.
    + vm_compute. reflexivity.
    + vm_compute. reflexivity.
    + vm_compute. reflexivity.
    + vm_compute. reflexivity.
    + vm_compute. reflexivity.
    + vm_compute. reflexivity.
    + split; [exact Hrec |]. apply Hbytes. reflexivity.
Defined.

(** The three runs of the resumed copy: an intact prefix, a corrupted one,
    and a destination longer than the source. *)
Example resume_copy_intact :
  let r := SimpleFS.copyFile SHA256.Sum Examples.src_tree "a.txt" "/stage/workspace/t/a.txt"
             5 420 Examples.log_delta (Examples.copy_world "hello") in
  fst r = Success (SHA256.Sum (list_byte_of_string "hello world")) /\
  SimpleFS.hex_EncodeToString (SHA256.Sum (list_byte_of_string "hello world"))
  = "b94d27b9934d3e08a52e52d7da7dabfac484efe37a5380ee9088f7ace2efcde9"%string /\
  SimpleFS.os (snd r) !! "/stage/workspace/t/a.txt"%string
  = Some (OS.File 420 0 (list_byte_of_string "hello world")) /\
  SimpleFS.user (snd r) = [6].
Proof. vm_compute. repeat split; reflexivity. Qed.

Example resume_copy_corrupted :
  let r := SimpleFS.copyFile SHA256.Sum Examples.src_tree "a.txt" "/stage/workspace/t/a.txt"
             5 420 Examples.log_delta (Examples.copy_world "jello") in
  fst r = Success (SHA256.Sum (list_byte_of_string "hello world")) /\
  SimpleFS.os (snd r) !! "/stage/workspace/t/a.txt"%string
  = Some (OS.File 420 0 (list_byte_of_string "hello world")) /\
  SimpleFS.user (snd r) = [6; -11; 11].
Proof. vm_compute. repeat split; reflexivity. Qed.

Example resume_copy_overlong :
  let r := SimpleFS.copyFile SHA256.Sum Examples.src_tree "a.txt" "/stage/workspace/t/a.txt"
             13 420 Examples.log_delta (Examples.copy_world "hello world!!") in
  fst r = Success (SHA256.Sum (list_byte_of_string "hello world")) /\
  SimpleFS.os (snd r) !! "/stage/workspace/t/a.txt"%string
  = Some (OS.File 420 0 (list_byte_of_string "hello world")) /\
  SimpleFS.user (snd r) = [0; -11; 11].
Proof. vm_compute. repeat split; reflexivity. Qed.

(** The copying of job "j5" when an interrupted copy left a corrupted
    prefix of "a.txt": the manifest records the digest of "hello world". *)
Example copying_resumed_job :
  let r := SimpleFS.doCopying SHA256.Sum (Success Examples.src_tree) "j5"
             (Examples.copying_world "jello") in
  let job := default SimpleFS.zero_job (SimpleFS.Jobs (SimpleFS.user (snd r)) !! "j5"%string) in
  fst r = Success tt /\
  SimpleFS.Manifest job !! "a.txt"%string
  = Some {| SimpleFS.State := SimpleFS.Complete;
            SimpleFS.DirentType_ := SimpleFS.DirentType_FILE;
            SimpleFS.Sha256SumHex :=
              "b94d27b9934d3e08a52e52d7da7dabfac484efe37a5380ee9088f7ace2efcde9" |} /\
  SimpleFS.BytesCopied job = 6 /\
  SimpleFS.os (snd r) !! "/stage/workspace/t/a.txt"%string
  = Some (OS.File 420 7 (list_byte_of_string "hello world")).
Proof. vm_compute. repeat split; reflexivity. Qed.

(** ** Packaging *)

Section ZipperProperties.
Import SimpleFS.
Variable zip_encode : list (string * OS.node) -> list Byte.byte.
Context {rg : GoRange} {srt : GoSort}.















End ZipperProperties.

Section ChatPackaging.
Import Chat.
Context {rg : GoRange} {srt : GoSort}.
Variable tar_gzip : list (string * OS.node) -> list Byte.byte.





End ChatPackaging.




(** C2 as stated, refuted: the indexing of job "j5" fails at clock 1000;
    the job is left in phase Indexing, not in an error phase, with a retry
    scheduled 60 seconds later. *)
Lemma C2_failed_job_keeps_working_phase :
  SimpleFS.Phase <$> (SimpleFS.Jobs Examples.manager0 !! "j5"%string) = Some SimpleFS.Queued /\
  fst (SimpleFS.indexingWorker (Failure Examples.io_error) 1%nat 1000
         (Examples.world_of Examples.manager0 ∅)) = Success tt /\
  SimpleFS.Phase <$> (SimpleFS.Jobs Examples.manager_failed !! "j5"%string)
  = Some SimpleFS.Indexing /\
  SimpleFS.Phase <$> (SimpleFS.Jobs Examples.manager_failed !! "j5"%string)
  <> Some SimpleFS.Error /\
  SimpleFS.errors Examples.manager_failed !! "j5"%string
  = Some {| SimpleFS.err := Examples.io_error; SimpleFS.nextRetry := 60000001000 |}.
Proof.
  split; [vm_compute; reflexivity |]. split; [vm_compute; reflexivity |].
  split; [vm_compute; reflexivity |]. split; [vm_compute; discriminate |].
  vm_compute. reflexivity.
Qed.

Lemma C2_worker_failure_witness :
  exists w3,
    SimpleFS.stage_worker SHA256.Sum Examples.zip_encode
      (SimpleFS.IndexingStage (Failure Examples.io_error)) 1%nat 1000
      (Examples.world_of Examples.manager0 ∅) = (Success tt, w3) /\
    SimpleFS.Phase <$> (SimpleFS.Jobs (SimpleFS.user w3) !! "j5"%string)
    = Some (SimpleFS.stage_working (SimpleFS.IndexingStage (Failure Examples.io_error))) /\
    SimpleFS.errors (SimpleFS.user w3) !! "j5"%string
    = Some {| SimpleFS.err := Examples.io_error;
              SimpleFS.nextRetry := 1000 + 60 * SimpleFS.time_Second |}.
Proof.
  refine (C2_worker_failure_schedules_retry SHA256.Sum Examples.zip_encode
            canonical_GoRange insertion_GoSort
            (SimpleFS.IndexingStage (Failure Examples.io_error)) 1%nat 1000
            (Examples.world_of Examples.manager0 ∅)
            (Examples.world_of
               (SimpleFS.set_signal SimpleFS.indexingSignal false Examples.manager_claimed) ∅)
            (Examples.world_of
               (SimpleFS.set_signal SimpleFS.indexingSignal true Examples.manager_claimed) ∅)
            "j5"%string Examples.io_error _ _).
  - vm_compute. reflexivity.
  - vm_compute. reflexivity.
Defined.

Lemma C3_errorRetryWorker_witness :
  let m' := snd (SimpleFS.errorRetryWorker_tick 60000001000 Examples.manager_failed) in
  SimpleFS.Phase <$> (SimpleFS.Jobs m' !! "j5"%string) = Some SimpleFS.Queued /\
  SimpleFS.errors m' !! "j5"%string = None /\
  SimpleFS.indexingWorkerSignal m' = true /\
  SimpleFS.copyingWorkerSignal m' = true /\
  SimpleFS.zippingWorkerSignal m' = true.
Proof.
  destruct (C3_errorRetryWorker_reverts_phase canonical_GoRange 60000001000
              Examples.manager_failed "j5"%string
              {| SimpleFS.Desc := Examples.desc5; SimpleFS.Manifest := ∅;
                 SimpleFS.Phase := SimpleFS.Indexing; SimpleFS.BytesTotal := 0;
                 SimpleFS.BytesCopied := 0; SimpleFS.BytesZipped := 0 |}
              {| SimpleFS.err := Examples.io_error; SimpleFS.nextRetry := 60000001000 |})
    as (_ & Hrevert & _).
  - vm_compute. reflexivity.
  - vm_compute. reflexivity.
  - cbn. lia.
  - destruct Hrevert as (Hj & He & Hi & Hc & Hz); [left; reflexivity |].
    cbv zeta. rewrite Hj. repeat split; assumption.
Defined.

(** C8 as stated, refuted: once the indexing of job "j5" is complete the
    job is in phase Indexed, not a working phase, and its cancel function is
    still registered; and recording an error for the job leaves its cancel
    function registered as well. *)
Lemma C8_handle_outlives_working_phase :
  SimpleFS.Phase <$> (SimpleFS.Jobs Examples.manager_indexed !! "j5"%string)
  = Some SimpleFS.Indexed /\
  SimpleFS.working_phase SimpleFS.Indexed = false /\
  SimpleFS.jobCtxCancellers Examples.manager_indexed !! "j5"%string = Some 1%nat /\
  is_Some (SimpleFS.errors Examples.manager_failed !! "j5"%string) /\
  SimpleFS.jobCtxCancellers Examples.manager_failed !! "j5"%string = Some 1%nat.
Proof.
  split; [vm_compute; reflexivity |]. split; [reflexivity |].
  split; [vm_compute; reflexivity |]. split; [vm_compute; eexists; reflexivity |].
  vm_compute. reflexivity.
Qed.

(** C8 (amended): in every state the archive manager can reach, a job
    whose phase is Indexing, Copying or Zipping has a cancel function
    registered; the converse does not hold, because completing a phase or
    recording an error leaves the cancel function in the map: of all the
    steps of the manager only [cancelOrDismissJob] takes one out. In the chat
    registry, [Set] takes the job's handle out of [runningJobs] when the
    job's status is COMPLETE or ERROR and stores a handle that is not nil
    when the status is RUNNING. *)
Theorem C8_cancel_handles :
  (forall m, SimpleFS.reachable m ->
     forall jobID job,
       SimpleFS.Jobs m !! jobID = Some job ->
       SimpleFS.working_phase (SimpleFS.Phase job) = true ->
       is_Some (SimpleFS.jobCtxCancellers m !! jobID)) /\
  (forall m m' jobID,
      SimpleFS.step m m' ->
      is_Some (SimpleFS.jobCtxCancellers m !! jobID) ->
      is_Some (SimpleFS.jobCtxCancellers m' !! jobID) \/
      m' = snd (SimpleFS.cancelOrDismissJob jobID m)) /\
  (forall (cancel : option Chat.CancelArchiveFn) (job : Chat.ArchiveChatJob)
          (r r0 : Chat.ChatArchiveRegistry),
      Chat.initLocked r = (Success tt, r0) ->
      exists r',
        Chat.Set_ cancel job r = (Success tt, r') /\
        Chat.jobHistory r' = <[Chat.JobID (Chat.Request job) := job]> (Chat.jobHistory r0) /\
        Chat.runningJobs r'
        = match Chat.Status job with
          | Chat.COMPLETE | Chat.ERROR =>
              delete (Chat.JobID (Chat.Request job)) (Chat.runningJobs r0)
          | Chat.RUNNING =>
              match cancel with
              | Some c => <[Chat.JobID (Chat.Request job) := Some c]> (Chat.runningJobs r0)
              | None => Chat.runningJobs r0
              end
          | _ => Chat.runningJobs r0
          end).
Proof.
  split; [| split].
  - intros m Hr. apply reachable_invariant. exact Hr.
  - intros m m' jobID Hstep Hc. apply step_keeps_cancellers; assumption.
  - intros cancel job r r0 Hinit. apply Set_handles. exact Hinit.
Qed.

Lemma C8_cancel_handles_witness :
  is_Some (SimpleFS.jobCtxCancellers Examples.manager_claimed !! "j5"%string) /\
  (is_Some (SimpleFS.jobCtxCancellers
              (snd (SimpleFS.changeJobPhase "j5" SimpleFS.Indexed Examples.manager_claimed))
              !! "j5"%string) \/
   snd (SimpleFS.changeJobPhase "j5" SimpleFS.Indexed Examples.manager_claimed)
   = snd (SimpleFS.cancelOrDismissJob "j5" Examples.manager_claimed)) /\
  (exists r',
      Chat.Set_ None (Examples.job "run" 5 Chat.COMPLETE) Examples.registry = (Success tt, r') /\
      Chat.runningJobs r' !! "run"%string = None).
Proof.
  destruct C8_cancel_handles as (Hinv & Hkeep & Hset).
  split; [| split].
  - apply (Hinv Examples.manager_claimed) with
      (job := {| SimpleFS.Desc := Examples.desc5; SimpleFS.Manifest := ∅;
                 SimpleFS.Phase := SimpleFS.Indexing; SimpleFS.BytesTotal := 0;
                 SimpleFS.BytesCopied := 0; SimpleFS.BytesZipped := 0 |}).
    + unfold Examples.manager_claimed, Examples.manager0.
      eapply SimpleFS.reachable_step; [eapply SimpleFS.reachable_step |].
      * apply (SimpleFS.reachable_new canonical_GoRange None).
      * apply (SimpleFS.step_startJob false 100 Examples.desc5).
      * apply (SimpleFS.step_startWorkerTask_indexing canonical_GoRange 1%nat).
    + vm_compute. reflexivity.
    + reflexivity.
  - apply Hkeep.
    + apply SimpleFS.step_indexing_done.
    + vm_compute. eexists. reflexivity.
  - destruct (Hset None (Examples.job "run" 5 Chat.COMPLETE) Examples.registry
                Examples.registry eq_refl) as (r' & Hrun & _ & Hrj).
    exists r'. split; [exact Hrun |]. rewrite Hrj. apply lookup_delete_eq.
Defined.

(** ** The life cycle of the chat archive registry *)

Section ChatLifecycle.
Import Chat.
Context {rg : GoRange} {srt : GoSort}.

Lemma initLocked_result (r r0 : ChatArchiveRegistry) :
  initLocked r = (Success tt, r0) ->
  started r0 = true /\ inited r0 = true /\ runningJobs r0 = runningJobs r /\
  edb r0 = edb r /\ dirty r0 = dirty r /\ effects r0 = effects r /\
  jobHistory r0
  = (if inited r then jobHistory r else default ∅ (edb_stored (edb r))).
Proof.
  unfold initLocked. rewrite bind_get.
  destruct (started r) eqn:Hs; cbn [negb]; [| discriminate].
  destruct (inited r) eqn:Hi.
  - intros Heq. inversion Heq; subst. repeat split; assumption.
  - destruct (edb_fails (edb r)); [discriminate |].
    intros Heq. inversion Heq; subst. clear Heq.
    destruct (edb_stored (edb r)); cbn; repeat split; assumption || reflexivity.
Qed.

Lemma initLocked_again (r r0 : ChatArchiveRegistry) :
  initLocked r = (Success tt, r0) -> initLocked r0 = (Success tt, r0).
Proof.
  intros H. apply initLocked_result in H as (Hs & Hi & _). apply initLocked_inited; assumption.
Qed.

Lemma initLocked_not_started (r : ChatArchiveRegistry) :
  started r = false -> initLocked r = (Failure ErrNotStarted, r).
Proof. intros Hs. unfold initLocked. rewrite bind_get, Hs. reflexivity. Qed.

(** X1: before [Start] and after [Stop] no operation of the registry goes
    through: [List], [Get], [Delete], [Set], [Pause], [Resume], the
    registration of an executor and [resumeAllBgJobs] each return the error
    "not started" and leave the registry as it is. *)
Theorem registry_not_started_rejects :
  forall (r : ChatArchiveRegistry),
    started r = false ->
    List r = (Failure ErrNotStarted, r) /\
    (forall jobID, Get jobID r = (Failure ErrNotStarted, r)) /\
    (forall jobID del, Delete jobID del r = (Failure ErrNotStarted, r)) /\
    (forall cancel job, Set_ cancel job r = (Failure ErrNotStarted, r)) /\
    (forall jobID, Pause jobID r = (Failure ErrNotStarted, r)) /\
    (forall jobID, Resume jobID r = (Failure ErrNotStarted, r)) /\
    (forall now arg total complete cps,
        ArchiveChat_register now arg total complete cps r = (Failure ErrNotStarted, r)) /\
    resumeAllBgJobs DelayElapsed r = (Failure (registry_error ErrNotStarted), r).
Proof.
  intros r Hs. pose proof (initLocked_not_started r Hs) as Hi.
  repeat split; intros;
    try (unfold List, Get, Delete, Set_, Pause, Resume;
         apply bind_failure; exact Hi).
  - unfold ArchiveChat_register.
    assert (Hg : try (Get (JobID arg)) r = (Success (Failure ErrNotStarted), r)).
    { unfold try, Get. rewrite (bind_failure _ _ _ _ _ Hi). reflexivity. }
    rewrite (bind_success _ _ _ _ _ Hg). reflexivity.
  - unfold resumeAllBgJobs. rewrite Hi. reflexivity.
Qed.

(** X2: on a registry that initialises, [Set] succeeds, [Get] then returns
    the record stored for its job ID, the outcome of [Get] for every other
    job ID is as before, and the registry is marked dirty. *)
Theorem Set_then_Get :
  forall (cancel : option CancelArchiveFn) (job : ArchiveChatJob)
         (r r0 : ChatArchiveRegistry),
    initLocked r = (Success tt, r0) ->
    exists r',
      Set_ cancel job r = (Success tt, r') /\
      Get (JobID (Request job)) r' = (Success job, r') /\
      (forall jobID, jobID <> JobID (Request job) ->
                     fst (Get jobID r') = fst (Get jobID r)) /\
      dirty r' = true.
Proof.
  intros cancel job r r0 Hinit.
  destruct (Set_handles cancel job r r0 Hinit) as (r' & Hset & Hh & Hr).
  exists r'. split; [exact Hset |].
  assert (Hi' : initLocked r' = (Success tt, r') /\ dirty r' = true).
  { unfold Set_ in Hset. rewrite (bind_success _ _ _ _ _ Hinit) in Hset.
    apply initLocked_result in Hinit as (Hs & Hi & _).
    destruct (Status job); [destruct cancel |..]; cbn in Hset; inversion Hset; subst r';
      (split; [apply initLocked_inited; assumption | reflexivity]). }
  destruct Hi' as [Hi' Hd].
  split; [| split; [| exact Hd]].
  - unfold Get. rewrite (bind_success _ _ _ _ _ Hi'), bind_get, Hh, lookup_insert_eq.
    reflexivity.
  - intros jobID Hne. unfold Get.
    rewrite (bind_success _ _ _ _ _ Hi'), (bind_success _ _ _ _ _ Hinit), !bind_get, Hh.
    rewrite lookup_insert_ne by congruence.
    destruct (jobHistory r0 !! jobID); reflexivity.
Qed.

(** X3: on a registry that initialises and holds no nil handle for the
    job, [Delete] calls the job's handle, if the job has one, and drops it.
    For a job without a record it then fails with the not-found error and
    the records are as they were. For a job with a record it removes the
    record, marks the registry dirty and removes the output path exactly
    when asked to; [Get] no longer finds the job. *)
Theorem Delete_spec :
  forall (jobID : string) (del : bool) (r r0 : ChatArchiveRegistry),
    initLocked r = (Success tt, r0) ->
    runningJobs r0 !! jobID <> Some None ->
    let canceled :=
      match runningJobs r0 !! jobID with
      | Some (Some c) => [CancelCalled jobID c]
      | _ => []
      end in
    (jobHistory r0 !! jobID = None ->
     exists r',
       Delete jobID del r = (Failure (ArchiveJobNotFoundError jobID), r') /\
       jobHistory r' = jobHistory r0 /\
       runningJobs r' = delete jobID (runningJobs r0) /\
       effects r' = effects r0 ++ canceled) /\
    (forall job,
        jobHistory r0 !! jobID = Some job ->
        exists r',
          Delete jobID del r = (Success tt, r') /\
          jobHistory r' = delete jobID (jobHistory r0) /\
          runningJobs r' = delete jobID (runningJobs r0) /\
          effects r'
          = effects r0 ++ canceled
              ++ (if del then [OsRemoveAll (OutputPath (Request job))] else []) /\
          dirty r' = true /\
          Get jobID r' = (Failure (ArchiveJobNotFoundError jobID), r')).
Proof.
  intros jobID del r r0 Hinit Hnil canceled.
  pose proof (initLocked_result r r0 Hinit) as (Hs & Hi & _).
  assert (HG : forall r',
             started r' = true -> inited r' = true ->
             jobHistory r' = delete jobID (jobHistory r0) ->
             Get jobID r' = (Failure (ArchiveJobNotFoundError jobID), r')).
  { intros r' Hs' Hi' Hh. unfold Get.
    rewrite (bind_success _ _ _ _ _ (initLocked_inited r' Hs' Hi')), bind_get, Hh.
    rewrite lookup_delete_eq. reflexivity. }
  unfold Delete. rewrite (bind_success _ _ _ _ _ Hinit), bind_get.
  destruct (runningJobs r0 !! jobID) as [[c |] |] eqn:Hrun; [| congruence |];
    subst canceled; cbv [bind emit modify get ret fail];
    cbn [jobHistory set_runningJobs set_dirty set_jobHistory runningJobs started inited
         dirty edb effects].
  - (* a handle is registered *)
    split.
    + intros Hnone. rewrite Hnone. eexists. split; [reflexivity |]. cbn. auto.
    + intros job Hjob. rewrite Hjob.
      destruct del; (eexists; split; [reflexivity |]); cbn;
        rewrite <- ?app_assoc, ?app_nil_r; repeat split; try reflexivity;
        apply HG; assumption || reflexivity.
  - rewrite (delete_id (runningJobs r0) jobID Hrun), app_nil_r.
    split.
    + intros Hnone. rewrite Hnone. eexists. split; [reflexivity |]. auto.
    + intros job Hjob. rewrite Hjob.
      destruct del; (eexists; split; [reflexivity |]); cbn;
        rewrite ?app_nil_r; repeat split; try reflexivity;
        apply HG; assumption || reflexivity.
Qed.

Lemma Set_run (cancel : option CancelArchiveFn) (job : ArchiveChatJob)
    (r r0 : ChatArchiveRegistry) :
  initLocked r = (Success tt, r0) ->
  Set_ cancel job r
  = (Success tt,
     set_dirty true
       (set_jobHistory (<[JobID (Request job) := job]> (jobHistory r0))
          (set_runningJobs
             (match Status job with
              | COMPLETE | ERROR => delete (JobID (Request job)) (runningJobs r0)
              | RUNNING =>
                  match cancel with
                  | Some c => <[JobID (Request job) := Some c]> (runningJobs r0)
                  | None => runningJobs r0
                  end
              | _ => runningJobs r0
              end) r0))).
Proof.
  intros Hinit. unfold Set_. rewrite (bind_success _ _ _ _ _ Hinit).
  destruct r0. destruct (Status job); [destruct cancel |..]; reflexivity.
Qed.

Lemma Pause_run jobID job cancel (r r0 : ChatArchiveRegistry) :
  initLocked r = (Success tt, r0) ->
  jobHistory r0 !! jobID = Some job ->
  Status job = RUNNING ->
  runningJobs r0 !! jobID = Some (Some cancel) ->
  Pause jobID r
  = (Success tt,
     {| started := started r0; inited := inited r0; dirty := true;
        runningJobs := delete jobID (runningJobs r0); edb := edb r0;
        jobHistory := <[jobID := set_Status PAUSED (cancel_returns cancel)]> (jobHistory r0);
        effects := effects r0 ++ [CancelCalled jobID cancel] |}).
Proof.
  intros Hinit Hjob Hst Hrun.
  unfold Pause. rewrite (bind_success _ _ _ _ _ Hinit), bind_get, Hjob, Hst, Hrun.
  reflexivity.
Qed.

Lemma Resume_run jobID job (r : ChatArchiveRegistry) :
  started r = true -> inited r = true ->
  jobHistory r !! jobID = Some job ->
  Resume jobID r
  = match Status job with
    | ERROR | PAUSED | BACKGROUND_PAUSED =>
        (Success tt,
         {| started := started r; inited := inited r; dirty := dirty r;
            runningJobs := runningJobs r; edb := edb r; jobHistory := jobHistory r;
            effects := effects r ++ [GoArchiveChat (Request job)] |})
    | st => (Failure (ErrCannotResume st), r)
    end.
Proof.
  intros Hs Hi Hjob. unfold Resume.
  rewrite (bind_success _ _ _ _ _ (initLocked_inited r Hs Hi)), bind_get, Hjob.
  destruct (Status job); reflexivity.
Qed.

Lemma Pause_not_running jobID job (r : ChatArchiveRegistry) :
  started r = true -> inited r = true ->
  jobHistory r !! jobID = Some job -> Status job <> RUNNING ->
  Pause jobID r = (Failure (ErrCannotPause (Status job)), r).
Proof.
  intros Hs Hi Hjob Hst. unfold Pause.
  rewrite (bind_success _ _ _ _ _ (initLocked_inited r Hs Hi)), bind_get, Hjob.
  rewrite bool_decide_eq_false_2 by exact Hst. reflexivity.
Qed.

(** X4: on a registry that initialises, [Pause] on a job recorded as
    RUNNING that has a handle calls the handle once, files the
    record the handle returns as PAUSED and drops the handle; a second
    [Pause] fails, the job being paused already; [Resume] then launches one
    executor with the request of the paused record and changes neither the
    records nor the handles. *)
Theorem Pause_then_Resume :
  forall (jobID : string) (job : ArchiveChatJob) (cancel : CancelArchiveFn)
         (r r0 : ChatArchiveRegistry),
    initLocked r = (Success tt, r0) ->
    jobHistory r0 !! jobID = Some job ->
    Status job = RUNNING ->
    runningJobs r0 !! jobID = Some (Some cancel) ->
    exists r1 r2,
      Pause jobID r = (Success tt, r1) /\
      Pause jobID r1 = (Failure (ErrCannotPause PAUSED), r1) /\
      Resume jobID r1 = (Success tt, r2) /\
      effects r2
      = effects r0 ++ [CancelCalled jobID cancel;
                       GoArchiveChat (Request (cancel_returns cancel))] /\
      jobHistory r2 = <[jobID := set_Status PAUSED (cancel_returns cancel)]> (jobHistory r0) /\
      runningJobs r2 = delete jobID (runningJobs r0).
Proof.
  intros jobID job cancel r r0 Hinit Hjob Hst Hrun.
  pose proof (initLocked_result r r0 Hinit) as (Hs & Hi & _).
  eexists. eexists.
  split; [exact (Pause_run jobID job cancel r r0 Hinit Hjob Hst Hrun) |].
  split; [| split].
  - rewrite (Pause_not_running jobID (set_Status PAUSED (cancel_returns cancel)));
      [reflexivity | exact Hs | exact Hi | apply lookup_insert_eq | discriminate].
  - rewrite (Resume_run jobID (set_Status PAUSED (cancel_returns cancel)));
      [reflexivity | exact Hs | exact Hi | apply lookup_insert_eq].
  - cbn. rewrite <- app_assoc. auto.
Qed.

Lemma List_filter_perm {A : Type} (f : A -> bool) (l l' : list A) :
  l ≡ₚ l' -> List.filter f l ≡ₚ List.filter f l'.
Proof.
  induction 1 as [| x l l' _ IH | x y l | l l' l'' _ IH1 _ IH2]; cbn.
  - reflexivity.
  - destruct (f x); [constructor |]; exact IH.
  - destruct (f x), (f y); try reflexivity. apply perm_swap.
  - etransitivity; eassumption.
Qed.

(** X5: on a registry that initialises, [resumeAllBgJobs] does nothing
    when the registry is stopped during the delay and fails with the
    context's error when the context ends first; after the delay it
    launches one executor for every record
    whose status is BACKGROUND_PAUSED, and none for any other record, and
    leaves records and handles as they are. *)
Theorem resumeAllBgJobs_launches_background_paused :
  forall (r r0 : ChatArchiveRegistry),
    initLocked r = (Success tt, r0) ->
    resumeAllBgJobs StopClosed r = (Success tt, r) /\
    resumeAllBgJobs ContextDone r = (Failure ctx_Err, r) /\
    exists launched r',
      resumeAllBgJobs DelayElapsed r = (Success tt, r') /\
      effects r' = effects r0 ++ map GoArchiveChat launched /\
      launched
      ≡ₚ map (fun kv => Request kv.2)
           (List.filter (fun kv => bool_decide (Status kv.2 = BACKGROUND_PAUSED))
              (map_to_list (jobHistory r0))) /\
      jobHistory r' = jobHistory r0 /\
      runningJobs r' = runningJobs r0.
Proof.
  intros r r0 Hinit. split; [reflexivity |]. split; [reflexivity |].
  eexists (map (fun kv => Request kv.2) _), _. split; [| split; [| split; [| split]]].
  - unfold resumeAllBgJobs. rewrite Hinit. reflexivity.
  - cbn [effects]. rewrite map_map. reflexivity.
  - apply Permutation_map, List_filter_perm, range_perm.
  - reflexivity.
  - reflexivity.
Qed.

Lemma flushLocked_run (r : ChatArchiveRegistry) :
  flushLocked r
  = if dirty r
    then if edb_fails (edb r) then (Failure ErrDb, r)
         else (Success tt,
               set_dirty false
                 (set_edb {| edb_fails := false; edb_stored := Some (jobHistory r) |} r))
    else (Success tt, r).
Proof.
  unfold flushLocked. rewrite bind_get.
  destruct (dirty r); [| reflexivity]. destruct (edb_fails (edb r)); reflexivity.
Qed.

(** The loop of [bgPauseAllJobsLocked] over the handles ranged. *)
Lemma bgPause_loop (l : list (string * option CancelArchiveFn)) :
  NoDup l.*1 ->
  (forall id, (id, None) ∉ l) ->
  forall r,
    exists r',
      (fix loop (l : list (string * option CancelArchiveFn)) : RM unit :=
         match l with
         | [] => ret tt
         | (jobID, cancel) :: l' =>
             match cancel with
             | Some c =>
                 emit (CancelCalled jobID c) ;;
                 modify (fun r =>
                   set_jobHistory
                     (<[jobID := set_Status BACKGROUND_PAUSED (cancel_returns c)]>
                        (jobHistory r)) r) ;;
                 loop l'
             | None => fail ErrCancelNil
             end
         end) l r = (Success tt, r') /\
      started r' = started r /\ inited r' = inited r /\ dirty r' = dirty r /\
      runningJobs r' = runningJobs r /\ edb r' = edb r /\
      effects r' = effects r ++ omap (fun kv => CancelCalled kv.1 <$> kv.2) l /\
      (forall id c, (id, Some c) ∈ l ->
                    jobHistory r' !! id
                    = Some (set_Status BACKGROUND_PAUSED (cancel_returns c))) /\
      (forall id, id ∉ l.*1 -> jobHistory r' !! id = jobHistory r !! id).
Proof.
  induction l as [| [jobID [c |]] l IH]; intros Hnd Hnil r.
  - exists r. cbn. rewrite app_nil_r. repeat split; try reflexivity.
    intros id c Hin. apply elem_of_nil in Hin. contradiction.
  - cbn [fmap list_fmap fst] in Hnd. apply NoDup_cons in Hnd as [Hnotin Hnd].
    assert (Hnil' : forall id, (id, None) ∉ l).
    { intros id Hin. apply (Hnil id). right. exact Hin. }
    set (r1 := set_jobHistory
                 (<[jobID := set_Status BACKGROUND_PAUSED (cancel_returns c)]> (jobHistory r))
                 (snd (emit (CancelCalled jobID c) r))).
    destruct (IH Hnd Hnil' r1) as (r' & Hrun & Hs & Hi & Hd & Hr & He & Hf & Hin & Hout).
    exists r'. split.
    { unfold emit. rewrite !bind_modify. exact Hrun. }
    split; [exact Hs |]. split; [exact Hi |]. split; [exact Hd |].
    split; [exact Hr |]. split; [exact He |].
    split; [| split].
    + rewrite Hf. subst r1. cbn. rewrite <- app_assoc. reflexivity.
    + intros id c' Hel. apply elem_of_cons in Hel as [Heq | Hel].
      * inversion Heq; subst id c'. rewrite Hout by exact Hnotin.
        subst r1. cbn. apply lookup_insert_eq.
      * apply Hin. exact Hel.
    + intros id Hid. cbn [fmap list_fmap fst] in Hid.
      apply not_elem_of_cons in Hid as [Hne Hid].
      rewrite Hout by exact Hid. subst r1. cbn. apply lookup_insert_ne. congruence.
  - exfalso. apply (Hnil jobID). left.
Qed.

(** What [bgPauseAllJobsLocked] leaves, the handles being called in the
    order in which the map is ranged over. *)
Lemma bgPauseAllJobsLocked_run :
  forall (r : ChatArchiveRegistry),
    (forall jobID, runningJobs r !! jobID <> Some None) ->
    exists r',
      bgPauseAllJobsLocked r = (Success tt, r') /\
      runningJobs r' = ∅ /\
      (forall jobID c,
          runningJobs r !! jobID = Some (Some c) ->
          jobHistory r' !! jobID = Some (set_Status BACKGROUND_PAUSED (cancel_returns c))) /\
      (forall jobID, runningJobs r !! jobID = None ->
                     jobHistory r' !! jobID = jobHistory r !! jobID) /\
      effects r'
      = effects r ++ omap (fun kv => CancelCalled kv.1 <$> kv.2) (range (runningJobs r)) /\
      started r' = started r /\ inited r' = inited r /\
      (if edb_fails (edb r)
       then dirty r' = true /\ edb r' = edb r
       else dirty r' = false /\ edb_stored (edb r') = Some (jobHistory r')).
Proof.
  intros r Hnil.
  assert (Hnd : NoDup (range (runningJobs r)).*1).
  { rewrite range_perm. apply NoDup_fst_map_to_list. }
  assert (Hnil' : forall id, (id, None) ∉ range (runningJobs r)).
  { intros id Hin. rewrite range_perm in Hin. apply elem_of_map_to_list in Hin.
    exact (Hnil id Hin). }
  destruct (bgPause_loop _ Hnd Hnil' r)
    as (r1 & Hrun & Hs & Hi & Hd & Hr & He & Hf & Hin & Hout).
  unfold bgPauseAllJobsLocked. rewrite bind_get, (bind_success _ _ _ _ _ Hrun).
  rewrite !bind_modify. unfold bind, try. rewrite flushLocked_run.
  cbn [dirty set_dirty set_runningJobs edb].
  assert (Hin' : forall jobID c,
             runningJobs r !! jobID = Some (Some c) ->
             jobHistory r1 !! jobID = Some (set_Status BACKGROUND_PAUSED (cancel_returns c))).
  { intros jobID c Hl. apply Hin. rewrite range_perm. apply elem_of_map_to_list. exact Hl. }
  assert (Hout' : forall jobID, runningJobs r !! jobID = None ->
                                jobHistory r1 !! jobID = jobHistory r !! jobID).
  { intros jobID Hl. apply Hout. rewrite range_perm. intros Hel.
    apply list_elem_of_fmap in Hel as ([k v] & -> & Hel).
    apply elem_of_map_to_list in Hel. cbn in Hl. congruence. }
  rewrite He.
  destruct (edb_fails (edb r)) eqn:Hfail;
    (eexists; split; [reflexivity |]; cbn;
     repeat split; try assumption; try reflexivity).
Qed.

(** X6: when no handle is nil, [bgPauseAllJobsLocked] calls every handle
    once, files the record
    each returns as BACKGROUND_PAUSED under the handle's job ID, leaves the
    record of every job without a handle as it is, and empties the handle
    map. It then flushes: the history is stored when the database works,
    and the registry stays dirty when it fails. *)
Theorem bgPauseAllJobsLocked_spec :
  forall (r : ChatArchiveRegistry),
    (forall jobID, runningJobs r !! jobID <> Some None) ->
    exists r' canceled,
      bgPauseAllJobsLocked r = (Success tt, r') /\
      runningJobs r' = ∅ /\
      (forall jobID c,
          runningJobs r !! jobID = Some (Some c) ->
          jobHistory r' !! jobID = Some (set_Status BACKGROUND_PAUSED (cancel_returns c))) /\
      (forall jobID, runningJobs r !! jobID = None ->
                     jobHistory r' !! jobID = jobHistory r !! jobID) /\
      effects r' = effects r ++ canceled /\
      canceled ≡ₚ omap (fun kv => CancelCalled kv.1 <$> kv.2) (map_to_list (runningJobs r)) /\
      started r' = started r /\ inited r' = inited r /\
      (if edb_fails (edb r)
       then dirty r' = true /\ edb r' = edb r
       else dirty r' = false /\ edb_stored (edb r') = Some (jobHistory r')).
Proof.
  intros r Hnil.
  destruct (bgPauseAllJobsLocked_run r Hnil)
    as (r' & Hrun & Hnone & Hin & Hout & Heff & Hs & Hi & Hflush).
  exists r', (omap (fun kv => CancelCalled kv.1 <$> kv.2) (range (runningJobs r))).
  split; [exact Hrun |]. split; [exact Hnone |]. split; [exact Hin |].
  split; [exact Hout |]. split; [exact Heff |]. split.
  { rewrite range_perm. reflexivity. }
  split; [exact Hs |]. split; [exact Hi | exact Hflush].
Qed.

(** X7: [Stop] on a started and initialised registry that holds no nil
    handle marks it as stopped, pauses every
    running job in the background and drops all handles; a second [Stop]
    changes nothing. Once the registry is started again, [resumeAllBgJobs]
    launches an executor for each job that was running at the stop. *)
Theorem Stop_pauses_and_Start_resumes :
  forall (r : ChatArchiveRegistry),
    started r = true -> inited r = true ->
    (forall jobID, runningJobs r !! jobID <> Some None) ->
    exists r1,
      Stop r = (Success tt, r1) /\
      started r1 = false /\
      runningJobs r1 = ∅ /\
      Stop r1 = (Success tt, r1) /\
      forall jobID c,
        runningJobs r !! jobID = Some (Some c) ->
        jobHistory r1 !! jobID = Some (set_Status BACKGROUND_PAUSED (cancel_returns c)) /\
        exists r2,
          resumeAllBgJobs DelayElapsed (Start r1) = (Success tt, r2) /\
          GoArchiveChat (Request (cancel_returns c)) ∈ effects r2.
Proof.
  intros r Hs Hi Hnil.
  destruct (bgPauseAllJobsLocked_run (set_started false r) Hnil)
    as (r1 & Hrun & Hr & Hin & _ & _ & Hs1 & Hi1 & _).
  cbn [started inited set_started] in Hs1, Hi1.
  exists r1. split.
  { unfold Stop. rewrite bind_get, Hs, bind_modify. exact Hrun. }
  split; [exact Hs1 |]. split; [exact Hr |]. split.
  { unfold Stop. rewrite bind_get, Hs1. reflexivity. }
  intros jobID c Hc. specialize (Hin jobID c Hc). split; [exact Hin |].
  assert (Hinit : initLocked (Start r1) = (Success tt, Start r1)).
  { apply initLocked_inited; unfold Start; rewrite Hs1; cbn; congruence. }
  eexists. split.
  { unfold resumeAllBgJobs. rewrite Hinit. reflexivity. }
  cbn [effects]. apply elem_of_app. right.
  apply list_elem_of_In, in_map_iff.
  exists (jobID, set_Status BACKGROUND_PAUSED (cancel_returns c)). split; [reflexivity |].
  apply filter_In. split.
  - apply list_elem_of_In. rewrite range_perm. apply elem_of_map_to_list.
    unfold Start. rewrite Hs1. exact Hin.
  - reflexivity.
Qed.

(** X8: [flushLocked] writes nothing when the registry is not dirty; it
    fails, and the registry stays dirty, when the database fails; otherwise
    it stores the history and clears the mark. A registry made anew over the
    database then loads the same history. After [OnDbNuke] the registry
    keeps its history in memory but reads the database at its next
    operation, and starts from an empty history when the database is
    empty. *)
Theorem flushLocked_then_reload :
  forall (r : ChatArchiveRegistry),
    (dirty r = false -> flushLocked r = (Success tt, r)) /\
    (dirty r = true -> edb_fails (edb r) = true -> flushLocked r = (Failure ErrDb, r)) /\
    (dirty r = true -> edb_fails (edb r) = false ->
     exists r1,
       flushLocked r = (Success tt, r1) /\
       dirty r1 = false /\
       jobHistory r1 = jobHistory r /\
       (* a registry made anew over the database *)
       (exists r2,
           initLocked (Start (NewChatArchiveRegistry (edb r1))) = (Success tt, r2) /\
           jobHistory r2 = jobHistory r) /\
       (* the same registry once the local database has been wiped *)
       (started r = true ->
        exists r2 r3,
          OnDbNuke r1 = (Success tt, r2) /\ inited r2 = false /\
          jobHistory r2 = jobHistory r /\
          initLocked (set_edb {| edb_fails := false; edb_stored := None |} r2)
          = (Success tt, r3) /\
          jobHistory r3 = ∅)).
Proof.
  intros r. rewrite flushLocked_run. split; [| split].
  - intros ->. reflexivity.
  - intros -> ->. reflexivity.
  - intros -> ->. eexists. split; [reflexivity |]. cbn.
    split; [reflexivity |]. split; [reflexivity |]. split.
    + eexists. split; reflexivity.
    + intros Hs.
      set (r1 := set_dirty false (set_edb _ r)).
      exists (set_inited false r1). eexists.
      split; [| split; [reflexivity |]; split; [reflexivity |]].
      * unfold OnDbNuke, bind, get. cbn [started set_dirty set_edb r1].
        rewrite Hs. reflexivity.
      * unfold initLocked, bind, get.
        cbn [started inited edb set_inited set_dirty set_edb edb_fails r1 negb].
        rewrite Hs. cbn. split; reflexivity.
Qed.

Lemma ArchiveChat_register_run now arg total complete cps (r r0 : ChatArchiveRegistry) :
  initLocked r = (Success tt, r0) ->
  let jobInfo :=
    match jobHistory r0 !! JobID arg with
    | Some old => set_Err "" (set_Status RUNNING old)
    | None =>
        {| Request := arg; StartedAt := now; Status := RUNNING; Err := "";
           MessagesTotal := 0; MessagesComplete := 0; Checkpoints := ∅ |}
    end in
  ArchiveChat_register now arg total complete cps r
  = (Success jobInfo,
     {| started := started r0; inited := inited r0; dirty := true;
        runningJobs :=
          <[JobID (Request jobInfo) := Some (pause_closure jobInfo total complete cps)]>
            (runningJobs r0);
        edb := edb r0;
        jobHistory := <[JobID (Request jobInfo) := jobInfo]> (jobHistory r0);
        effects := effects r0 |}).
Proof.
  intros Hinit jobInfo.
  pose proof (initLocked_again r r0 Hinit) as Hinit0.
  unfold ArchiveChat_register.
  assert (Hget : try (Get (JobID arg)) r
                 = (Success (match jobHistory r0 !! JobID arg with
                             | Some old => Success old
                             | None => Failure (ArchiveJobNotFoundError (JobID arg))
                             end), r0)).
  { unfold try, Get. rewrite (bind_success _ _ _ _ _ Hinit), bind_get.
    destruct (jobHistory r0 !! JobID arg); reflexivity. }
  rewrite (bind_success _ _ _ _ _ Hget).
  assert (Hinfo : ArchiveChat_jobInfo now arg
                    (match jobHistory r0 !! JobID arg with
                     | Some old => Success old
                     | None => Failure (ArchiveJobNotFoundError (JobID arg))
                     end) = Success jobInfo).
  { subst jobInfo. destruct (jobHistory r0 !! JobID arg); reflexivity. }
  rewrite Hinfo.
  assert (Hst : Status jobInfo = RUNNING).
  { subst jobInfo. destruct (jobHistory r0 !! JobID arg); reflexivity. }
  rewrite (bind_success _ _ _ _ _ (Set_run _ jobInfo r0 r0 Hinit0)), Hst.
  reflexivity.
Qed.

(** X9: on a well-formed registry that initialises, an executor
    registers its job as RUNNING with no error text. A
    job the registry does not know gets the request and the clock as its
    start time, no checkpoint and no progress; a job it knows keeps its
    request, start time, checkpoints and progress. [Get] then returns that
    record, the executor's [pause] closure is the job's handle, and the
    records and handles of the other jobs are as before. *)
Theorem ArchiveChat_register_spec :
  forall (now : Z) (arg : ArchiveChatJobRequest) (total complete : Z)
         (cps : gmap string ArchiveChatConvCheckpoint) (r r0 : ChatArchiveRegistry),
    initLocked r = (Success tt, r0) ->
    history_wf (jobHistory r0) ->
    exists jobInfo r1,
      ArchiveChat_register now arg total complete cps r = (Success jobInfo, r1) /\
      Status jobInfo = RUNNING /\ Err jobInfo = ""%string /\
      JobID (Request jobInfo) = JobID arg /\
      match jobHistory r0 !! JobID arg with
      | None =>
          Request jobInfo = arg /\ StartedAt jobInfo = now /\ Checkpoints jobInfo = ∅ /\
          MessagesTotal jobInfo = 0 /\ MessagesComplete jobInfo = 0
      | Some old =>
          Request jobInfo = Request old /\ StartedAt jobInfo = StartedAt old /\
          Checkpoints jobInfo = Checkpoints old /\
          MessagesTotal jobInfo = MessagesTotal old /\
          MessagesComplete jobInfo = MessagesComplete old
      end /\
      Get (JobID arg) r1 = (Success jobInfo, r1) /\
      runningJobs r1 !! JobID arg = Some (Some (pause_closure jobInfo total complete cps)) /\
      (forall jobID, jobID <> JobID arg ->
                     jobHistory r1 !! jobID = jobHistory r0 !! jobID /\
                     runningJobs r1 !! jobID = runningJobs r0 !! jobID).
Proof.
  intros now arg total complete cps r r0 Hinit Hwf.
  pose proof (initLocked_result r r0 Hinit) as (Hs & Hi & _).
  pose proof (ArchiveChat_register_run now arg total complete cps r r0 Hinit) as Hrun.
  cbv zeta in Hrun. eexists _, _. split; [exact Hrun |].
  assert (Hid : JobID (Request
                  (match jobHistory r0 !! JobID arg with
                   | Some old => set_Err "" (set_Status RUNNING old)
                   | None =>
                       {| Request := arg; StartedAt := now; Status := RUNNING; Err := "";
                          MessagesTotal := 0; MessagesComplete := 0; Checkpoints := ∅ |}
                   end)) = JobID arg).
  { destruct (jobHistory r0 !! JobID arg) as [old |] eqn:Hold; [| reflexivity].
    cbn. apply Hwf in Hold. exact Hold. }
  rewrite Hid.
  split; [destruct (jobHistory r0 !! JobID arg); reflexivity |].
  split; [destruct (jobHistory r0 !! JobID arg); reflexivity |].
  split; [reflexivity |].
  split; [destruct (jobHistory r0 !! JobID arg); cbn; auto |].
  split; [| split].
  - unfold Get. erewrite bind_success; [| apply initLocked_inited; assumption].
    rewrite bind_get. cbn [jobHistory]. rewrite lookup_insert_eq. reflexivity.
  - cbn [runningJobs]. apply lookup_insert_eq.
  - intros jobID Hne. cbn [jobHistory runningJobs].
    rewrite !lookup_insert_ne by congruence. auto.
Qed.

(** X10: on a well-formed registry that initialises, a job that is
    registered, paused and resumed goes on from where it was. [Pause] files the record with the progress the executor has
    made; the exit of the cancelled executor changes nothing; [Resume]
    launches the job's request again; and the executor that registers next
    finds the start time of the first run and the progress and checkpoints
    recorded at the pause. *)
Theorem pause_and_resume_keep_progress :
  forall (now : Z) (arg : ArchiveChatJobRequest) (total complete : Z)
         (cps : gmap string ArchiveChatConvCheckpoint) (r r0 : ChatArchiveRegistry),
    initLocked r = (Success tt, r0) ->
    history_wf (jobHistory r0) ->
    exists jobInfo r1 r2 r3,
      ArchiveChat_register now arg total complete cps r = (Success jobInfo, r1) /\
      Pause (JobID arg) r1 = (Success tt, r2) /\
      (forall err left, ArchiveChat_exit true err left r2 = (Success tt, r2)) /\
      Status <$> jobHistory r2 !! JobID arg = Some PAUSED /\
      Resume (JobID arg) r2 = (Success tt, r3) /\
      effects r3
      = effects r0 ++ [CancelCalled (JobID arg) (pause_closure jobInfo total complete cps);
                       GoArchiveChat (Request jobInfo)] /\
      forall now' total' complete' cps',
        exists jobInfo' r4,
          ArchiveChat_register now' (Request jobInfo) total' complete' cps' r3
          = (Success jobInfo', r4) /\
          Request jobInfo' = Request jobInfo /\
          StartedAt jobInfo' = StartedAt jobInfo /\
          Status jobInfo' = RUNNING /\
          MessagesTotal jobInfo' = total /\
          MessagesComplete jobInfo' = complete /\
          Checkpoints jobInfo' = cps.
Proof.
  intros now arg total complete cps r r0 Hinit Hwf.
  pose proof (initLocked_result r r0 Hinit) as (Hs & Hi & _).
  pose proof (ArchiveChat_register_run now arg total complete cps r r0 Hinit) as Hrun.
  cbv zeta in Hrun.
  set (jobInfo := match jobHistory r0 !! JobID arg with
                  | Some old => set_Err "" (set_Status RUNNING old)
                  | None => _
                  end) in Hrun.
  assert (Hid : JobID (Request jobInfo) = JobID arg).
  { subst jobInfo. destruct (jobHistory r0 !! JobID arg) as [old |] eqn:Hold; [| reflexivity].
    cbn. apply Hwf in Hold. exact Hold. }
  assert (Hst : Status jobInfo = RUNNING).
  { subst jobInfo. destruct (jobHistory r0 !! JobID arg); reflexivity. }
  rewrite Hid in Hrun.
  set (r1 := {| started := started r0; jobHistory := _ |}) in Hrun.
  assert (Hinit1 : initLocked r1 = (Success tt, r1)) by (apply initLocked_inited; assumption).
  pose proof (Pause_run (JobID arg) jobInfo (pause_closure jobInfo total complete cps)
                r1 r1 Hinit1 (lookup_insert_eq _ _ _) Hst (lookup_insert_eq _ _ _)) as HP.
  set (r2 := {| started := started r1; jobHistory := _ |}) in HP.
  pose proof (Resume_run (JobID arg)
                (set_Status PAUSED (cancel_returns (pause_closure jobInfo total complete cps)))
                r2 Hs Hi (lookup_insert_eq _ _ _)) as HR.
  cbn [Status set_Status] in HR.
  set (r3 := {| started := started r2; jobHistory := _ |}) in HR.
  exists jobInfo, r1, r2, r3.
  split; [exact Hrun |]. split; [exact HP |]. split; [reflexivity |].
  split; [subst r2; cbn [jobHistory]; rewrite lookup_insert_eq; reflexivity |].
  split; [exact HR |].
  split; [subst r3 r2 r1; cbn; rewrite <- app_assoc; reflexivity |].
  intros now' total' complete' cps'.
  assert (Hinit3 : initLocked r3 = (Success tt, r3)) by (apply initLocked_inited; assumption).
  pose proof (ArchiveChat_register_run now' (Request jobInfo) total' complete' cps' r3 r3 Hinit3)
    as Hrun'.
  cbv zeta in Hrun'.
  assert (Hl : jobHistory r3 !! JobID (Request jobInfo)
               = Some (set_Status PAUSED
                         (cancel_returns (pause_closure jobInfo total complete cps)))).
  { rewrite Hid. subst r3 r2. cbn [jobHistory]. apply lookup_insert_eq. }
  rewrite Hl in Hrun'.
  eexists _, _. split; [exact Hrun' |]. cbn. repeat split; reflexivity.
Qed.

(** X11: on a registry that initialises, when an executor exits after
    the registry has cancelled it, nothing is written. Otherwise its record is filed as COMPLETE, or as
    ERROR with the text of the error, and its handle is dropped: the job can
    no longer be paused, a complete job cannot be resumed, and a failed one
    can, which launches its request again. *)
Theorem ArchiveChat_exit_spec :
  forall (err : option string) (jobInfo : ArchiveChatJob) (r r0 : ChatArchiveRegistry),
    initLocked r = (Success tt, r0) ->
    let jobID := JobID (Request jobInfo) in
    ArchiveChat_exit true err jobInfo r = (Success tt, r) /\
    exists r',
      ArchiveChat_exit false err jobInfo r = (Success tt, r') /\
      runningJobs r' = delete jobID (runningJobs r0) /\
      jobHistory r'
      = <[jobID := match err with
                   | None => set_Status COMPLETE jobInfo
                   | Some msg => set_Err msg (set_Status ERROR jobInfo)
                   end]> (jobHistory r0) /\
      (exists e, Pause jobID r' = (Failure e, r') /\ is_NotFound e = false) /\
      match err with
      | None => Resume jobID r' = (Failure (ErrCannotResume COMPLETE), r')
      | Some msg =>
          exists r'', Resume jobID r' = (Success tt, r'') /\
                      effects r'' = effects r0 ++ [GoArchiveChat (Request jobInfo)]
      end.
Proof.
  intros err jobInfo r r0 Hinit jobID.
  pose proof (initLocked_result r r0 Hinit) as (Hs & Hi & _).
  split; [reflexivity |].
  unfold ArchiveChat_exit.
  set (final := match err with
                | None => set_Status COMPLETE jobInfo
                | Some msg => set_Err msg (set_Status ERROR jobInfo)
                end).
  assert (Hfid : JobID (Request final) = jobID) by (subst final; destruct err; reflexivity).
  assert (Hfst : Status final = COMPLETE \/ Status final = ERROR).
  { subst final. destruct err; cbn; auto. }
  pose proof (Set_run None final r r0 Hinit) as Hset. rewrite Hfid in Hset.
  assert (Hrun : match Status final with
                 | COMPLETE | ERROR => delete jobID (runningJobs r0)
                 | RUNNING => runningJobs r0
                 | _ => runningJobs r0
                 end = delete jobID (runningJobs r0)).
  { destruct Hfst as [-> | ->]; reflexivity. }
  rewrite Hrun in Hset.
  set (r' := set_dirty true _) in Hset.
  exists r'. split.
  { unfold bind, try. rewrite Hset. reflexivity. }
  split; [reflexivity |]. split; [reflexivity |].
  assert (Hl : jobHistory r' !! jobID = Some final) by apply lookup_insert_eq.
  split.
  - exists (ErrCannotPause (Status final)). split; [| reflexivity].
    apply (Pause_not_running jobID final r' Hs Hi Hl).
    destruct Hfst as [-> | ->]; discriminate.
  - rewrite (Resume_run jobID final r' Hs Hi Hl). subst final.
    destruct err as [msg |]; cbn [Status set_Status set_Err].
    + eexists. split; reflexivity.
    + reflexivity.
Qed.

Lemma history_wf_insert h k (j : ArchiveChatJob) :
  history_wf h -> JobID (Request j) = k -> history_wf (<[k := j]> h).
Proof.
  intros Hwf Hk k' j'. rewrite lookup_insert_Some.
  intros [[<- <-] | [_ Hl]]; [exact Hk | exact (Hwf _ _ Hl)].
Qed.

Lemma history_wf_delete h k : history_wf h -> history_wf (delete k h).
Proof.
  intros Hwf k' j'. rewrite lookup_delete_Some. intros [_ Hl]. exact (Hwf _ _ Hl).
Qed.

Lemma history_wf_empty : history_wf ∅.
Proof. intros k j. rewrite lookup_empty. discriminate. Qed.

Lemma registry_wf_effects (r : ChatArchiveRegistry) es :
  registry_wf r ->
  registry_wf {| started := started r; inited := inited r; dirty := dirty r;
                 runningJobs := runningJobs r; edb := edb r; jobHistory := jobHistory r;
                 effects := es |}.
Proof. intros Hwf. exact Hwf. Qed.

Lemma registry_wf_initLocked (r : ChatArchiveRegistry) :
  registry_wf r -> registry_wf (snd (initLocked r)).
Proof.
  intros (Hh & Hst & Hc). unfold initLocked. rewrite bind_get.
  destruct (started r); cbn [negb]; [| split; auto].
  destruct (inited r); [split; auto |].
  destruct (edb_fails (edb r)); [split; auto |].
  unfold registry_wf. cbn. destruct (edb_stored (edb r)) as [h |] eqn:Hstored; cbn.
  - split; [apply Hst; reflexivity |]. split; [| exact Hc].
    intros h'. rewrite Hstored. exact (Hst h').
  - split; [apply history_wf_empty |]. split; [| exact Hc].
    intros h'. rewrite Hstored. discriminate.
Qed.

(** An operation that starts with [initLocked] keeps the registry well
    formed when what it does afterwards keeps it so. *)
Lemma registry_wf_after_init {A : Type} (k : RM A) (r : ChatArchiveRegistry) :
  (forall r0, registry_wf r0 -> registry_wf (snd (k r0))) ->
  registry_wf r -> registry_wf (snd ((initLocked ;; k) r)).
Proof.
  intros Hk Hwf. apply registry_wf_initLocked in Hwf. unfold bind.
  destruct (initLocked r) as [[[] | e] r0]; cbn [snd] in *; [apply Hk |]; exact Hwf.
Qed.

Lemma registry_wf_Set cancel job (r : ChatArchiveRegistry) :
  (forall c, cancel = Some c -> JobID (Request (cancel_returns c)) = JobID (Request job)) ->
  registry_wf r -> registry_wf (snd (Set_ cancel job r)).
Proof.
  intros Hcancel. unfold Set_. apply registry_wf_after_init.
  intros r0 (Hh & Hst & Hc).
  assert (Hins : forall r1, registry_wf r1 ->
             registry_wf (set_dirty true
                            (set_jobHistory (<[JobID (Request job) := job]> (jobHistory r1)) r1))).
  { intros r1 (Hh1 & Hst1 & Hc1). split; [| split; assumption].
    apply history_wf_insert; [assumption | reflexivity]. }
  destruct (Status job); [destruct cancel as [c |] |..];
    rewrite ?bind_modify, ?bind_ret; apply Hins; try (split; [| split]; assumption).
  - split; [exact Hh |]. split; [exact Hst |].
    intros id c'. cbn. rewrite lookup_insert_Some.
    intros [[<- Heq] | [_ Hl]]; [| exact (Hc _ _ Hl)].
    inversion Heq; subst c'. apply Hcancel. reflexivity.
  - split; [exact Hh |]. split; [exact Hst |].
    intros id c'. cbn. rewrite lookup_delete_Some. intros [_ Hl]. exact (Hc _ _ Hl).
  - split; [exact Hh |]. split; [exact Hst |].
    intros id c'. cbn. rewrite lookup_delete_Some. intros [_ Hl]. exact (Hc _ _ Hl).
Qed.

Lemma registry_wf_bgPause_loop (l : list (string * option CancelArchiveFn)) :
  (forall id c, (id, Some c) ∈ l -> JobID (Request (cancel_returns c)) = id) ->
  forall r,
    registry_wf r ->
    registry_wf
      (snd ((fix loop (l : list (string * option CancelArchiveFn)) : RM unit :=
         match l with
         | [] => ret tt
         | (jobID, cancel) :: l' =>
             match cancel with
             | Some c =>
                 emit (CancelCalled jobID c) ;;
                 modify (fun r =>
                   set_jobHistory
                     (<[jobID := set_Status BACKGROUND_PAUSED (cancel_returns c)]>
                        (jobHistory r)) r) ;;
                 loop l'
             | None => fail ErrCancelNil
             end
         end) l r)).
Proof.
  induction l as [| [jobID [c |]] l IH]; intros Hl r Hwf.
  - exact Hwf.
  - unfold emit. rewrite !bind_modify. apply IH.
    + intros id c' Hin. apply Hl. right. exact Hin.
    + destruct Hwf as (Hh & Hst & Hc). split; [| split; assumption].
      cbn. apply history_wf_insert; [exact Hh |]. cbn. apply Hl. left.
  - exact Hwf.
Qed.

Lemma registry_wf_flushLocked (r : ChatArchiveRegistry) :
  registry_wf r -> registry_wf (snd (flushLocked r)).
Proof.
  intros (Hh & Hst & Hc). rewrite flushLocked_run.
  destruct (dirty r); [| split; auto]. destruct (edb_fails (edb r)); [split; auto |].
  split; [exact Hh |]. split; [| exact Hc].
  intros h. cbn. intros Heq. inversion Heq; subst h. exact Hh.
Qed.

Lemma registry_wf_bgPauseAllJobsLocked (r : ChatArchiveRegistry) :
  registry_wf r -> registry_wf (snd (bgPauseAllJobsLocked r)).
Proof.
  intros Hwf. unfold bgPauseAllJobsLocked. rewrite bind_get.
  assert (Hl : forall id c, (id, Some c) ∈ range (runningJobs r) ->
                            JobID (Request (cancel_returns c)) = id).
  { intros id c Hin. rewrite range_perm in Hin. apply elem_of_map_to_list in Hin.
    destruct Hwf as (_ & _ & Hc). exact (Hc _ _ Hin). }
  pose proof (registry_wf_bgPause_loop _ Hl r Hwf) as Hloop.
  unfold bind at 1.
  destruct ((fix loop (l : list (string * option CancelArchiveFn)) : RM unit := _) _ r)
    as [[[] | e] r1]; cbn [snd] in Hloop |- *; [| exact Hloop].
  rewrite !bind_modify. unfold bind, try.
  assert (Hwf2 : registry_wf (set_dirty true (set_runningJobs ∅ r1))).
  { destruct Hloop as (Hh & Hst & Hc). split; [exact Hh |]. split; [exact Hst |].
    intros id c. cbn. rewrite lookup_empty. discriminate. }
  apply registry_wf_flushLocked in Hwf2.
  destruct (flushLocked (set_dirty true (set_runningJobs ∅ r1))) as [[[] | e] r2]; exact Hwf2.
Qed.

(** X12: every operation keeps a well-formed registry well formed: each
    record, in memory or stored, is filed under its own job ID, and each
    handle returns a record of the job it is registered for. [Set] needs a
    handle that returns a record of the job set. *)
Theorem registry_wf_is_kept :
  forall (r : ChatArchiveRegistry),
    registry_wf r ->
    registry_wf (Start r) /\
    registry_wf (snd (Stop r)) /\
    registry_wf (snd (OnDbNuke r)) /\
    registry_wf (snd (flushLocked r)) /\
    registry_wf (snd (bgPauseAllJobsLocked r)) /\
    (forall wake, registry_wf (snd (resumeAllBgJobs wake r))) /\
    registry_wf (snd (List r)) /\
    (forall jobID, registry_wf (snd (Get jobID r))) /\
    (forall jobID del, registry_wf (snd (Delete jobID del r))) /\
    (forall cancel job,
        (forall c, cancel = Some c ->
                   JobID (Request (cancel_returns c)) = JobID (Request job)) ->
        registry_wf (snd (Set_ cancel job r))) /\
    (forall jobID, registry_wf (snd (Pause jobID r))) /\
    (forall jobID, registry_wf (snd (Resume jobID r))) /\
    (forall now arg total complete cps,
        registry_wf (snd (ArchiveChat_register now arg total complete cps r))) /\
    (forall canceled err jobInfo,
        registry_wf (snd (ArchiveChat_exit canceled err jobInfo r))).
Proof.
  intros r Hwf.
  split. { unfold Start. destruct (started r); exact Hwf. }
  split.
  { unfold Stop. rewrite bind_get. destruct (started r); [| exact Hwf].
    rewrite bind_modify. apply registry_wf_bgPauseAllJobsLocked. exact Hwf. }
  split. { unfold OnDbNuke. rewrite bind_get. destruct (started r); exact Hwf. }
  split; [apply registry_wf_flushLocked; exact Hwf |].
  split; [apply registry_wf_bgPauseAllJobsLocked; exact Hwf |].
  split.
  { intros [| |]; try exact Hwf. unfold resumeAllBgJobs.
    pose proof (registry_wf_initLocked r Hwf) as Hi.
    destruct (initLocked r) as [[[] | e] r0]; exact Hi. }
  split.
  { unfold List. apply registry_wf_after_init; [| exact Hwf]. intros r0 H0. exact H0. }
  split.
  { intros jobID. unfold Get. apply registry_wf_after_init; [| exact Hwf].
    intros r0 H0. rewrite bind_get. destruct (jobHistory r0 !! jobID); exact H0. }
  split.
  { intros jobID del. unfold Delete. apply registry_wf_after_init; [| exact Hwf].
    intros r0 (Hh & Hst & Hc). rewrite bind_get.
    assert (Hrest : forall r1, registry_wf r1 ->
              registry_wf
                (snd ((r <- get ;;
                       match jobHistory r !! jobID with
                       | None => fail (ArchiveJobNotFoundError jobID)
                       | Some job =>
                           modify (fun r =>
                             set_dirty true (set_jobHistory (delete jobID (jobHistory r)) r)) ;;
                           if del then emit (OsRemoveAll (OutputPath (Request job)))
                           else ret tt
                       end) r1))).
    { intros r1 (Hh1 & Hst1 & Hc1). rewrite bind_get.
      destruct (jobHistory r1 !! jobID); [| split; auto].
      rewrite bind_modify. destruct del; (split; [| split; assumption]);
        apply history_wf_delete; exact Hh1. }
    destruct (runningJobs r0 !! jobID) as [[c |] |] eqn:Hrun.
    - erewrite bind_success; [| reflexivity]. apply Hrest.
      split; [exact Hh |]. split; [exact Hst |].
      intros id c'. cbn. rewrite lookup_delete_Some. intros [_ Hl]. exact (Hc _ _ Hl).
    - split; auto.
    - rewrite bind_ret. apply Hrest. split; auto. }
  split; [intros cancel job Hc; apply registry_wf_Set; assumption |].
  split.
  { intros jobID. unfold Pause. apply registry_wf_after_init; [| exact Hwf].
    intros r0 (Hh & Hst & Hc). rewrite bind_get.
    destruct (jobHistory r0 !! jobID) as [job |]; [| split; auto].
    destruct (negb _); [split; auto |].
    destruct (runningJobs r0 !! jobID) as [[c |] |] eqn:Hrun; [| split; auto | split; auto].
    split; [| split].
    - cbn. apply history_wf_insert; [exact Hh |]. cbn. exact (Hc _ _ Hrun).
    - exact Hst.
    - intros id c'. cbn. rewrite lookup_delete_Some. intros [_ Hl]. exact (Hc _ _ Hl). }
  split.
  { intros jobID. unfold Resume. apply registry_wf_after_init; [| exact Hwf].
    intros r0 H0. rewrite bind_get.
    destruct (jobHistory r0 !! jobID) as [job |]; [| exact H0].
    destruct (Status job); exact H0. }
  split.
  { intros now arg total complete cps. unfold ArchiveChat_register.
    pose proof (registry_wf_after_init
                  (r <- get ;;
                   match jobHistory r !! JobID arg with
                   | None => fail (ArchiveJobNotFoundError (JobID arg))
                   | Some job => ret job
                   end) r) as HG.
    fold (Get (JobID arg)) in HG.
    assert (HG' : registry_wf (snd (Get (JobID arg) r))).
    { apply HG; [| exact Hwf]. intros r0 H0. rewrite bind_get.
      destruct (jobHistory r0 !! JobID arg); exact H0. }
    unfold bind at 1, try.
    destruct (Get (JobID arg) r) as [found r0]; cbn [snd] in HG'.
    destruct (ArchiveChat_jobInfo now arg found) as [jobInfo | e]; [| exact HG'].
    pose proof (registry_wf_Set (Some (pause_closure jobInfo total complete cps)) jobInfo r0)
      as HS.
    unfold bind.
    destruct (Set_ (Some (pause_closure jobInfo total complete cps)) jobInfo r0)
      as [[[] | e] r1]; cbn [snd] in HS |- *; apply HS; try exact HG';
      intros c Heq; inversion Heq; reflexivity. }
  intros canceled err jobInfo. unfold ArchiveChat_exit.
  destruct canceled; [exact Hwf |].
  unfold bind, try.
  match goal with |- context [Set_ None ?j r] =>
    pose proof (registry_wf_Set None j r) as HS; destruct (Set_ None j r) as [res r1] end.
  apply HS; [discriminate | exact Hwf].
Qed.

End ChatLifecycle.

(** ** The entry points of the archive manager *)

Section ManagerMore.
Import SimpleFS.
Context {rg : GoRange}.

(** X13: [startJob] refuses a job ID that is in use and changes nothing.
    Otherwise it adds the job in phase Queued with an empty manifest and
    counters at zero, sets the update time, leaves a token for the indexing
    worker and writes the state file. When the context is cancelled the job
    is added all the same, but the call fails and the state file is not
    written. A second call with the same job ID fails. *)
Theorem startJob_spec :
  forall (ctx_done : bool) (now : Z) (desc : SimpleFSArchiveJobDesc) (m : archiveManager),
    let queued := {| Desc := desc; Manifest := ∅; Phase := Queued;
                     BytesTotal := 0; BytesCopied := 0; BytesZipped := 0 |} in
    match Jobs m !! JobID desc with
    | Some _ =>
        startJob ctx_done now desc m = (Failure (errors_New "job ID already exists"), m)
    | None =>
        exists m',
          startJob ctx_done now desc m
          = (if ctx_done then Failure context_Canceled else Success tt, m') /\
          Jobs m' = <[JobID desc := queued]> (Jobs m) /\
          LastUpdated m' = now /\
          indexingWorkerSignal m' = true /\
          stateFile m' = (if ctx_done then stateFile m else Some (Jobs m')) /\
          jobCtxCancellers m' = jobCtxCancellers m /\ errors m' = errors m /\
          copyingWorkerSignal m' = copyingWorkerSignal m /\
          zippingWorkerSignal m' = zippingWorkerSignal m /\
          startJob ctx_done now desc m'
          = (Failure (errors_New "job ID already exists"), m')
    end.
Proof.
  intros ctx_done now desc m queued. unfold startJob. rewrite bind_get.
  destruct (Jobs m !! JobID desc) eqn:Hj; [reflexivity |].
  rewrite !bind_modify. unfold signal. rewrite bind_modify. unfold flushStateFileLocked.
  destruct ctx_done; eexists; (split; [reflexivity |]); cbn;
    repeat split; rewrite ?bind_get; cbn; rewrite ?lookup_insert_eq; reflexivity.
Qed.

(** X14: [cancelOrDismissJob] calls the cancel function registered for the
    job, if any, and drops it, and removes the job; when the job's staging
    path is clean, everything at and below it is removed and the rest of
    the disk stays as it is. For an unknown job it fails with
    "job not found", after the cancel function has been called, and the
    disk is as it was. Error records and the state file are left as they
    are. *)
Theorem cancelOrDismissJob_spec :
  forall (jobID : string) (w : World archiveManager),
    let m := user w in
    let called := match jobCtxCancellers m !! jobID with Some c => [c] | None => [] end in
    exists w',
      cancelOrDismissJob_fs jobID w
      = (match Jobs m !! jobID with
         | Some _ => Success tt
         | None => Failure (errors_New "job not found")
         end, w') /\
      Jobs (user w') = delete jobID (Jobs m) /\
      jobCtxCancellers (user w') = delete jobID (jobCtxCancellers m) /\
      canceled (user w') = canceled m ++ called /\
      errors (user w') = errors m /\
      stateFile (user w') = stateFile m /\
      match Jobs m !! jobID with
      | Some job =>
          OS.clean (StagingPath (Desc job)) = true ->
          (forall q, OS.under (StagingPath (Desc job)) q = true -> os w' !! q = None) /\
          (forall q, OS.under (StagingPath (Desc job)) q = false -> os w' !! q = os w !! q)
      | None => os w' = os w
      end.
Proof.
  intros jobID w m called.
  unfold cancelOrDismissJob_fs. unfold bind at 1. rewrite locked_run.
  assert (Hrun : cancelOrDismissJob jobID m
                 = (match Jobs m !! jobID with
                    | Some job => Success (StagingPath (Desc job))
                    | None => Failure (errors_New "job not found")
                    end,
                    {| Jobs := delete jobID (Jobs m); LastUpdated := LastUpdated m;
                       jobCtxCancellers := delete jobID (jobCtxCancellers m);
                       errors := errors m;
                       indexingWorkerSignal := indexingWorkerSignal m;
                       copyingWorkerSignal := copyingWorkerSignal m;
                       zippingWorkerSignal := zippingWorkerSignal m;
                       stateFile := stateFile m; canceled := canceled m ++ called |})).
  { unfold cancelOrDismissJob. rewrite bind_get. subst called.
    destruct (jobCtxCancellers m !! jobID) as [c |] eqn:Hc.
    - cbv [bind modify get ret fail]. cbn.
      destruct (Jobs m !! jobID) as [job |] eqn:Hj; cbn; [reflexivity |].
      rewrite (delete_id (Jobs m) jobID Hj). reflexivity.
    - rewrite bind_ret, bind_get, app_nil_r, (delete_id _ _ Hc).
      destruct (Jobs m !! jobID) as [job |] eqn:Hj.
      + reflexivity.
      + rewrite (delete_id _ _ Hj). destruct m; reflexivity. }
  fold m. rewrite Hrun. cbn [fst snd].
  destruct (Jobs m !! jobID) as [job |] eqn:Hj.
  - eexists. split; [reflexivity |]. cbn -[OS.under OS.clean].
    do 5 (split; [reflexivity |]). intros _. split.
    + intros q Hq. apply map_lookup_filter_None. right. intros x _. cbn. congruence.
    + intros q Hq. destruct (os w !! q) as [n |] eqn:Hn.
      * apply map_lookup_filter_Some. split; [exact Hn | exact Hq].
      * apply map_lookup_filter_None. left. exact Hn.
  - eexists. split; [reflexivity |]. cbn. repeat split; reflexivity.
Qed.

(** X15: [startWorkerTask] finds no job exactly when no job is in the
    eligible phase, and then changes nothing. Otherwise it claims one job of
    that phase: that job moves to the working phase, the cancel function of
    the round is registered for it, and every other job, the error records,
    the state file and the signals are as they were. *)
Theorem startWorkerTask_claims_one :
  forall (cancel : CancelFunc) (eligible working : SimpleFSArchiveJobPhase)
         (m : archiveManager),
    (startWorkerTask cancel eligible working m = (Success None, m) /\
     forall jobID job, Jobs m !! jobID = Some job -> Phase job <> eligible) \/
    (exists jobID job m',
        startWorkerTask cancel eligible working m = (Success (Some jobID), m') /\
        Jobs m !! jobID = Some job /\ Phase job = eligible /\
        Jobs m' = <[jobID := set_Phase working job]> (Jobs m) /\
        jobCtxCancellers m' = <[jobID := cancel]> (jobCtxCancellers m) /\
        errors m' = errors m /\ stateFile m' = stateFile m /\ canceled m' = canceled m /\
        (forall ch, get_signal ch m' = get_signal ch m)).
Proof.
  intros cancel eligible working m.
  destruct (List.find (fun kv => bool_decide (Phase kv.2 = eligible)) (range (Jobs m)))
    as [[jobID job] |] eqn:Hfind.
  - right. pose proof (find_range_Some _ _ _ _ Hfind) as [Hj HP].
    cbn in HP. apply bool_decide_eq_true in HP.
    exists jobID, job. eexists. split.
    { unfold startWorkerTask. rewrite bind_get, Hfind.
      rewrite (bind_success _ _ _ _ _ (changeJobPhaseLocked_spec jobID working m)), Hj.
      reflexivity. }
    repeat split; try assumption; try reflexivity.
  - left. split.
    + unfold startWorkerTask. rewrite bind_get, Hfind. reflexivity.
    + intros jobID job Hj Hph.
      pose proof (find_none _ _ Hfind (jobID, job)) as Hn.
      cbn in Hn. rewrite bool_decide_eq_true_2 in Hn by exact Hph.
      assert (Hin : In (jobID, job) (range (Jobs m))).
      { apply list_elem_of_In. rewrite range_perm. apply elem_of_map_to_list. exact Hj. }
      specialize (Hn Hin). discriminate.
Qed.

Lemma revert_idle (job : SimpleFSArchiveJobState) :
  working_phase (Phase job) = false -> set_Phase (reverted_phase (Phase job)) job = job.
Proof. destruct job as [d mf ph bt bc bz]. cbn. destruct ph; cbn; intros H; first [discriminate | reflexivity]. Qed.

Lemma reset_lookup j m k :
  Jobs (snd (resetInterruptedPhaseLocked j m)) !! k
  = if decide (k = j)
    then (fun job => set_Phase (reverted_phase (Phase job)) job) <$> Jobs m !! k
    else Jobs m !! k.
Proof.
  rewrite resetInterruptedPhaseLocked_spec.
  destruct (decide (k = j)) as [-> | Hne].
  - destruct (Jobs m !! j) as [job |] eqn:Hj; [| rewrite Hj; reflexivity].
    destruct (working_phase (Phase job)) eqn:Hw.
    + cbn. rewrite lookup_insert_eq. reflexivity.
    + rewrite Hj. cbn. rewrite (revert_idle job Hw). reflexivity.
  - destruct (Jobs m !! j) as [job |]; [| reflexivity].
    destruct (working_phase (Phase job)); [| reflexivity].
    cbn. apply lookup_insert_ne. congruence.
Qed.

Lemma reset_fields j m :
  let m' := snd (resetInterruptedPhaseLocked j m) in
  jobCtxCancellers m' = jobCtxCancellers m /\ errors m' = errors m /\
  stateFile m' = stateFile m /\ canceled m' = canceled m /\
  LastUpdated m' = LastUpdated m /\ (forall ch, get_signal ch m' = get_signal ch m).
Proof.
  cbv zeta. rewrite resetInterruptedPhaseLocked_spec.
  destruct (Jobs m !! j) as [job |]; [| repeat split; reflexivity].
  destruct (working_phase (Phase job)); repeat split; reflexivity.
Qed.

Lemma revert_revert (job : SimpleFSArchiveJobState) :
  let revert := fun job => set_Phase (reverted_phase (Phase job)) job in
  revert (revert job) = revert job.
Proof. destruct job as [d mf ph bt bc bz]. destruct ph; reflexivity. Qed.

Lemma resets_lookup l :
  forall m k,
    Jobs (fold_left (fun m j => snd (resetInterruptedPhaseLocked j m)) l m) !! k
    = if decide (k ∈ l)
      then (fun job => set_Phase (reverted_phase (Phase job)) job) <$> Jobs m !! k
      else Jobs m !! k.
Proof.
  induction l as [| j l IH]; intros m k; cbn [fold_left].
  - destruct (decide (k ∈ [])) as [Hin | _]; [| reflexivity].
    apply elem_of_nil in Hin. contradiction.
  - rewrite IH, reset_lookup.
    destruct (decide (k ∈ l)) as [Hin | Hnin], (decide (k = j)) as [-> | Hne].
    + rewrite decide_True by (left). destruct (Jobs m !! j) as [job |]; [| reflexivity].
      cbn. f_equal. apply revert_revert.
    + rewrite decide_True by (right; exact Hin). reflexivity.
    + rewrite decide_True by (left). reflexivity.
    + rewrite decide_False; [reflexivity |].
      intros Hin. apply elem_of_cons in Hin as [? | ?]; contradiction.
Qed.

Lemma resets_fields l :
  forall m,
    let m' := fold_left (fun m j => snd (resetInterruptedPhaseLocked j m)) l m in
    jobCtxCancellers m' = jobCtxCancellers m /\ errors m' = errors m /\
    stateFile m' = stateFile m /\ canceled m' = canceled m /\
    (forall ch, get_signal ch m' = get_signal ch m).
Proof.
  induction l as [| j l IH]; intros m; cbn [fold_left]; [repeat split; reflexivity |].
  destruct (IH (snd (resetInterruptedPhaseLocked j m))) as (H1 & H2 & H3 & H4 & H5).
  destruct (reset_fields j m) as (G1 & G2 & G3 & G4 & _ & G5).
  cbv zeta. repeat split; congruence.
Qed.

(** X16: the manager made at start-up holds the jobs of the state file,
    each as stored but for the phase: Indexing is put back to Queued,
    Copying to Indexed and Zipping to Copied, so no job is in a working
    phase. It holds no cancel function and no error record, each of the three
    workers has a token waiting, and the state file is the one loaded, or an
    empty one where none could be loaded. A manager made from the state file
    another one has flushed holds that manager's jobs, each with its phase
    put back. *)
Theorem newArchiveManager_recovers :
  forall (loaded : option (gmap string SimpleFSArchiveJobState)),
    let m := newArchiveManager loaded in
    (forall jobID,
        Jobs m !! jobID
        = (fun job => set_Phase (reverted_phase (Phase job)) job)
            <$> (default ∅ loaded !! jobID)) /\
    (forall jobID job, Jobs m !! jobID = Some job -> working_phase (Phase job) = false) /\
    jobCtxCancellers m = ∅ /\ errors m = ∅ /\ canceled m = [] /\
    stateFile m = Some (default ∅ loaded) /\
    (forall ch, get_signal ch m = true) /\
    (* a manager made from the state file another one has flushed *)
    (forall (m0 : archiveManager) jobID,
        Jobs (newArchiveManager (stateFile (snd (flushStateFile false m0)))) !! jobID
        = (fun job => set_Phase (reverted_phase (Phase job)) job) <$> (Jobs m0 !! jobID)).
Proof.
  intros loaded m.
  assert (Hgen : forall loaded jobID,
             Jobs (newArchiveManager loaded) !! jobID
             = (fun job => set_Phase (reverted_phase (Phase job)) job)
                 <$> (default ∅ loaded !! jobID)).
  { clear loaded m. intros loaded jobID. unfold newArchiveManager.
    destruct loaded as [jobs |]; cbn -[resetInterruptedPhasesLocked].
    - unfold resetInterruptedPhasesLocked. rewrite bind_get.
      set (m0 := set_Jobs jobs _). rewrite resets_spec. cbn [snd].
      rewrite resets_lookup. change (Jobs m0) with jobs.
      destruct (decide (jobID ∈ map fst (range jobs))) as [Hin | Hnin]; [reflexivity |].
      destruct (jobs !! jobID) as [job |] eqn:Hj; [| reflexivity].
      exfalso. apply Hnin. eapply ranged_jobID. exact Hj.
    - rewrite lookup_empty. reflexivity. }
  assert (Hjobs : forall jobID,
             Jobs m !! jobID
             = (fun job => set_Phase (reverted_phase (Phase job)) job)
                 <$> (default ∅ loaded !! jobID))
    by (intros jobID; apply Hgen).
  split; [exact Hjobs |]. split.
  { intros jobID job. rewrite Hjobs. destruct (default ∅ loaded !! jobID) as [job0 |]; [| discriminate].
    cbn. intros Heq. inversion Heq. destruct job0 as [d mf ph bt bc bz].
    destruct ph; reflexivity. }
  subst m. unfold newArchiveManager.
  destruct loaded as [jobs |]; cbn -[resetInterruptedPhasesLocked].
  - unfold resetInterruptedPhasesLocked. rewrite bind_get.
    set (m0 := set_Jobs jobs _). rewrite resets_spec. cbn [snd].
    destruct (resets_fields (map fst (range (Jobs m0))) m0) as (H1 & H2 & H3 & H4 & H5).
    split; [exact H1 |]. split; [exact H2 |]. split; [exact H4 |]. split; [exact H3 |].
    split; [intros []; reflexivity |].
    intros m1 jobID. apply (Hgen (Some (Jobs m1))).
  - split; [reflexivity |]. split; [reflexivity |]. split; [reflexivity |].
    split; [reflexivity |]. split; [intros []; reflexivity |].
    intros m1 jobID. apply (Hgen (Some (Jobs m1))).
Qed.

Lemma tick_leaves now jobID l :
  forall m,
    (errors m !! jobID = None \/
     exists es, errors m !! jobID = Some es /\ now < nextRetry es) ->
    let m' := fold_left (fun m j => retry_one now j m) l m in
    Jobs m' !! jobID = Jobs m !! jobID /\ errors m' !! jobID = errors m !! jobID.
Proof.
  induction l as [| j l IH]; intros m Hcase; cbn [fold_left]; [auto |].
  assert (Hone : Jobs (retry_one now j m) !! jobID = Jobs m !! jobID /\
                 errors (retry_one now j m) !! jobID = errors m !! jobID).
  { destruct (decide (j = jobID)) as [-> | Hne]; [| apply retry_one_other; exact Hne].
    unfold retry_one. destruct Hcase as [Hn | (es & He & Hlt)].
    - rewrite Hn. auto.
    - rewrite He. unfold time_Before. destruct (Z.ltb_spec now (nextRetry es)); [auto | lia]. }
  destruct Hone as [HJ HE].
  destruct (IH (retry_one now j m)) as [HJ' HE']; [rewrite HE; exact Hcase |].
  cbv zeta in *. split; congruence.
Qed.

Lemma tick_keeps_orphan now jobID es l :
  forall m,
    Jobs m !! jobID = None -> errors m !! jobID = Some es ->
    let m' := fold_left (fun m j => retry_one now j m) l m in
    Jobs m' !! jobID = None /\ errors m' !! jobID = Some es.
Proof.
  induction l as [| j l IH]; intros m Hj He; cbn [fold_left]; [auto |].
  assert (Hone : Jobs (retry_one now j m) !! jobID = Jobs m !! jobID /\
                 errors (retry_one now j m) !! jobID = errors m !! jobID).
  { destruct (decide (j = jobID)) as [-> | Hne]; [| apply retry_one_other; exact Hne].
    unfold retry_one. rewrite He, Hj. destruct (time_Before now (nextRetry es)); auto. }
  destruct Hone as [HJ HE]. apply IH; congruence.
Qed.

(** X17: once [cancelOrDismissJob] has run the job is gone, and a worker
    that still works on it no longer finds it: [changeJobPhase] and
    [doIndexing] change nothing. The progress callback of the copier,
    though, files a new record under the job ID, with every field zero but
    the byte count; and [setJobError] files an error record that no tick of
    the retry worker removes. *)
Theorem dismissed_job_afterlife :
  forall (jobID : string) (m : archiveManager),
    let m1 := snd (cancelOrDismissJob jobID m) in
    Jobs m1 !! jobID = None /\
    (forall ph, changeJobPhase jobID ph m1 = (Success tt, m1)) /\
    (forall listResult, snd (doIndexing listResult jobID m1) = m1) /\
    (forall delta,
        Jobs (updateBytesCopied jobID delta m1) !! jobID
        = Some (set_BytesCopied (wrap64 delta) zero_job)) /\
    (forall now later e,
        let es := {| err := e; nextRetry := time_Add now archiveErrorRetryDuration |} in
        let m2 := snd (setJobError now jobID e m1) in
        errors m2 !! jobID = Some es /\
        errors (snd (errorRetryWorker_tick later m2)) !! jobID = Some es).
Proof.
  intros jobID m m1.
  assert (Hgone : Jobs m1 !! jobID = None).
  { subst m1. unfold cancelOrDismissJob. rewrite bind_get.
    destruct (jobCtxCancellers m !! jobID) as [c |];
      cbv [bind modify get ret fail]; cbn;
      destruct (Jobs m !! jobID) as [job |] eqn:Hj; cbn;
      first [apply lookup_delete_eq | exact Hj]. }
  split; [exact Hgone |]. split; [| split; [| split]].
  - intros ph. unfold changeJobPhase. rewrite changeJobPhaseLocked_spec, Hgone. reflexivity.
  - intros [entries | e]; unfold doIndexing; [| reflexivity].
    rewrite bind_get, Hgone. reflexivity.
  - intros delta. unfold updateBytesCopied. rewrite Hgone. cbn. rewrite lookup_insert_eq.
    reflexivity.
  - intros now later e es m2.
    assert (He : errors m2 !! jobID = Some es) by (subst m2; cbn; apply lookup_insert_eq).
    split; [exact He |].
    rewrite errorRetryWorker_tick_spec. cbn [snd].
    apply (tick_keeps_orphan later jobID es); [exact Hgone | exact He].
Qed.

(** X18: a tick of the retry worker succeeds and leaves a job and its
    error record as they are when the job has no error record or when the
    record's [nextRetry] is still ahead of the clock. *)
Theorem errorRetryWorker_tick_leaves_not_due :
  forall (now : Z) (m : archiveManager) (jobID : string),
    (errors m !! jobID = None \/
     exists es, errors m !! jobID = Some es /\ now < nextRetry es) ->
    let m' := snd (errorRetryWorker_tick now m) in
    fst (errorRetryWorker_tick now m) = Success tt /\
    Jobs m' !! jobID = Jobs m !! jobID /\
    errors m' !! jobID = errors m !! jobID.
Proof.
  intros now m jobID Hcase. rewrite errorRetryWorker_tick_spec. cbn [fst snd].
  split; [reflexivity |]. apply tick_leaves. exact Hcase.
Qed.
End ManagerMore.

(** ** The rounds of the stage workers *)

Section WorkerRounds.
Import SimpleFS.
Variable sha : list Byte.byte -> list Byte.byte.
Variable zip_encode : list (string * OS.node) -> list Byte.byte.
Context {rg : GoRange} {srt : GoSort}.

Lemma stage_worker_unfold s :
  stage_worker sha zip_encode s
  = worker_round (stage_signal s) (stage_next s) (stage_eligible s) (stage_working s)
      (stage_completed s) (stage_work sha zip_encode s).
Proof. destruct s; reflexivity. Qed.

(** The job a worker has claimed is in the stage's working phase when
    the work on it ends, whatever the outcome. *)
Lemma claimed_in_phase s cancel (w w1 : World archiveManager) jobID :
  locked (startWorkerTask cancel (stage_eligible s) (stage_working s))
    (snd (locked (receive (stage_signal s)) w)) = (Success (Some jobID), w1) ->
  in_phase jobID (stage_working s)
    (user (snd (stage_work sha zip_encode s jobID
                  (snd (locked (signal (stage_signal s)) w1))))).
Proof.
  intros Hclaim. apply preserves_stage_work.
  rewrite !locked_run in *. cbn [snd fst] in *.
  destruct (startWorkerTask_spec cancel (stage_eligible s) (stage_working s)
              (user (set_user (snd (receive (stage_signal s) (user w))) w)))
    as [Hnone | (j & job & Hj & Hph & Hsome)].
  - rewrite Hnone in Hclaim. discriminate.
  - rewrite Hsome in Hclaim. cbn [fst snd] in Hclaim. inversion Hclaim; subst j w1.
    unfold in_phase. destruct s; cbn; rewrite lookup_insert_eq; reflexivity.
Qed.



(** X20: a round of a stage worker that finds no job in its eligible
    phase takes the token from its own channel and changes nothing else:
    the jobs, the state file and the disk are as they were. *)
Theorem stage_worker_idle :
  forall (s : stage) (cancel : CancelFunc) (now : Z) (w : World archiveManager),
    (forall jobID job, Jobs (user w) !! jobID = Some job -> Phase job <> stage_eligible s) ->
    stage_worker sha zip_encode s cancel now w
    = (Success tt, set_user (set_signal (stage_signal s) false (user w)) w).
Proof.
  intros s cancel now w Hnone. rewrite stage_worker_unfold. unfold worker_round.
  assert (H0 : locked (receive (stage_signal s)) w
               = (Success tt, set_user (set_signal (stage_signal s) false (user w)) w))
    by reflexivity.
  rewrite (bind_success _ _ _ _ _ H0).
  set (w0 := set_user _ w).
  assert (Hclaim : locked (startWorkerTask cancel (stage_eligible s) (stage_working s)) w0
                   = (Success None, w0)).
  { rewrite locked_run.
    destruct (startWorkerTask_spec cancel (stage_eligible s) (stage_working s) (user w0))
      as [-> | (j & job & Hj & Hph & _)].
    - subst w0. destruct w; reflexivity.
    - exfalso. apply (Hnone j job); [| exact Hph]. exact Hj. }
  rewrite (bind_success _ _ _ _ _ Hclaim). reflexivity.
Qed.

(** X21: a job whose stage failed at clock [now] is left alone by every
    tick of the retry worker before [now] plus 60 seconds; a tick at or
    after that time puts it back into the stage's eligible phase, removes
    the error record and leaves a token for the stage's worker, whose next
    claim finds a job. *)
Theorem failed_job_is_claimed_again :
  forall (s : stage) (cancel cancel' : CancelFunc) (now later : Z)
         (w w1 w2 : World archiveManager) (jobID : string) (e : error),
    locked (startWorkerTask cancel (stage_eligible s) (stage_working s))
      (snd (locked (receive (stage_signal s)) w)) = (Success (Some jobID), w1) ->
    stage_work sha zip_encode s jobID (snd (locked (signal (stage_signal s)) w1))
    = (Failure e, w2) ->
    now + 60 * time_Second <= later ->
    let m3 := user (snd (stage_worker sha zip_encode s cancel now w)) in
    let m4 := snd (errorRetryWorker_tick later m3) in
    (forall t, t < now + 60 * time_Second ->
               Jobs (snd (errorRetryWorker_tick t m3)) !! jobID = Jobs m3 !! jobID /\
               is_Some (errors (snd (errorRetryWorker_tick t m3)) !! jobID)) /\
    Phase <$> Jobs m4 !! jobID = Some (stage_eligible s) /\
    errors m4 !! jobID = None /\
    get_signal (stage_signal s) m4 = true /\
    exists j, fst (startWorkerTask cancel' (stage_eligible s) (stage_working s) m4)
              = Success (Some j).
Proof.
  intros s cancel cancel' now later w w1 w2 jobID e Hclaim Hwork Hlater m3 m4.
  pose proof (claimed_in_phase s cancel w w1 jobID Hclaim) as Hin.
  rewrite Hwork in Hin. cbn [snd] in Hin. unfold in_phase in Hin.
  destruct (Jobs (user w2) !! jobID) as [job |] eqn:Hj; [| discriminate].
  cbn in Hin. inversion Hin as [Hph].
  subst m4 m3. rewrite (worker_failure sha zip_encode s cancel now w w1 w2 jobID e Hclaim Hwork).
  cbn [snd user set_user].
  set (es := {| err := e; nextRetry := time_Add now archiveErrorRetryDuration |}).
  set (m3 := set_stateFile _ _).
  assert (Hp : pending_retry jobID job es m3).
  { split; [exact Hj | apply lookup_insert_eq]. }
  assert (Hw : working_phase (Phase job) = true) by (rewrite Hph; destruct s; reflexivity).
  assert (Hr : retried jobID job (snd (errorRetryWorker_tick later m3))).
  { rewrite errorRetryWorker_tick_spec. cbn [snd].
    apply (retry_visits later jobID job es); try assumption.
    apply elem_of_app. right. eapply ranged_jobID. exact Hj. }
  split.
  { intros t Ht. rewrite errorRetryWorker_tick_spec. cbn [snd].
    destruct Hp as [Hpj Hpe].
    destruct (tick_leaves t jobID
                (repeat ""%string (size (Jobs m3)) ++ map fst (range (Jobs m3))) m3) as [HJ HE].
    - right. exists es. split; [exact Hpe | exact Ht].
    - split; [exact HJ |]. cbv zeta in HE. rewrite HE, Hpe. eauto. }
  destruct Hr as (Hrj & Hre & Hi & Hc & Hz).
  split; [rewrite Hrj, Hph; destruct s; reflexivity |].
  split; [exact Hre |]. split; [destruct s; assumption |].
  destruct (startWorkerTask_spec cancel' (stage_eligible s) (stage_working s)
              (snd (errorRetryWorker_tick later m3)))
    as [Hnone | (j & job' & _ & _ & Hsome)].
  - exfalso. unfold startWorkerTask in Hnone. rewrite bind_get in Hnone.
    destruct (List.find _ _) as [[j job'] |] eqn:Hfind.
    + rewrite (bind_success _ _ _ _ _ (changeJobPhaseLocked_spec j _ _)) in Hnone.
      discriminate.
    + eapply find_none in Hfind.
      2:{ apply list_elem_of_In. rewrite range_perm. apply elem_of_map_to_list. exact Hrj. }
      cbn in Hfind. apply bool_decide_eq_false in Hfind. apply Hfind.
      rewrite Hph. destruct s; reflexivity.
  - exists j. rewrite Hph, Hsome. reflexivity.
Qed.

End WorkerRounds.

(** ** Copies from the start, interrupted and resumed *)

Section CopierInterrupted.
Import SimpleFS.
Context {St : Type}.
Variable sha : list Byte.byte -> list Byte.byte.

#[local] Opaque chunkSize.



Section LoopCanceled.
Context {R : Type} {HR : Reader R}.
Variable pending : R -> list Byte.byte.
Variable advance : R -> list Byte.byte -> R.
Hypothesis Read_spec :
  forall r n, Read r n = (firstn n (pending r), advance r (firstn n (pending r))).
Hypothesis pending_advance :
  forall r n, pending (advance r (firstn n (pending r))) = skipn n (pending r).
Hypothesis Remaining_spec : forall r, Remaining r = length (pending r).

End LoopCanceled.


Lemma OpenFile_create (w : World St) path mode :
  os w !! path = None ->
  os_call (OS.OpenFile path (Z.lor OS.O_WRONLY (Z.lor OS.O_CREATE OS.O_TRUNC)) mode) w
  = (Success tt, set_os (<[path := OS.File mode 0 []]> (os w)) w).
Proof. intros Hf. unfold os_call, OS.OpenFile. rewrite Hf. reflexivity. Qed.


(** The copy of a file from byte 0 to a path where nothing is. *)
Lemma copyFileFromBeginning_fresh srcDirFS entry path mode upd exec mtime src (w : World St) :
  srcDirFS !! entry = Some (SrcFile exec mtime src) ->
  os w !! path = None ->
  copy_outcome
    (copyFileFromBeginning sha srcDirFS entry path mode upd w)
    (sha src)
    (<[path := OS.File mode 0 src]> (os w))
    (apply_deltas upd (chunk_sizes (length src)) (user w))
    w.
Proof.
  intros Hs Hf. unfold copyFileFromBeginning.
  rewrite (bind_success _ _ _ _ _ (srcDirFS_Open_file _ _ _ _ _ w Hs)).
  rewrite (bind_success _ _ _ _ _
             (wrap_err_success _ _ _ _ _ (OpenFile_create w path mode Hf))).
  set (w1 := set_os _ w).
  assert (Hf1 : os w1 !! path = Some (OS.File mode 0 [])) by apply lookup_insert_eq.
  pose proof (ctxAwareCopy_tee path upd
                (newSHA256TeeReader {| sf_data := src; sf_off := 0 |}) w1 mode 0 [] Hf1) as Hout.
  unfold src_pending in Hout.
  cbn [newSHA256TeeReader inner h sf_off sf_data drop app] in Hout.
  destruct Hout as [e w' Hrun Hfe Hne | c' Hrun Hc'].
  - eapply copy_canceled;
      [rewrite (bind_failure _ _ _ _ _ (wrap_err_failure _ _ _ _ _ Hrun)); reflexivity
      | exact Hfe | exact Hne].
  - eapply copy_done with (c' := c'); [| exact Hc'].
    rewrite (bind_success _ _ _ _ _ (wrap_err_success _ _ _ _ _ Hrun)).
    unfold ret, getSum, tee_advance. cbn. rewrite insert_insert_eq. reflexivity.
Qed.


Lemma copy_outcome_success {R : Type} (r : result error R * World St) final fs u
    (w w' : World St) (got : R) :
  copy_outcome r final fs u w -> r = (Success got, w') ->
  got = final /\ os w' = fs /\ user w' = u /\ (ctx w = None -> ctx w' = None).
Proof.
  intros [e w0 Hrun Hfe Hne | c' Hrun Hc'] Hok; rewrite Hrun in Hok; [discriminate |].
  inversion Hok; subst got w'. cbn. auto.
Qed.

Lemma copy_outcome_failure {R : Type} (r : result error R * World St) final fs u
    (w w' : World St) e :
  copy_outcome r final fs u w -> r = (Failure e, w') -> fuel_error e = false.
Proof.
  intros [e0 w0 Hrun Hfe Hne | c' Hrun Hc'] Hfail; rewrite Hrun in Hfail; [| discriminate].
  inversion Hfail; subst e0. exact Hfe.
Qed.

(** X22: a copy from offset 0 that succeeds returns the SHA-256 of the
    source and leaves the source's bytes at the destination: in a new file
    with the mode asked for when nothing was at the destination, its path
    is clean and the directories above it are there, and in the file that
    was there, its old contents discarded, when a file was there. The
    progress callback has been called once per chunk, with arguments that
    add up to the length of the source, and a job context that was not
    cancelled is not cancelled afterwards. No failure of such a copy is the
    bound on the iterations of the copy loop. When the destination is a
    directory the copy fails at the open and changes nothing. *)
Theorem copyFile_from_start :
  forall (srcDirFS : gmap string srcNode) (entry path : string) (mode : Z)
         (upd : bytesUpdaterFunc St) (exec : bool) (mtime : Z) (src : list Byte.byte)
         (w : World St),
    srcDirFS !! entry = Some (SrcFile exec mtime src) ->
    let reported := chunk_sizes (length src) in
    let run := copyFile sha srcDirFS entry path 0 mode upd w in
    sum_Z reported = Z.of_nat (length src) /\
    (OS.clean path = true -> OS.dirs_above path (os w) = true -> os w !! path = None ->
     (forall sum w',
         run = (Success sum, w') ->
         sum = sha src /\
         os w' = <[path := OS.File mode 0 src]> (os w) /\
         user w' = apply_deltas upd reported (user w) /\
         (ctx w = None -> ctx w' = None)) /\
     (forall e w', run = (Failure e, w') -> fuel_error e = false)) /\
    (forall p t d,
        os w !! path = Some (OS.File p t d) ->
        (forall sum w',
            run = (Success sum, w') ->
            sum = sha src /\
            os w' = <[path := OS.File p t src]> (os w) /\
            user w' = apply_deltas upd reported (user w) /\
            (ctx w = None -> ctx w' = None)) /\
        (forall e w', run = (Failure e, w') -> fuel_error e = false)) /\
    (forall t,
        os w !! path = Some (OS.Dir t) ->
        run = (Failure (Errorf "os.OpenFile" (os_error OS.EISDIR)), w)).
Proof.
  intros srcDirFS entry path mode upd exec mtime src w Hs reported run.
  subst run reported. unfold copyFile. cbn [Z.eqb].
  split; [apply sum_Z_chunk_sizes |]. split; [| split].
  - intros _ _ Hf.
    pose proof (copyFileFromBeginning_fresh srcDirFS entry path mode upd exec mtime src w Hs Hf)
      as Hout.
    split.
    + intros sum w' Hok. exact (copy_outcome_success _ _ _ _ _ _ _ Hout Hok).
    + intros e w' Hfail. exact (copy_outcome_failure _ _ _ _ _ _ _ Hout Hfail).
  - intros p t d Hf.
    pose proof (copyFileFromBeginning_spec sha srcDirFS entry path mode upd exec mtime src
                  p t d w Hs Hf) as Hout.
    split.
    + intros sum w' Hok. exact (copy_outcome_success _ _ _ _ _ _ _ Hout Hok).
    + intros e w' Hfail. exact (copy_outcome_failure _ _ _ _ _ _ _ Hout Hfail).
  - intros t Hf. unfold copyFileFromBeginning.
    rewrite (bind_success _ _ _ _ _ (srcDirFS_Open_file _ _ _ _ _ w Hs)).
    apply bind_failure. unfold wrap_err, os_call, OS.OpenFile. rewrite Hf.
    destruct w; reflexivity.
Qed.



End CopierInterrupted.

(** ** Symbolic links that leave the archived tree *)

(** The calls of the [os] package that make no symbolic link. *)
Section NoSymlinkMade.
Import SimpleFS.
Variable q : string.








End NoSymlinkMade.

Section SkippedLinks.
Import SimpleFS.
Variable sha : list Byte.byte -> list Byte.byte.
Context {rg : GoRange} {srt : GoSort}.


End SkippedLinks.

(** ** The bytes counted while zipping *)

Section ZippedBytes.
Import SimpleFS.
Variable zip_encode : list (string * OS.node) -> list Byte.byte.
Context {rg : GoRange} {srt : GoSort}.

#[local] Opaque chunkSize.





End ZippedBytes.

(** ** Indexing *)

Lemma find_append {A : Type} (f : A -> bool) (l1 l2 : list A) :
  List.find f (l1 ++ l2)
  = match List.find f l1 with Some x => Some x | None => List.find f l2 end.
Proof.
  induction l1 as [| x l1 IH]; [reflexivity |].
  cbn [app List.find]. destruct (f x); [reflexivity | exact IH].
Qed.

Section Indexing.
Import SimpleFS.

Lemma manifest_fold entries :
  forall (mf : gmap string SimpleFSArchiveFile) name,
    fold_left (fun mf e => <[Name e := indexed_file e]> mf) entries mf !! name
    = match List.find (fun e => String.eqb (Name e) name) (rev entries) with
      | Some e => Some (indexed_file e)
      | None => mf !! name
      end.
Proof.
  induction entries as [| e entries IH]; intros mf name; cbn [fold_left rev]; [reflexivity |].
  rewrite IH, find_append.
  destruct (List.find _ (rev entries)) as [e' |]; [reflexivity |].
  cbn [List.find]. destruct (String.eqb_spec (Name e) name) as [<- | Hne].
  - apply lookup_insert_eq.
  - apply lookup_insert_ne. exact Hne.
Qed.

Lemma bytes_fold entries :
  forall acc,
    wrap64 acc = acc ->
    fold_left (fun acc e =>
                 match dirent_type e with
                 | DirentType_FILE | DirentType_EXEC => int64_add acc (wrap64 (dirent_size e))
                 | _ => acc
                 end) entries acc
    = wrap64 (acc + sum_Z (file_bytes entries)).
Proof.
  induction entries as [| e entries IH]; intros acc Hacc; cbn [fold_left].
  - cbn. rewrite Z.add_0_r. symmetry. exact Hacc.
  - unfold file_bytes. cbn [flat_map]. fold (file_bytes entries). rewrite sum_Z_app.
    destruct (dirent_type e); cbn [sum_Z fold_right]; rewrite ?Z.add_0_l, ?Z.add_0_r;
      try (apply IH; exact Hacc).
    all: rewrite IH by (unfold int64_add; apply wrap64_idem).
    all: unfold int64_add; rewrite wrap64_add_r, wrap64_add_l, Z.add_assoc; reflexivity.
Qed.

(** X26: for a job that is there, [doIndexing] replaces the manifest by
    one with an entry in state ToDo and without digest for each name listed
    (the last entry listed under a name giving its type) and no other entry,
    and sets [BytesTotal] to the sum of the sizes of the regular and
    executable files listed, as a 64-bit integer; the rest of the job is
    kept. For a job that is gone it changes nothing and succeeds. *)
Theorem doIndexing_builds_manifest :
  forall (entries : list Dirent) (jobID : string) (m : archiveManager),
    match Jobs m !! jobID with
    | None => doIndexing (Success entries) jobID m = (Success tt, m)
    | Some job =>
        exists manifest,
          doIndexing (Success entries) jobID m
          = (Success tt,
             set_Jobs
               (<[jobID := set_BytesTotal (wrap64 (sum_Z (file_bytes entries)))
                             (set_Manifest manifest job)]> (Jobs m)) m) /\
          forall name,
            manifest !! name
            = indexed_file <$> List.find (fun e => String.eqb (Name e) name) (rev entries)
    end.
Proof.
  intros entries jobID m. unfold doIndexing. rewrite bind_get.
  destruct (Jobs m !! jobID) as [job |]; [| reflexivity].
  eexists. split.
  - unfold modify. rewrite (bytes_fold entries 0 eq_refl), Z.add_0_l. reflexivity.
  - intros name.
    change (fun mf e => <[Name e := {| State := ToDo; DirentType_ := dirent_type e;
                                         Sha256SumHex := "" |}]> mf)
      with (fun (mf : gmap string SimpleFSArchiveFile) e => <[Name e := indexed_file e]> mf).
    rewrite manifest_fold, lookup_empty.
    destruct (List.find _ (rev entries)); reflexivity.
Qed.
End Indexing.

(** ** The map utilities *)

Section MapUtilMore.
Import MapUtil.

(** X27: [mapFilterByKey] keeps the entries whose key is in the set, in
    their order: a lookup in the result finds what it finds in the map when
    the key is in the set and nothing otherwise; keys stay distinct;
    filtering the result again is filtering by the intersection of the two
    sets; the empty set keeps nothing, and a set that holds every key of
    the map keeps everything. *)
Theorem mapFilterByKey_spec :
  forall (V : Type) (entries : list (string * V)) (keys keys' : gset string),
    let kept := mapFilterByKey entries keys in
    (forall key,
        entries_get kept key = if bool_decide (key ∈ keys) then entries_get entries key else None) /\
    sublist kept entries /\
    (NoDup (map fst entries) -> NoDup (map fst kept)) /\
    mapFilterByKey kept keys' = mapFilterByKey entries (keys ∩ keys') /\
    (mapFilterByKey entries ∅ = []) /\
    ((forall kv, In kv entries -> kv.1 ∈ keys) -> kept = entries).
Proof.
  intros V entries keys keys' kept. subst kept. unfold mapFilterByKey, entries_get.
  split; [| split; [| split; [| split; [| split]]]].
  - intros key. induction entries as [| [k v] entries IH]; cbn [List.filter List.find fst].
    + destruct (bool_decide (key ∈ keys)); reflexivity.
    + destruct (bool_decide_reflect (k ∈ keys)) as [Hin | Hnin]; cbn [List.find fst].
      * destruct (String.eqb_spec k key) as [-> | Hne]; [| exact IH].
        rewrite bool_decide_eq_true_2 by exact Hin. reflexivity.
      * destruct (String.eqb_spec k key) as [-> | Hne]; [| exact IH].
        rewrite IH. rewrite bool_decide_eq_false_2 by exact Hnin. reflexivity.
  - induction entries as [| kv entries IH]; cbn [List.filter]; [constructor |].
    destruct (bool_decide _); [apply sublist_skip | apply sublist_cons]; exact IH.
  - intros Hnd. induction entries as [| [k v] entries IH]; cbn [List.filter]; [constructor |].
    cbn [map fst] in Hnd. apply NoDup_cons in Hnd as [Hk Hnd].
    destruct (bool_decide _); cbn [fst map]; [| apply IH; exact Hnd].
    apply NoDup_cons. split; [| apply IH; exact Hnd].
    intros Hin. apply Hk. apply list_elem_of_In, in_map_iff in Hin as ([k' v'] & Heq & Hin).
    apply list_elem_of_In, in_map_iff. exists (k', v'). split; [exact Heq |].
    apply filter_In in Hin. tauto.
  - induction entries as [| [k v] entries IH]; cbn [List.filter fst]; [reflexivity |].
    destruct (bool_decide_reflect (k ∈ keys)) as [Hin | Hnin]; cbn [List.filter fst].
    + destruct (bool_decide_reflect (k ∈ keys')) as [Hin' | Hnin'].
      * rewrite bool_decide_eq_true_2 by (apply elem_of_intersection; auto).
        f_equal. exact IH.
      * rewrite bool_decide_eq_false_2; [exact IH |].
        intros Hboth. apply elem_of_intersection in Hboth. tauto.
    + rewrite bool_decide_eq_false_2; [exact IH |].
      intros Hboth. apply elem_of_intersection in Hboth. tauto.
  - induction entries as [| [k v] entries IH]; cbn [List.filter fst]; [reflexivity |].
    rewrite bool_decide_eq_false_2 by apply not_elem_of_empty. exact IH.
  - intros Hall. induction entries as [| [k v] entries IH]; cbn [List.filter fst]; [reflexivity |].
    rewrite bool_decide_eq_true_2 by (apply (Hall (k, v)); left; reflexivity).
    f_equal. apply IH. intros kv Hin. apply Hall. right. exact Hin.
Qed.

(** X28: with a default other than [undefined], a second call of
    [mapGetEnsureValue] for the same key, whatever its default, returns what
    the first returned and changes the map no further; the value returned
    is not [undefined], and the first call leaves every other key as it
    was. *)
Theorem mapGetEnsureValue_again :
  forall (K : Type) (EqK : EqDecision K) (CK : Countable K)
         (map : gmap K jsval) (key : K) (def def' : jsval),
    def <> JSUndefined ->
    let first := mapGetEnsureValue map key def in
    mapGetEnsureValue (snd first) key def' = first /\
    fst first <> JSUndefined /\
    (forall other, other <> key -> snd first !! other = map !! other).
Proof.
  intros K EqK CK map key def def' Hdef first. subst first.
  unfold mapGetEnsureValue, Map_get, Map_set.
  destruct (map !! key) as [v |] eqn:Hk; cbn [default from_option id].
  - destruct (is_undefined v) eqn:Hv; cbn [fst snd].
    + rewrite lookup_insert_eq. cbn [default from_option id].
      destruct def; try congruence; cbn [is_undefined];
        (split; [reflexivity |]; split; [discriminate |];
         intros other Hne; apply lookup_insert_ne; congruence).
    + rewrite Hk. cbn [default from_option id]. rewrite Hv.
      split; [reflexivity |]. split; [| reflexivity].
      intros ->. discriminate.
  - cbn [is_undefined fst snd]. rewrite lookup_insert_eq. cbn [default from_option id].
    destruct def; try congruence; cbn [is_undefined];
      (split; [reflexivity |]; split; [discriminate |];
       intros other Hne; apply lookup_insert_ne; congruence).
Qed.
End MapUtilMore.

(** ** The properties at concrete jobs *)

Lemma registry_not_started_witness :
  let r := Chat.NewChatArchiveRegistry {| Chat.edb_fails := false; Chat.edb_stored := None |} in
  Chat.List r = (Failure Chat.ErrNotStarted, r) /\
  Chat.Pause "run" r = (Failure Chat.ErrNotStarted, r).
Proof.
  pose proof (@registry_not_started_rejects canonical_GoRange insertion_GoSort
                (Chat.NewChatArchiveRegistry
                   {| Chat.edb_fails := false; Chat.edb_stored := None |})
                eq_refl) as (HL & _ & _ & _ & HP & _).
  split; [exact HL | exact (HP "run"%string)].
Defined.

Lemma Examples_no_nil_handle :
  forall jobID, Chat.runningJobs Examples.registry !! jobID <> Some None.
Proof.
  intros jobID. unfold Examples.registry; cbn [Chat.runningJobs].
  intros Hl. apply lookup_singleton_Some in Hl as [_ Hl]. discriminate.
Qed.

Lemma Examples_registry_wf_all : Chat.registry_wf Examples.registry.
Proof.
  split; [apply Examples_registry_wf |]. split.
  - intros h Hh. discriminate.
  - intros jobID c Hl. unfold Examples.registry in Hl; cbn [Chat.runningJobs] in Hl.
    apply lookup_singleton_Some in Hl as [<- Hl]. inversion Hl. reflexivity.
Qed.

Lemma Set_then_Get_witness :
  exists r',
    Chat.Set_ None (Examples.job "new" 3 Chat.RUNNING) Examples.registry = (Success tt, r') /\
    Chat.Get "new" r' = (Success (Examples.job "new" 3 Chat.RUNNING), r').
Proof.
  destruct (Set_then_Get None (Examples.job "new" 3 Chat.RUNNING)
              Examples.registry Examples.registry eq_refl) as (r' & Hset & Hget & _).
  exists r'. split; [exact Hset | exact Hget].
Defined.

Lemma Delete_witness :
  exists r',
    Chat.Delete "run" true Examples.registry = (Success tt, r') /\
    Chat.effects r' = [Chat.CancelCalled "run" Examples.run_cancel; Chat.OsRemoveAll "/out/run"] /\
    Chat.Get "run" r' = (Failure (Chat.ArchiveJobNotFoundError "run"), r').
Proof.
  destruct (Delete_spec "run" true Examples.registry Examples.registry eq_refl
              (Examples_no_nil_handle "run")) as [_ Hfound].
  destruct (Hfound (Examples.job "run" 5 Chat.RUNNING)) as (r' & Hdel & _ & _ & Heff & _ & Hget).
  - vm_compute. reflexivity.
  - exists r'. split; [exact Hdel |]. split; [exact Heff | exact Hget].
Defined.

Lemma Pause_then_Resume_witness :
  exists r1 r2,
    Chat.Pause "run" Examples.registry = (Success tt, r1) /\
    Chat.Pause "run" r1 = (Failure (Chat.ErrCannotPause Chat.PAUSED), r1) /\
    Chat.Resume "run" r1 = (Success tt, r2) /\
    Chat.effects r2
    = [Chat.CancelCalled "run" Examples.run_cancel;
       Chat.GoArchiveChat (Chat.Request (Chat.cancel_returns Examples.run_cancel))].
Proof.
  destruct (Pause_then_Resume "run" (Examples.job "run" 5 Chat.RUNNING) Examples.run_cancel
              Examples.registry Examples.registry eq_refl)
    as (r1 & r2 & H1 & H2 & H3 & H4 & _).
  - vm_compute. reflexivity.
  - reflexivity.
  - vm_compute. reflexivity.
  - exists r1, r2. repeat split; assumption.
Defined.

Lemma resumeAllBgJobs_witness :
  exists r',
    Chat.resumeAllBgJobs Chat.DelayElapsed Examples.bg_registry = (Success tt, r') /\
    Chat.effects r'
    = [Chat.GoArchiveChat (Chat.Request (Examples.job "bg" 5 Chat.BACKGROUND_PAUSED))] /\
    Chat.jobHistory r' = Chat.jobHistory Examples.bg_registry /\
    Chat.runningJobs r' = ∅.
Proof.
  destruct (@resumeAllBgJobs_launches_background_paused canonical_GoRange
              Examples.bg_registry Examples.bg_registry eq_refl)
    as (_ & _ & launched & r' & Hrun & Heff & Hperm & Hhist & Hjobs).
  assert (Hl : launched = [Chat.Request (Examples.job "bg" 5 Chat.BACKGROUND_PAUSED)]).
  { apply Permutation_singleton_r. rewrite Hperm. vm_compute. reflexivity. }
  exists r'. split; [exact Hrun |]. split; [rewrite Heff, Hl; reflexivity |].
  split; [exact Hhist | exact Hjobs].
Defined.

Lemma bgPauseAllJobsLocked_witness :
  exists r',
    Chat.bgPauseAllJobsLocked Examples.registry = (Success tt, r') /\
    Chat.runningJobs r' = ∅ /\
    Chat.jobHistory r' !! "run"%string
    = Some (Chat.set_Status Chat.BACKGROUND_PAUSED (Chat.cancel_returns Examples.run_cancel)).
Proof.
  destruct (@bgPauseAllJobsLocked_spec canonical_GoRange Examples.registry
              Examples_no_nil_handle) as (r' & canceled & Hrun & Hnone & Hpaused & _).
  exists r'. split; [exact Hrun |]. split; [exact Hnone |].
  apply Hpaused. vm_compute. reflexivity.
Defined.

Lemma Stop_witness :
  exists r1,
    Chat.Stop Examples.registry = (Success tt, r1) /\
    Chat.started r1 = false /\
    Chat.runningJobs r1 = ∅.
Proof.
  destruct (@Stop_pauses_and_Start_resumes canonical_GoRange Examples.registry
              eq_refl eq_refl Examples_no_nil_handle) as (r1 & H1 & H2 & H3 & _).
  exists r1. repeat split; assumption.
Defined.

Lemma ArchiveChat_register_witness :
  exists jobInfo r1,
    Chat.ArchiveChat_register 50 {| Chat.JobID := "held"; Chat.OutputPath := "/elsewhere";
                                    Chat.Compress := true |} 10 4 ∅ Examples.registry
    = (Success jobInfo, r1) /\
    Chat.Status jobInfo = Chat.RUNNING /\
    Chat.Get "held" r1 = (Success jobInfo, r1).
Proof.
  destruct (ArchiveChat_register_spec 50
              {| Chat.JobID := "held"; Chat.OutputPath := "/elsewhere"; Chat.Compress := true |}
              10 4 ∅ Examples.registry Examples.registry eq_refl Examples_registry_wf)
    as (jobInfo & r1 & Hreg & Hst & _ & _ & _ & Hget & _).
  exists jobInfo, r1. repeat split; assumption.
Defined.

Lemma pause_and_resume_witness :
  exists jobInfo r1 r2 r3,
    Chat.ArchiveChat_register 50 {| Chat.JobID := "new"; Chat.OutputPath := "/out/new";
                                    Chat.Compress := false |} 10 4 ∅ Examples.registry
    = (Success jobInfo, r1) /\
    Chat.Pause "new" r1 = (Success tt, r2) /\
    Chat.Resume "new" r2 = (Success tt, r3).
Proof.
  destruct (pause_and_resume_keep_progress 50
              {| Chat.JobID := "new"; Chat.OutputPath := "/out/new"; Chat.Compress := false |}
              10 4 ∅ Examples.registry Examples.registry eq_refl Examples_registry_wf)
    as (jobInfo & r1 & r2 & r3 & Hreg & Hp & _ & _ & Hr & _).
  exists jobInfo, r1, r2, r3. repeat split; assumption.
Defined.

Lemma ArchiveChat_exit_witness :
  (exists r',
      Chat.ArchiveChat_exit false None (Examples.job "run" 5 Chat.RUNNING) Examples.registry
      = (Success tt, r') /\
      Chat.runningJobs r' !! "run"%string = None /\
      Chat.jobHistory r' !! "run"%string
      = Some (Chat.set_Status Chat.COMPLETE (Examples.job "run" 5 Chat.RUNNING)) /\
      Chat.Resume "run" r' = (Failure (Chat.ErrCannotResume Chat.COMPLETE), r')) /\
  (exists r' r'',
      Chat.ArchiveChat_exit false (Some "disk full"%string)
        (Examples.job "run" 5 Chat.RUNNING) Examples.registry
      = (Success tt, r') /\
      Chat.runningJobs r' !! "run"%string = None /\
      Chat.jobHistory r' !! "run"%string
      = Some (Chat.set_Err "disk full"
                (Chat.set_Status Chat.ERROR (Examples.job "run" 5 Chat.RUNNING))) /\
      Chat.Resume "run" r' = (Success tt, r'') /\
      Chat.effects r''
      = [Chat.GoArchiveChat (Chat.Request (Examples.job "run" 5 Chat.RUNNING))]).
Proof.
  split.
  - destruct (ArchiveChat_exit_spec None (Examples.job "run" 5 Chat.RUNNING)
                Examples.registry Examples.registry eq_refl)
      as (_ & r' & Hrun & Hjobs & Hhist & _ & Hres).
    exists r'. split; [exact Hrun |].
    split; [rewrite Hjobs; apply lookup_delete_eq |].
    split; [rewrite Hhist; apply lookup_insert_eq | exact Hres].
  - destruct (ArchiveChat_exit_spec (Some "disk full"%string)
                (Examples.job "run" 5 Chat.RUNNING)
                Examples.registry Examples.registry eq_refl)
      as (_ & r' & Hrun & Hjobs & Hhist & _ & r'' & Hres & Heff).
    exists r', r''. split; [exact Hrun |].
    split; [rewrite Hjobs; apply lookup_delete_eq |].
    split; [rewrite Hhist; apply lookup_insert_eq |].
    split; [exact Hres | exact Heff].
Defined.

Lemma cancelOrDismissJob_witness :
  let w := Examples.world_of Examples.manager0 Examples.staged_fs in
  exists w',
    SimpleFS.cancelOrDismissJob_fs "j5" w = (Success tt, w') /\
    SimpleFS.Jobs (SimpleFS.user w') !! "j5"%string = None /\
    SimpleFS.os w' !! "/stage/workspace/t/a.txt"%string = None /\
    SimpleFS.os w' !! "/stage/workspace"%string = None /\
    SimpleFS.os w' !! "/out/j5.zip"%string
    = Some (OS.File 438 0 (list_byte_of_string "old archive")).
Proof.
  cbv zeta.
  destruct (cancelOrDismissJob_spec "j5"
              (Examples.world_of Examples.manager0 Examples.staged_fs))
    as (w' & Hrun & Hjobs & _ & _ & _ & _ & Hos).
  assert (Hj : SimpleFS.Jobs Examples.manager0 !! "j5"%string
               = Some {| SimpleFS.Desc := Examples.desc5; SimpleFS.Manifest := ∅;
                         SimpleFS.Phase := SimpleFS.Queued; SimpleFS.BytesTotal := 0;
                         SimpleFS.BytesCopied := 0; SimpleFS.BytesZipped := 0 |})
    by (vm_compute; reflexivity).
  cbn [SimpleFS.user Examples.world_of] in Hrun, Hos. rewrite Hj in Hrun, Hos.
  destruct Hos as [Hgone Hkept]; [vm_compute; reflexivity |].
  exists w'. split; [exact Hrun |].
  split; [rewrite Hjobs; apply lookup_delete_eq |].
  split; [apply Hgone; vm_compute; reflexivity |].
  split; [apply Hgone; vm_compute; reflexivity |].
  rewrite Hkept by (vm_compute; reflexivity). vm_compute. reflexivity.
Defined.

Lemma registry_wf_witness :
  Chat.registry_wf (snd (Chat.Pause "run" Examples.registry)) /\
  Chat.registry_wf (snd (Chat.Delete "done" true Examples.registry)).
Proof.
  destruct (@registry_wf_is_kept canonical_GoRange insertion_GoSort Examples.registry
              Examples_registry_wf_all)
    as (_ & _ & _ & _ & _ & _ & _ & _ & Hdel & _ & Hpause & _).
  split; [apply Hpause | apply Hdel].
Defined.

Lemma errorRetryWorker_tick_not_due_witness :
  SimpleFS.Jobs (snd (SimpleFS.errorRetryWorker_tick 2000 Examples.manager_failed)) !! "j5"%string
  = SimpleFS.Jobs Examples.manager_failed !! "j5"%string.
Proof.
  refine (proj1 (proj2 (@errorRetryWorker_tick_leaves_not_due canonical_GoRange 2000
                          Examples.manager_failed "j5"%string _))).
  right. exists {| SimpleFS.err := Examples.io_error; SimpleFS.nextRetry := 60000001000 |}.
  split; [vm_compute; reflexivity | reflexivity].
Defined.


Lemma manager0_jobs :
  forall jobID job,
    SimpleFS.Jobs Examples.manager0 !! jobID = Some job -> SimpleFS.Phase job = SimpleFS.Queued.
Proof.
  intros jobID job.
  assert (Hjobs : SimpleFS.Jobs Examples.manager0
                  = {[ "j5"%string :=
                         {| SimpleFS.Desc := Examples.desc5; SimpleFS.Manifest := ∅;
                            SimpleFS.Phase := SimpleFS.Queued; SimpleFS.BytesTotal := 0;
                            SimpleFS.BytesCopied := 0; SimpleFS.BytesZipped := 0 |} ]})
    by (vm_compute; reflexivity).
  rewrite Hjobs. intros Hl. apply lookup_singleton_Some in Hl as [_ <-]. reflexivity.
Qed.

Lemma stage_worker_idle_witness :
  SimpleFS.stage_worker SHA256.Sum Examples.zip_encode SimpleFS.ZippingStage 1%nat 1000
    (Examples.world_of Examples.manager0 ∅)
  = (Success tt,
     Examples.world_of (SimpleFS.set_signal SimpleFS.zippingSignal false Examples.manager0) ∅).
Proof.
  apply (@stage_worker_idle SHA256.Sum Examples.zip_encode canonical_GoRange insertion_GoSort
           SimpleFS.ZippingStage 1%nat 1000 (Examples.world_of Examples.manager0 ∅)).
  intros jobID job Hj Hph. apply manager0_jobs in Hj. rewrite Hj in Hph. discriminate.
Defined.

Lemma failed_job_is_claimed_again_witness :
  let m3 := SimpleFS.user (snd (SimpleFS.stage_worker SHA256.Sum Examples.zip_encode
                                 (SimpleFS.IndexingStage (Failure Examples.io_error)) 1%nat 1000
                                 (Examples.world_of Examples.manager0 ∅))) in
  let m4 := snd (SimpleFS.errorRetryWorker_tick 60000001000 m3) in
  SimpleFS.Phase <$> SimpleFS.Jobs m4 !! "j5"%string = Some SimpleFS.Queued /\
  SimpleFS.errors m4 !! "j5"%string = None.
Proof.
  destruct (@failed_job_is_claimed_again SHA256.Sum Examples.zip_encode
              canonical_GoRange insertion_GoSort
              (SimpleFS.IndexingStage (Failure Examples.io_error)) 1%nat 2%nat 1000 60000001000
              (Examples.world_of Examples.manager0 ∅)
              (Examples.world_of
                 (SimpleFS.set_signal SimpleFS.indexingSignal false Examples.manager_claimed) ∅)
              (Examples.world_of
                 (SimpleFS.set_signal SimpleFS.indexingSignal true Examples.manager_claimed) ∅)
              "j5"%string Examples.io_error)
    as (_ & Hph & Herr & _).
  - vm_compute. reflexivity.
  - vm_compute. reflexivity.
  - vm_compute. discriminate.
  - split; [exact Hph | exact Herr].
Defined.

Lemma copyFile_from_start_witness :
  let src := list_byte_of_string "hello world" in
  let path := "/stage/workspace/t/a.txt"%string in
  (exists w',
      SimpleFS.copyFile SHA256.Sum Examples.src_tree "a.txt" path 0 420 Examples.log_delta
        (Examples.workspace_world None) = (Success (SHA256.Sum src), w') /\
      SimpleFS.os w' = <[path := OS.File 420 0 src]> Examples.workspace_fs /\
      SimpleFS.user w' = [11] /\
      SimpleFS.ctx w' = None) /\
  (exists e w',
      SimpleFS.copyFile SHA256.Sum Examples.src_tree "a.txt" path 0 420 Examples.log_delta
        (Examples.workspace_world (Some 0%nat)) = (Failure e, w') /\
      SimpleFS.fuel_error e = false).
Proof.
  cbv zeta. split.
  - destruct (@copyFile_from_start (list Z) SHA256.Sum Examples.src_tree "a.txt"
                "/stage/workspace/t/a.txt" 420 Examples.log_delta false 7
                (list_byte_of_string "hello world") (Examples.workspace_world None))
      as (_ & Hfresh & _); [vm_compute; reflexivity |].
    destruct Hfresh as [Hok _]; [vm_compute; reflexivity .. |].
    destruct (SimpleFS.copyFile SHA256.Sum Examples.src_tree "a.txt" "/stage/workspace/t/a.txt"
                0 420 Examples.log_delta (Examples.workspace_world None))
      as [[sum | e] w'] eqn:Hrun; [| vm_compute in Hrun; discriminate].
    destruct (Hok sum w' eq_refl) as (-> & Hos & Hu & Hc).
    exists w'. split; [reflexivity |]. split; [exact Hos |].
    split; [rewrite Hu; vm_compute; reflexivity | apply Hc; reflexivity].
  - destruct (@copyFile_from_start (list Z) SHA256.Sum Examples.src_tree "a.txt"
                "/stage/workspace/t/a.txt" 420 Examples.log_delta false 7
                (list_byte_of_string "hello world") (Examples.workspace_world (Some 0%nat)))
      as (_ & Hfresh & _); [vm_compute; reflexivity |].
    destruct Hfresh as [_ Hfail]; [vm_compute; reflexivity .. |].
    destruct (SimpleFS.copyFile SHA256.Sum Examples.src_tree "a.txt" "/stage/workspace/t/a.txt"
                0 420 Examples.log_delta (Examples.workspace_world (Some 0%nat)))
      as [[sum | e] w'] eqn:Hrun; [vm_compute in Hrun; discriminate |].
    exists e, w'. split; [reflexivity |]. exact (Hfail e w' eq_refl).
Defined.





Lemma mapGetEnsureValue_again_witness :
  let first := MapUtil.mapGetEnsureValue (∅ : gmap string MapUtil.jsval) "a"%string
                 (MapUtil.JSNum 1) in
  MapUtil.mapGetEnsureValue (snd first) "a"%string (MapUtil.JSNum 2) = first.
Proof.
  refine (proj1 (mapGetEnsureValue_again string _ _ ∅ "a"%string (MapUtil.JSNum 1)
                   (MapUtil.JSNum 2) _)).
  discriminate.
Defined.
